(** * ragdaemon: the annotation pipeline and the context assembler

    A shallow embedding of [ragdaemon/annotators/chunker.py],
    [ragdaemon/annotators/hierarchy.py] and [ragdaemon/daemon.py], with
    [query_graph] of [ragdaemon/database.py] and the conversation loop of
    [ragdaemon/cerebrus.py].

    Python values that the code stores in dicts are [pyval]s, a raised
    exception is the [Raise] branch of [pyres], dicts are [gmap]s, Python
    sets are [gset]s and the [networkx.MultiDiGraph] is a record of node
    attributes and a multiset of edges. *)

From Stdlib Require Import Ascii String.
From stdpp Require Import gmap gmultiset strings list pretty sorting.
From Equations Require Import Equations.
From Equations.Prop Require Import Logic.

Open Scope Z_scope.

(** ** Exceptions and results *)

Inductive exn :=
  | AttributeError | IndexError | KeyError | TypeError | ValueError
  | JSONDecodeError | ExternalError.

Inductive pyres (A : Type) :=
  | Ret (a : A)
  | Raise (e : exn).
Arguments Ret {A} a.
Arguments Raise {A} e.

#[global] Instance exn_eq_dec : EqDecision exn.
Proof. solve_decision. Defined.
#[global] Instance pyres_eq_dec {A} `{EqDecision A} : EqDecision (pyres A).
Proof. solve_decision. Defined.

#[global] Instance pyres_ret : MRet pyres := @Ret.
#[global] Instance pyres_bind : MBind pyres := λ A B f m,
  match m with Ret a => f a | Raise e => Raise e end.

Definition raises {A} (m : pyres A) : Prop := ∃ e, m = Raise e.
Definition returns {A} (m : pyres A) : Prop := ∃ a, m = Ret a.

(** ** Python strings: the [str] methods the code calls, on one-character
    separators (":", ".", ",", "-" are the only ones used) *)

Module PyStr.

(** [s.count(c)] *)
Fixpoint count (c : ascii) (s : string) : nat :=
  match s with
  | EmptyString => 0%nat
  | String a r => if decide (a = c) then S (count c r) else count c r
  end.

(** [s.split(c)]: always at least one piece *)
Fixpoint split (c : ascii) (s : string) : list string :=
  match s with
  | EmptyString => [EmptyString]
  | String a r =>
      if decide (a = c) then EmptyString :: split c r
      else match split c r with
           | h :: t => String a h :: t
           | [] => [String a EmptyString]
           end
  end.

(** [s.split(c, 1)]: cut at the first [c] only *)
Fixpoint split1 (c : ascii) (s : string) : list string :=
  match s with
  | EmptyString => [EmptyString]
  | String a r =>
      if decide (a = c) then [EmptyString; r]
      else match split1 c r with
           | h :: t => String a h :: t
           | [] => [String a EmptyString]
           end
  end.

(** [c in s] *)
Definition contains (c : ascii) (s : string) : bool := bool_decide (count c s ≠ 0%nat).

(** [sep.join(l)] *)
Definition join (sep : string) (l : list string) : string := String.concat sep l.

(** [len(s)] *)
Definition len (s : string) : Z := Z.of_nat (String.length s).

Arguments count c%_char s%_string.
Arguments split c%_char s%_string.
Arguments split1 c%_char s%_string.
Arguments contains c%_char s%_string.

End PyStr.

(** The newline, ["\n"] in Python. *)
Definition nl : string := String "010"%char "".

(** ** Python values held in dicts *)

(** A chunk descriptor [{"id": ..., "ref": ...}] as stored in a file node's
    ["chunks"] list. *)
Record descr := Descr { d_id : string; d_ref : string }.

#[global] Instance descr_eq_dec : EqDecision descr.
Proof. solve_decision. Defined.

Inductive pyval :=
  | PNone
  | PBool (b : bool)
  | PInt (z : Z)
  | PStr (s : string)
  | PList (l : list descr).

#[global] Instance pyval_eq_dec : EqDecision pyval.
Proof. solve_decision. Defined.

(** A dict with string keys. *)
Abbreviation pydict := (gmap string pyval).

(** [d[k]] *)
Definition getitem (d : pydict) (k : string) : pyres pyval :=
  match d !! k with Some v => Ret v | None => Raise KeyError end.

(** [l[i]] for a list and a non-negative constant index *)
Definition list_getitem {A} (l : list A) (i : nat) : pyres A :=
  match l !! i with Some v => Ret v | None => Raise IndexError end.

(** [v.count(":")]: [str.count] on a str, [list.count] on a list (no element
    of a descriptor list equals a str), no such attribute otherwise. *)
Definition py_count (v : pyval) (c : ascii) : pyres nat :=
  match v with
  | PStr s => Ret (PyStr.count c s)
  | PList _ => Ret 0%nat
  | _ => Raise AttributeError
  end.

(** [v.split(":")] *)
Definition py_split (v : pyval) (c : ascii) : pyres (list string) :=
  match v with
  | PStr s => Ret (PyStr.split c s)
  | _ => Raise AttributeError
  end.

Arguments py_count v c%_char.
Arguments py_split v c%_char.

(** An operand of [range] or of [+ 1]: an int, or a bool (a subclass of
    int). *)
Definition as_int (v : pyval) : pyres Z :=
  match v with
  | PInt z => Ret z
  | PBool b => Ret (if b then 1 else 0)
  | _ => Raise TypeError
  end.

(** [f"{v}"] for the values that reach an f-string *)
Definition py_format (v : pyval) : string :=
  match v with
  | PNone => "None"
  | PBool b => if b then "True" else "False"
  | PInt z => pretty z
  | PStr s => s
  | PList _ => "[...]"
  end.

(** ** chunker.py: chunk validation *)

Definition chunk_keys : gset string := {[ "id"; "start_line"; "end_line" ]}.

Definition is_chunk_valid (chunk : pydict) : pyres bool :=
  (* Includes the correct fields *)
  if negb (bool_decide (dom chunk = chunk_keys)) then Ret false
  else
    id ← getitem chunk "id";
    (* ID is in the correct format *)
    n ← py_count id ":";
    if negb (bool_decide (n = 1%nat)) then Ret false
    else
      (* A chunk name is specified *)
      parts ← py_split id ":";
      seg ← list_getitem parts 1;
      if negb (bool_decide (PyStr.len seg ≠ 0)) then Ret false
      else Ret true.

(** [all(is_chunk_valid(chunk) for chunk in chunks)]: stops at the first
    chunk that is not valid. *)
Fixpoint all_chunks_valid (chunks : list pydict) : pyres bool :=
  match chunks with
  | [] => Ret true
  | chunk :: rest =>
      ok ← is_chunk_valid chunk;
      if ok : bool then all_chunks_valid rest else Ret false
  end.

(** ** The content store and the collaborators

    The chroma collection is a map from checksum to a document and its
    metadata dict. [get] of an unknown checksum gives empty lists, so
    [...["metadatas"][0]] raises [IndexError]. *)

Record record := Record_ { r_document : string; r_metadata : pydict }.

#[global] Instance record_eq_dec : EqDecision record.
Proof. solve_decision. Defined.

Abbreviation store := (gmap string record).

(** [get_db(cwd).get(checksum)["metadatas"]] *)
Definition db_metadatas (db : store) (checksum : string) : list pydict :=
  match db !! checksum with Some r => [r_metadata r] | None => [] end.

(** [get_db(cwd).get(checksum)["documents"]] *)
Definition db_documents (db : store) (checksum : string) : list string :=
  match db !! checksum with Some r => [r_document r] | None => [] end.

(** [get_db(cwd).update(checksum, metadatas=m)] *)
Definition db_update (db : store) (checksum : string) (m : pydict) : store :=
  alter (λ r, Record_ (r_document r) m) checksum db.

(** [get_db(cwd).upsert(ids, documents, metadatas)], one entry after the
    other. *)
Definition db_upsert (db : store) (batch : list (string * record)) : store :=
  foldl (λ d e, <[e.1 := e.2]> d) db batch.

(** The functions of [ragdaemon.utils] and [ragdaemon.llm], the file system
    below [cwd], [json] and the boundary detector ([Chunker.chunk_file], which
    subclasses provide) are parameters of the model. A tracked path is a
    relative [pathlib.Path], held as its [parts]. *)
Record Env := {
  (* utils.hash_str *)
  hash_str : string → string;
  (* utils.get_non_gitignored_files(cwd) *)
  git_paths : list (list string);
  (* utils.get_document(ref, cwd) *)
  get_document : string → pyres string;
  (* (cwd / Path(node)).read_text().splitlines() *)
  read_lines : string → pyres (list string);
  (* await chunk_function(cwd, node, file_lines, verbose) *)
  chunk_function : string → list string → pyres (list pydict);
  json_dumps : list descr → string;
  json_loads : string → pyres (list descr);
  (* llm.token_counter *)
  token_counter : string → Z;
  (* str(Path(s)) *)
  path_norm : string → string;
  (* s.splitlines() *)
  splitlines : string → list string;
  (* int(s) *)
  py_int : string → pyres Z;
}.

(** A str where the code needs one (a checksum, a node id, a ref). *)
Definition as_str (v : pyval) : pyres string :=
  match v with PStr s => Ret s | _ => Raise TypeError end.

(** ** chunker.py: [get_file_chunk_data] *)

(** [set(range(a, b))] *)
Definition range_set (a b : Z) : gset Z := list_to_set (seqZ a (b - a)).

(** Lines 59-61: discard from the set every line of every chunk. *)
Fixpoint discard_chunks (base_chunk_lines : gset Z) (chunks : list pydict)
    : pyres (gset Z) :=
  match chunks with
  | [] => Ret base_chunk_lines
  | chunk :: rest =>
      s ← getitem chunk "start_line";
      e ← getitem chunk "end_line";
      start_line ← as_int s;
      end_line ← as_int e;
      discard_chunks (base_chunk_lines ∖ range_set start_line (end_line + 1)) rest
  end.

(** One entry of [base_chunk_refs]: [f"{start}"] or [f"{start}-{end}"]. *)
Inductive run :=
  | Single (start : Z)
  | Span (start end_ : Z).

#[global] Instance run_eq_dec : EqDecision run.
Proof. solve_decision. Defined.

Definition format_run (r : run) : string :=
  match r with
  | Single start => pretty start
  | Span start end_ => pretty start +:+ "-" +:+ pretty end_
  end.

(** Lines 67-76: the loop over [base_chunk_lines_sorted[1:]] and the append
    after it. *)
Fixpoint group_runs (start end_ : Z) (rest : list Z) (refs : list run) : list run :=
  match rest with
  | [] => refs ++ [Span start end_]
  | i :: rest' =>
      if bool_decide (i = end_ + 1) then group_runs start i rest' refs
      else
        group_runs i i rest'
          (refs ++ [if bool_decide (start = end_) then Single start
                    else Span start end_])
  end.

(** Lines 62-78 *)
Definition base_chunk_runs (base_chunk_lines : gset Z) : list run :=
  match merge_sort Z.le (elements base_chunk_lines) with
  | [] => []
  | start :: rest => group_runs start start rest []
  end.

Definition base_chunk_refs (base_chunk_lines : gset Z) : list string :=
  format_run <$> base_chunk_runs base_chunk_lines.

(** Lines 80-83 *)
Definition base_chunk (node : string) (base_chunk_refs : list string) : descr :=
  {| d_id := node +:+ ":BASE";
     d_ref := node +:+ (if bool_decide (base_chunk_refs ≠ [])
                         then ":" +:+ PyStr.join "," base_chunk_refs else "") |}.

(** Lines 85-88: a chunk that passed [is_chunk_valid] has a str id. *)
Definition author_chunk (node : string) (chunk : pydict) : pyres descr :=
  id ← getitem chunk "id";
  start_line ← getitem chunk "start_line";
  end_line ← getitem chunk "end_line";
  id ← as_str id;
  Ret {| d_id := id;
         d_ref := node +:+ ":" +:+ py_format start_line +:+ "-" +:+ py_format end_line |}.

(** Lines 56-90: the descriptors of a non-empty chunk list of a file of
    [n] lines. *)
Definition standardize (node : string) (n : Z) (chunks : list pydict)
    : pyres (list descr) :=
  if bool_decide (chunks = []) then Ret []
  else
    base_chunk_lines ← discard_chunks (range_set 1 (n + 1)) chunks;
    authors ← mapM (author_chunk node) chunks;
    Ret (authors ++ [base_chunk node (base_chunk_refs base_chunk_lines)]).

(** Lines 49-55 *)
Definition detect_chunks (E : Env) (node : string) : pyres (list string * list pydict) :=
  file_lines ← read_lines E node;
  if bool_decide (length file_lines = 0%nat) then Ret (file_lines, [])
  else
    chunks ← chunk_function E node file_lines;
    ok ← all_chunks_valid chunks;
    if ok : bool then Ret (file_lines, chunks) else Raise ValueError.

(** [get_file_chunk_data]: the value assigned to [data["chunks"]] and the
    store after the update of the file's record. *)
Definition get_file_chunk_data (E : Env) (node : string) (data : pydict) (db : store)
    : pyres (list descr * store) :=
  '(file_lines, chunks) ← detect_chunks E node;
  chunks ← standardize node (Z.of_nat (length file_lines)) chunks;
  (* Save to db and graph *)
  checksum ← getitem data "checksum";
  checksum ← as_str checksum;
  metadatas ← list_getitem (db_metadatas db checksum) 0;
  let metadatas := <["chunks" := PStr (json_dumps E chunks)]> metadatas in
  Ret (chunks, db_update db checksum metadatas).

(** ** The graph: [networkx.MultiDiGraph]

    Node attributes by node id, and the edges as a multiset, since
    [add_edge] on a multigraph adds a parallel edge each time it is called.
    An edge is [(source, target, type)]. The order in which networkx keeps
    nodes and edges is not part of the model. *)

Abbreviation edge := (string * string * string)%type.

Record Graph := {
  g_attrs : pydict;                  (* graph.graph *)
  g_nodes : gmap string pydict;      (* graph.nodes(data=True) *)
  g_edges : gmultiset edge;          (* graph.edges(data=True) *)
}.

#[global] Instance Graph_eq_dec : EqDecision Graph.
Proof. solve_decision. Defined.

(** [nx.MultiDiGraph()] *)
Definition empty_graph : Graph :=
  {| g_attrs := ∅; g_nodes := ∅; g_edges := ∅ |}.

(** [graph.graph[k] = v] *)
Definition set_attr (g : Graph) (k : string) (v : pyval) : Graph :=
  {| g_attrs := <[k := v]> (g_attrs g); g_nodes := g_nodes g; g_edges := g_edges g |}.

(** [graph.add_node(id, **record)]: the attributes of an existing node are
    updated. *)
Definition add_node (g : Graph) (id : string) (record : pydict) : Graph :=
  {| g_attrs := g_attrs g;
     g_nodes := <[id := record ∪ default ∅ (g_nodes g !! id)]> (g_nodes g);
     g_edges := g_edges g |}.

(** [graph.add_edge(source, target, type=ty)]: end points that are not nodes
    yet become nodes without attributes. *)
Definition add_edge (g : Graph) (source target ty : string) : Graph :=
  let g := add_node (add_node g source ∅) target ∅ in
  {| g_attrs := g_attrs g;
     g_nodes := g_nodes g;
     g_edges := g_edges g ⊎ {[+ (source, target, ty) +]} |}.

(** [data["chunks"] = chunks] on the attribute dict of node [id], which the
    graph holds by reference. *)
Definition set_node_attr (g : Graph) (id k : string) (v : pyval) : Graph :=
  {| g_attrs := g_attrs g;
     g_nodes := alter (λ data, <[k := v]> data) id (g_nodes g);
     g_edges := g_edges g |}.

(** The hierarchy edges that enter [v], and those that leave it. *)
Definition in_edges (g : Graph) (v : string) : list edge :=
  filter (λ e, e.1.2 = v ∧ e.2 = "hierarchy") (elements (g_edges g)).
Definition out_edges (g : Graph) (v : string) : list edge :=
  filter (λ e, e.1.1 = v ∧ e.2 = "hierarchy") (elements (g_edges g)).
Definition in_degree (g : Graph) (v : string) : nat := length (in_edges g v).

(** [u] is the parent of [v] by a hierarchy edge. *)
Definition hierarchy_edge (g : Graph) (u v : string) : Prop :=
  (u, v, "hierarchy") ∈ g_edges g.

#[global] Instance hierarchy_edge_dec g u v : Decision (hierarchy_edge g u v).
Proof. unfold hierarchy_edge. apply _. Defined.

(** A left fold in the error monad: a [for] loop whose body may raise. *)
Fixpoint foldlM {A B} (f : A → B → pyres A) (a : A) (l : list B) : pyres A :=
  match l with
  | [] => Ret a
  | x :: l => a' ← f a x; foldlM f a' l
  end.

(** ** Paths: a relative [pathlib.Path] as its [parts] *)

Definition path := list string.

(** [str(path)] *)
Definition path_str (p : path) : string :=
  match p with [] => "." | _ => PyStr.join "/" p end.

(** [path.parent] *)
Definition path_parent (p : path) : path := removelast p.

(** [Path(s).suffix]: the extension of the final component. *)
Definition path_suffix (s : string) : string :=
  let components := filter (λ c, c ≠ "" ∧ c ≠ ".") (PyStr.split "/" s) in
  let pieces := PyStr.split "." (List.last components "") in
  if bool_decide ((1 < length pieces)%nat
                  ∧ List.last pieces "" ≠ ""
                  ∧ PyStr.join "." (removelast pieces) ≠ "")
  then "." +:+ List.last pieces "" else "".

(** A dict in insertion order; [d[k] = v] keeps the place of a key that is
    already there. *)
Fixpoint dict_set {K V} `{EqDecision K} (k : K) (v : V) (d : list (K * V)) : list (K * V) :=
  match d with
  | [] => [(k, v)]
  | (k', v') :: d' => if decide (k = k') then (k, v) :: d' else (k', v') :: dict_set k v d'
  end.

(** ** hierarchy.py *)

(** Lines 22-44: one round of the loop over [git_paths]; a path whose
    document cannot be read is passed over. *)
Definition scan_path (E : Env) (refresh : bool) (db : store)
    (st : list (path * string) * list (string * record)) (p : path)
    : list (path * string) * list (string * record) :=
  let '(checksums, add_to_db) := st in
  match get_document E (path_str p) with
  | Raise _ => st
  | Ret document =>
      let checksum := hash_str E document in
      let existing_record := bool_decide (db_metadatas db checksum ≠ []) in
      let add_to_db :=
        if refresh || negb existing_record then
          let metadatas : pydict :=
            {[ "id" := PStr (path_str p); "type" := PStr "file";
               "path" := PStr (path_str p); "checksum" := PStr checksum;
               "active" := PBool false ]} in
          add_to_db ++ [(checksum, Record_ document metadatas)]
        else add_to_db in
      (dict_set p checksum checksums, add_to_db)
  end.

Definition get_active_checksums (E : Env) (refresh : bool) (db : store)
    : list (path * string) * store :=
  let '(checksums, add_to_db) := foldl (scan_path E refresh db) ([], []) (git_paths E) in
  (checksums, db_upsert db add_to_db).

(** [hash_str("".join(sorted(checksums.values())))] *)
Definition files_checksum_of (E : Env) (checksums : list (path * string)) : string :=
  hash_str E (PyStr.join "" (merge_sort String.le (checksums.*2))).

Definition Hierarchy_is_complete (E : Env) (graph : Graph) (db : store)
    : pyres (bool * store) :=
  cwd ← getitem (g_attrs graph) "cwd";
  _ ← as_str cwd;
  let '(checksums, db) := get_active_checksums E false db in
  let files_checksum := files_checksum_of E checksums in
  Ret (bool_decide (g_attrs graph !! "files_checksum" = Some (PStr files_checksum)), db).

(** Lines 78-82 *)
Equations? link_to_cwd (_path : path) (edges_to_add : gset (string * string))
    : gset (string * string) by wf (length _path) lt :=
link_to_cwd _path edges_to_add :=
  match decide (1 < length _path)%nat with
  | left _ =>
      let _parent := path_str (path_parent _path) in
      let edges_to_add := edges_to_add ∪ {[ (_parent, path_str _path) ]} in
      if bool_decide (_parent ≠ "ROOT") then link_to_cwd (path_parent _path) edges_to_add
      else edges_to_add
  | right _ =>
      (* _parent = "ROOT" *)
      edges_to_add ∪ {[ ("ROOT", path_str _path) ]}
  end.
Proof.
  unfold path_parent. destruct _path as [|part parts _] using rev_ind; simpl in *; [lia|].
  rewrite removelast_last, length_app. simpl. lia.
Qed.

(** Lines 70-84: one round of the loop over [checksums.items()]. *)
Definition add_file_node (db : store) (st : Graph * gset (string * string))
    (item : path * string) : pyres (Graph * gset (string * string)) :=
  let '(graph, edges_to_add) := st in
  let '(p, checksum) := item in
  let node_id := path_str p in
  record ← list_getitem (db_metadatas db checksum) 0;
  Ret (add_node graph node_id record, link_to_cwd p edges_to_add).

(** Lines 87-93: one round of the loop over [edges_to_add]. *)
Definition add_directory (graph : Graph) (node_id : string) : Graph :=
  if bool_decide (is_Some (g_nodes graph !! node_id)) then graph
  else add_node graph node_id
         {[ "id" := PStr node_id; "type" := PStr "directory"; "path" := PStr node_id ]}.

Definition add_hierarchy_edge (graph : Graph) (e : string * string) : Graph :=
  let '(source, target) := e in
  add_edge (add_directory (add_directory graph source) target) source target "hierarchy".

Definition Hierarchy_annotate (E : Env) (old_graph : Graph) (refresh : bool) (db : store)
    : pyres (Graph * store) :=
  cwd ← getitem (g_attrs old_graph) "cwd";
  cwd ← as_str cwd;
  let '(checksums, db) := get_active_checksums E refresh db in
  let files_checksum := files_checksum_of E checksums in
  let graph := set_attr empty_graph "cwd" (PStr (path_norm E cwd)) in
  '(graph, edges_to_add) ← foldlM (add_file_node db) (graph, ∅) checksums;
  (* Add directory nodes with checksums *)
  let graph := foldl add_hierarchy_edge graph (elements edges_to_add) in
  Ret (set_attr graph "files_checksum" (PStr files_checksum), db).

(** ** chunker.py: loading the chunks into the graph *)

(** Lines 145-155. [_id.split(":")] must give exactly two pieces for the
    unpacking to succeed. *)
Equations? link_to_base_chunk (base_id _id : string) (edges_to_add : gset (string * string))
    : pyres (gset (string * string)) by wf (String.length _id) lt :=
link_to_base_chunk base_id _id edges_to_add with inspect (PyStr.split ":" _id) := {
  | exist _ [path_str; chunk_str] Hsplit with inspect (PyStr.split "." chunk_str) := {
    | exist _ chunk_list Hlist with decide (1 < length chunk_list)%nat := {
      | left Hlen =>
          let _parent := path_str +:+ ":" +:+ PyStr.join "." (removelast chunk_list) in
          let edges_to_add := edges_to_add ∪ {[ (_parent, _id) ]} in
          if bool_decide (_parent ≠ base_id)
          then link_to_base_chunk base_id _parent edges_to_add
          else Ret edges_to_add
      | right _ =>
          (* _parent = base_id *)
          Ret (edges_to_add ∪ {[ (base_id, _id) ]}) } }
  | exist _ _ _ => Raise ValueError }.
Proof.
  assert (Hjoin : ∀ c s, String.length (PyStr.join (String c "") (PyStr.split c s))
                         = String.length s).
  { intros c s. induction s as [|a s IH]; simpl; [done|].
    destruct (PyStr.split c s) as [|h t] eqn:Hs.
    { destruct s; simpl in Hs; [done|]. repeat case_match; done. }
    case_decide; simpl in *.
    - rewrite <-IH. done.
    - rewrite <-IH. destruct t; simpl; done. }
  assert (Hcat : ∀ a b, String.length (a +:+ b) = (String.length a + String.length b)%nat).
  { intros a b. induction a as [|ch a IH]; simpl; [done|]. by rewrite IH. }
  assert (Hlast : ∀ c (l : list string), (1 < length l)%nat →
            (String.length (PyStr.join (String c "") (removelast l))
             < String.length (PyStr.join (String c "") l))%nat).
  { intros c l. induction l as [|x [|y l] IH]; simpl; intros; [lia..|].
    destruct l as [|z l].
    - simpl. rewrite !Hcat. simpl. lia.
    - specialize (IH ltac:(simpl; lia)). simpl in *. rewrite !Hcat in *. simpl in *. lia. }
  pose proof (Hjoin ":"%char _id) as H1. rewrite Hsplit in H1. simpl in H1.
  pose proof (Hjoin "."%char chunk_str) as H2.
  specialize (Hlast "."%char (PyStr.split "." chunk_str) Hlen).
  subst _parent. rewrite <-H1, !Hcat. simpl. lia.
Qed.

(** Lines 117-140: the [try] block for one chunk. [None] when an exception
    was caught (the loop goes on with the next chunk); else the record and
    what is appended to [add_to_db]. *)
Definition chunk_record (E : Env) (refresh : bool) (db : store) (chunk : descr)
    : option (pydict * list (string * record)) :=
  let id := d_id chunk in
  let ref := d_ref chunk in
  match get_document E ref with
  | Raise _ => None
  | Ret document =>
      let checksum := hash_str E document in
      match db_metadatas db checksum with
      | record :: _ =>
          if negb refresh then Some (record, [])
          else
            let record : pydict :=
              {[ "id" := PStr id; "type" := PStr "chunk"; "ref" := PStr ref;
                 "checksum" := PStr checksum; "active" := PBool false ]} in
            Some (record, [(checksum, Record_ document record)])
      | [] =>
          let record : pydict :=
            {[ "id" := PStr id; "type" := PStr "chunk"; "ref" := PStr ref;
               "checksum" := PStr checksum; "active" := PBool false ]} in
          Some (record, [(checksum, Record_ document record)])
      end
  end.

(** Lines 116-157: one round of the loop over [chunks]. A node id is a
    str; [record["id"]] is one in every record this code writes. *)
Definition add_chunk (E : Env) (refresh : bool) (db : store) (base_id : string)
    (st : Graph * gset (string * string) * list (string * record)) (chunk : descr)
    : pyres (Graph * gset (string * string) * list (string * record)) :=
  let '(graph, edges_to_add, add_to_db) := st in
  match chunk_record E refresh db chunk with
  | None => Ret st
  | Some (record, new) =>
      (* Load into graph with edges *)
      rid ← getitem record "id";
      rid ← as_str rid;
      let graph := add_node graph rid record in
      edges_to_add ← link_to_base_chunk base_id (d_id chunk) edges_to_add;
      Ret (graph, edges_to_add, add_to_db ++ new)
  end.

(** Lines 158-159 *)
Definition add_chunk_edge (graph : Graph) (e : string * string) : Graph :=
  add_edge graph e.1 e.2 "hierarchy".

(** [add_file_chunks_to_graph(file, data, graph, refresh)], where [data] is
    the attribute dict of node [file] in [graph]. *)
Definition add_file_chunks_to_graph (E : Env) (file : string) (graph : Graph)
    (refresh : bool) (db : store) : pyres (Graph * list (string * record)) :=
  cwd ← getitem (g_attrs graph) "cwd";
  _ ← as_str cwd;
  data ← match g_nodes graph !! file with Some d => Ret d | None => Raise KeyError end;
  chunks ← getitem data "chunks";
  '(graph, chunks) ←
    match chunks with
    | PList l => Ret (graph, l)
    | PStr s => l ← json_loads E s; Ret (set_node_attr graph file "chunks" (PList l), l)
    | _ => Raise TypeError
    end;
  if negb refresh && bool_decide (chunks = []) then Ret (graph, [])
  else
    let base_id := file +:+ ":BASE" in
    let edges_to_add : gset (string * string) := {[ (file, base_id) ]} in
    '(graph, edges_to_add, add_to_db) ←
      foldlM (add_chunk E refresh db base_id) (graph, edges_to_add, []) chunks;
    Ret (foldl add_chunk_edge graph (elements edges_to_add), add_to_db).

(** ** chunker.py: the [Chunker] stage *)

Definition default_chunk_extensions : list string :=
  [".py"; ".js"; ".java"; ".html"; ".css"; ".sql"; ".php"; ".rb"; ".sh"; ".c";
   ".cpp"; ".h"; ".hpp"; ".cs"; ".go"; ".ts"; ".jsx"; ".tsx"; ".scss"].

(** [data.get("type") == "file"] *)
Definition is_file (data : pydict) : bool :=
  bool_decide (data !! "type" = Some (PStr "file")).

(** [data.get("chunks", None) is None] *)
Definition chunks_is_None (data : pydict) : bool :=
  bool_decide (data !! "chunks" = None ∨ data !! "chunks" = Some PNone).

(** [Path(data["ref"]).suffix in self.chunk_extensions] *)
Definition extension_matches (chunk_extensions : list string) (data : pydict) : pyres bool :=
  ref ← getitem data "ref";
  ref ← as_str ref;
  Ret (bool_decide (path_suffix ref ∈ chunk_extensions)).

(** [Chunker.is_complete]; the nodes are visited in the order of the map. *)
Fixpoint is_complete_nodes (chunk_extensions : option (list string))
    (nodes : list (string * pydict)) : pyres bool :=
  match nodes with
  | [] => Ret true
  | (_, data) :: rest =>
      if is_file data && chunks_is_None data then
        match chunk_extensions with
        | None => Ret false
        | Some exts =>
            m ← extension_matches exts data;
            if m : bool then Ret false else is_complete_nodes chunk_extensions rest
        end
      else is_complete_nodes chunk_extensions rest
  end.

Definition Chunker_is_complete (chunk_extensions : option (list string)) (graph : Graph)
    : pyres bool :=
  is_complete_nodes chunk_extensions (map_to_list (g_nodes graph)).

(** Lines 227-232 *)
Fixpoint filter_extensions (exts : list string) (file_nodes : list (string * pydict))
    : pyres (list (string * pydict)) :=
  match file_nodes with
  | [] => Ret []
  | (file, data) :: rest =>
      m ← extension_matches exts data;
      rest ← filter_extensions exts rest;
      Ret (if m : bool then (file, data) :: rest else rest)
  end.

(** Lines 235-246: the tasks, one after the other; each one writes the
    ["chunks"] of its own node and the store record of its own file. *)
Definition chunk_task (E : Env) (refresh : bool) (st : Graph * store)
    (item : string * pydict) : pyres (Graph * store) :=
  let '(graph, db) := st in
  let '(node, data) := item in
  if refresh || chunks_is_None data then
    '(chunks, db) ← get_file_chunk_data E node data db;
    Ret (set_node_attr graph node "chunks" (PList chunks), db)
  else Ret st.

(** Lines 249-254 *)
Definition load_file_chunks (E : Env) (db : store)
    (st : Graph * list (string * record)) (item : string * pydict)
    : pyres (Graph * list (string * record)) :=
  let '(graph, add_to_db) := st in
  '(graph, _add_to_db) ← add_file_chunks_to_graph E item.1 graph false db;
  Ret (graph, add_to_db ++ _add_to_db).

Definition Chunker_annotate (E : Env) (chunk_extensions : option (list string))
    (graph : Graph) (refresh : bool) (db : store) : pyres (Graph * store) :=
  cwd ← getitem (g_attrs graph) "cwd";
  _ ← as_str cwd;
  let file_nodes := filter (λ nd, is_file nd.2) (map_to_list (g_nodes graph)) in
  file_nodes ← match chunk_extensions with
               | None => Ret file_nodes
               | Some exts => filter_extensions exts file_nodes
               end;
  (* Generate/add chunk data to file nodes *)
  '(graph, db) ← foldlM (chunk_task E refresh) (graph, db) file_nodes;
  (* Load/Create chunk nodes into database and graph *)
  '(graph, add_to_db) ← foldlM (load_file_chunks E db) (graph, []) file_nodes;
  Ret (graph, db_upsert db add_to_db).

(** ** daemon.py: the context message *)

(** One entry of [context]. *)
Record message := {
  m_id : pyval;
  m_lines : gset Z;
  m_tags : gset string;
  m_document : string;
}.

(** One result of [self.search(query)]: the metadata of a store record and
    its document. *)
Record result_node := { n_metadata : pydict; n_document : string }.

(** [d.get(k)] on a dict in insertion order *)
Fixpoint dict_get {K V} `{EqDecision K} (k : K) (d : list (K * V)) : option V :=
  match d with
  | [] => None
  | (k', v) :: d' => if decide (k = k') then Some v else dict_get k d'
  end.

(** [l[i]], a negative index counting from the end. *)
Definition py_index {A} (l : list A) (i : Z) : pyres A :=
  let n := Z.of_nat (length l) in
  if bool_decide (0 ≤ i) then list_getitem l (Z.to_nat i)
  else if bool_decide (- n ≤ i) then list_getitem l (Z.to_nat (n + i))
  else Raise IndexError.

(** Lines 172-176 of [render_context_message]: the loop over
    [sorted(data["lines"])]. *)
Fixpoint render_lines (file_lines : list string) (last_rendered : Z) (lines : list Z)
    (output : string) : pyres string :=
  match lines with
  | [] => Ret output
  | line :: rest =>
      let output := if bool_decide (line - last_rendered > 1) then output +:+ "..." +:+ nl
                    else output in
      text ← py_index file_lines line;
      render_lines file_lines line rest (output +:+ pretty line +:+ ": " +:+ text +:+ nl)
  end.

(** Lines 164-176: one round of the loop over [context.values()]. The tags
    are joined in the order in which the set yields them. *)
Definition render_message (E : Env) (output : string) (item : string * message)
    : pyres string :=
  let data := item.2 in
  let output := if bool_decide (output ≠ "") then output +:+ nl else output in
  let tags := " (" +:+ PyStr.join ", " (elements (m_tags data)) +:+ ")" in
  let output := output +:+ py_format (m_id data) +:+ tags +:+ nl in
  let file_lines := splitlines E (m_document data) in
  render_lines file_lines 0 (merge_sort Z.le (elements (m_lines data))) output.

Definition render_context_message (E : Env) (context : list (string * message))
    : pyres string :=
  foldlM (render_message E) "" context.

(** [path, lines_ref = id, None; if ":" in id: path, lines_ref = id.split(":", 1)] *)
Definition split_ref (id : string) : string * option string :=
  if PyStr.contains ":" id then
    match PyStr.split1 ":" id with
    | [path; lines_ref] => (path, Some lines_ref)
    | _ => (id, None)
    end
  else (id, None).

(** Lines 213-218 (and 246-251): one [_range] of a [lines_ref]. *)
Definition add_range (E : Env) (lines : gset Z) (_range : string) : pyres (gset Z) :=
  if PyStr.contains "-" _range then
    match PyStr.split "-" _range with
    | [start; end_] =>
        start ← py_int E start;
        end_ ← py_int E end_;
        Ret (lines ∪ range_set start (end_ + 1))
    | _ => Raise ValueError
    end
  else
    n ← py_int E _range;
    Ret (lines ∪ {[ n ]}).

(** Lines 211-221 (and 244-254): the lines that a reference adds. *)
Definition add_lines (E : Env) (data : message) (lines_ref : option string) : pyres message :=
  lines ← match lines_ref with
          | Some r =>
              if bool_decide (r ≠ "") then foldlM (add_range E) (m_lines data) (PyStr.split "," r)
              else Ret (m_lines data ∪ range_set 1 (Z.of_nat (length (splitlines E (m_document data)))))
          | None =>
              Ret (m_lines data ∪ range_set 1 (Z.of_nat (length (splitlines E (m_document data)))))
          end;
  Ret {| m_id := m_id data; m_lines := lines; m_tags := m_tags data;
         m_document := m_document data |}.

(** [tags.append(x)] on a [set]: a set has no [append]. *)
Definition set_append (tags : gset string) (x : string) : pyres (gset string) :=
  Raise AttributeError.

(** [tags.add(x)] *)
Definition set_add (tags : gset string) (x : string) : pyres (gset string) :=
  Ret (tags ∪ {[ x ]}).

Definition with_tags (data : message) (tags : gset string) : message :=
  {| m_id := m_id data; m_lines := m_lines data; m_tags := tags;
     m_document := m_document data |}.

(** Lines 194-221: one round of the loop over [include]. *)
Definition include_ref (E : Env) (graph : Graph) (db : store)
    (context : list (string * message)) (id : string) : pyres (list (string * message)) :=
  let '(path, lines_ref) := split_ref id in
  match g_nodes graph !! path with
  | None => Ret context   (* Warning: no matching message found *)
  | Some node =>
      data ← match dict_get path context with
             | Some data => Ret data
             | None =>
                 checksum ← getitem node "checksum";
                 checksum ← as_str checksum;
                 document ← list_getitem (db_documents db checksum) 0;
                 Ret {| m_id := PStr id; m_lines := ∅; m_tags := ∅; m_document := document |}
             end;
      tags ← set_append (m_tags data) "user-included";
      data ← add_lines E (with_tags data tags) lines_ref;
      Ret (dict_set path data context)
  end.

(** Lines 232-254: a search result, the [i]-th counting from 0, is merged
    into [context]. *)
Definition merge_result (E : Env) (context : list (string * message)) (i : Z)
    (node : result_node) : pyres (list (string * message)) :=
  path ← getitem (n_metadata node) "path";
  path ← as_str path;
  let '(path, lines_ref) := split_ref path in
  data ← match dict_get path context with
         | Some data => Ret data
         | None =>
             id ← getitem (n_metadata node) "id";
             Ret {| m_id := id; m_lines := ∅; m_tags := ∅; m_document := n_document node |}
         end;
  tags ← set_add (m_tags data) ("no-" +:+ pretty (i + 1) +:+ "-search-result");
  data ← add_lines E (with_tags data tags) lines_ref;
  Ret (dict_set path data context).

(** Lines 231-261: the loop over [enumerate(results)]. *)
Fixpoint search_loop (E : Env) (include_tokens auto_tokens : Z)
    (context : list (string * message)) (full_context_message : string)
    (i : Z) (results : list result_node) : pyres string :=
  match results with
  | [] => Ret full_context_message
  | node :: rest =>
      context ← merge_result E context i node;
      next_context_message ← render_context_message E context;
      let next_tokens := token_counter E next_context_message in
      if bool_decide (next_tokens - include_tokens > auto_tokens)
      then Ret full_context_message
      else search_loop E include_tokens auto_tokens context next_context_message (i + 1) rest
  end.

(** Lines 223-261: from the context of the included references on.
    [results] is what [self.search(query)] returns. *)
Definition assemble (E : Env) (context : list (string * message))
    (max_tokens auto_tokens : Z) (results : list result_node) : pyres string :=
  include_context_message ← render_context_message E context;
  let include_tokens := token_counter E include_context_message in
  if bool_decide (include_tokens >= max_tokens) then Ret include_context_message
  else
    let auto_tokens := Z.min auto_tokens (max_tokens - include_tokens) in
    search_loop E include_tokens auto_tokens context include_context_message 0 results.

Definition get_context_message (E : Env) (graph : Graph) (db : store)
    (results : list result_node) (include : list string) (max_tokens auto_tokens : Z)
    : pyres string :=
  context ← foldlM (include_ref E graph db) [] include;
  assemble E context max_tokens auto_tokens results.

(** ** database.py: [query_graph]

    The chroma collection is reached through [get], [update] and [query];
    what they answer for lists of ids and for a query text is chroma's, so
    they are parameters here. A distance is a float: any type [distance]
    with the comparison [<] of its values. *)

Record Chroma (distance : Type) := {
  (* < on distances *)
  dist_lt : distance → distance → bool;
  (* get_db(cwd).get(ids)["metadatas"] *)
  chroma_get : store → list pyval → pyres (list pydict);
  (* get_db(cwd).update(ids=ids, metadatas=metadatas) *)
  chroma_update : store → list pyval → list pydict → pyres store;
  (* get_db(cwd).query(query_texts=query, where={"active": True}, n_results=n):
     response["metadatas"][0], response["documents"][0], response["distances"][0] *)
  chroma_query : store → string → nat → pyres (list pydict * list string * list distance);
}.
Arguments dist_lt {distance} _ _ _.
Arguments chroma_get {distance} _ _ _.
Arguments chroma_update {distance} _ _ _ _.
Arguments chroma_query {distance} _ _ _ _.

(** One entry of [results]: [{**data, "document": document, "distance":
    distance}]. *)
Record search_result (distance : Type) := {
  s_data : pydict;
  s_document : string;
  s_distance : distance;
}.
Arguments s_data {distance} _.
Arguments s_document {distance} _.
Arguments s_distance {distance} _.

(** [sorted(l, key=key)]: a stable sort that compares keys with [<]. An
    element goes before the first one whose key is not below its own. *)
Fixpoint sorted_insert {A K} (lt : K → K → bool) (key : A → K) (x : A) (l : list A) : list A :=
  match l with
  | [] => [x]
  | y :: l' => if lt (key y) (key x) then y :: sorted_insert lt key x l' else x :: y :: l'
  end.

Definition py_sorted {A K} (lt : K → K → bool) (key : A → K) (l : list A) : list A :=
  foldr (sorted_insert lt key) [] l.

(** [l[:n]] *)
Definition slice_to {A} (l : list A) (n : Z) : list A :=
  if bool_decide (0 ≤ n) then take (Z.to_nat n) l
  else take (Z.to_nat (Z.of_nat (length l) + n)) l.

(** [zip(metadatas, documents, distances)] into the result dicts (lines
    57-62). *)
Fixpoint zip_results {distance} (metadatas : list pydict) (documents : list string)
    (distances : list distance) : list (search_result distance) :=
  match metadatas, documents, distances with
  | data :: metadatas, document :: documents, d :: distances =>
      {| s_data := data; s_document := document; s_distance := d |}
      :: zip_results metadatas documents distances
  | _, _, _ => []
  end.

(** [[m["checksum"] for m in metadatas]] *)
Definition checksums_of (metadatas : list pydict) : pyres (list pyval) :=
  mapM (λ m, getitem m "checksum") metadatas.

(** [[{**data, "active": b} for data in metadatas]] *)
Definition set_active (b : bool) (metadatas : list pydict) : list pydict :=
  (λ data, <["active" := PBool b]> data) <$> metadatas.

Definition query_graph {distance} (C : Chroma distance) (query : string) (graph : Graph)
    (n : option Z) (db : store) : pyres (list (search_result distance) * store) :=
  cwd ← getitem (g_attrs graph) "cwd";
  metadatas ← chroma_get C db (omap (λ nd, nd.2 !! "checksum") (map_to_list (g_nodes graph)));
  let metadatas := set_active true metadatas in
  if bool_decide (length metadatas = 0%nat) then Ret ([], db)
  else
    ids ← checksums_of metadatas;
    db ← chroma_update C db ids metadatas;
    '(r_metadatas, r_documents, r_distances) ← chroma_query C db query (length metadatas);
    let metadatas := set_active false metadatas in
    ids ← checksums_of metadatas;
    db ← chroma_update C db ids metadatas;
    let results := zip_results r_metadatas r_documents r_distances in
    let results := py_sorted (dist_lt C) s_distance results in
    let results :=
      match n with
      | Some n => if bool_decide (n ≠ 0) then slice_to results n else results
      | None => results
      end in
    Ret (results, db).

(** ** cerebrus.py: [parse_script]

    The [str] methods on a separator of several characters, and [strip].
    A character of a string is a code point below 256. *)

Module PySub.

(** What follows [prefix] in [s], when [s] starts with it. *)
Fixpoint after_prefix (prefix s : string) : option string :=
  match prefix with
  | EmptyString => Some s
  | String a prefix' =>
      match s with
      | String b s' => if decide (a = b) then after_prefix prefix' s' else None
      | EmptyString => None
      end
  end.

(** [s.startswith(prefix)] *)
Definition startswith (prefix s : string) : bool :=
  bool_decide (is_Some (after_prefix prefix s)).

(** [s.split(sep)], from the left, an occurrence starting where the one
    before it ends. Python raises [ValueError] for an empty separator; the
    code passes a literal that is not empty. *)
Equations? split (sep s : string) : list string by wf (String.length s) lt :=
split sep EmptyString := [EmptyString];
split sep (String a r) with inspect (after_prefix sep (String a r)) := {
  | exist _ (Some rest) Hrest with decide (sep = EmptyString) := {
    | left _ => [String a r]
    | right _ => EmptyString :: split sep rest };
  | exist _ None _ =>
      match split sep r with
      | h :: t => String a h :: t
      | [] => [String a EmptyString]
      end }.
Proof.
  assert (Hlen : ∀ (p s rest : string),
            after_prefix p s = Some rest →
            String.length s = (String.length p + String.length rest)%nat).
  { clear. induction p as [|a p IH]; intros s rest; simpl.
    - by intros [= ->].
    - destruct s as [|b s]; [done|]. case_decide; [|done].
      intros Hp. apply IH in Hp. simpl. by rewrite Hp. }
  apply Hlen in Hrest. destruct sep; [done|]. simpl in *. lia.
Qed.

(** [s.count(sep)]: the occurrences that [split] cuts at. *)
Definition count (sep s : string) : nat := Nat.pred (length (split sep s)).

End PySub.

(** [c.isspace()] for a code point below 256. *)
Definition is_space (c : ascii) : bool :=
  let n := nat_of_ascii c in
  bool_decide ((9 ≤ n ≤ 13)%nat ∨ (28 ≤ n ≤ 32)%nat ∨ n = 133%nat ∨ n = 160%nat).

(** [s.lstrip()], [s.rstrip()] and [s.strip()] *)
Fixpoint lstrip (s : string) : string :=
  match s with
  | EmptyString => EmptyString
  | String a r => if is_space a then lstrip r else s
  end.

Fixpoint rstrip (s : string) : string :=
  match s with
  | EmptyString => EmptyString
  | String a r =>
      match rstrip r with
      | EmptyString => if is_space a then EmptyString else String a EmptyString
      | r' => String a r'
      end
  end.

Definition strip (s : string) : string := rstrip (lstrip s).

(** What [ast.parse(script)] does: it returns, or raises [SyntaxError] (or
    a subclass of it), or raises another exception, [msg] being its
    [str]. *)
Inductive ast_outcome :=
  | AstOk
  | AstSyntaxError
  | AstError (msg : string).

(** What [parse_script] raises: the [SyntaxError] of line 115 with its
    message, or what [ast.parse] raised besides. *)
Inductive script_error :=
  | SyntaxError (msg : string)
  | OtherError (msg : string).

Inductive parsed :=
  | Parsed (message script : string)
  | ParseRaise (e : script_error).

(** The delimiter of a script in a response. *)
Definition fence : string := "```".

(** Lines 110-111: a first line that starts with ["python"] is left out. *)
Definition drop_python_line (script : string) : string :=
  if PySub.startswith "python" (default "" (head (PyStr.split "010" script)))
  then PyStr.join nl (tail (PyStr.split "010" script))
  else script.

Definition parse_script (ast_parse : string → ast_outcome) (response : string) : parsed :=
  (* Parse delimiter *)
  let n_delimiters := PySub.count fence response in
  if bool_decide (n_delimiters < 2)%nat then Parsed response ""
  else
    let segments := PySub.split fence response in
    let message := default "" (head segments) +:+ nl +:+ List.last segments "" in
    let script := strip (PyStr.join fence (removelast (tail segments))) in
    (* Check for common mistakes *)
    let script := drop_python_line script in
    match ast_parse script with
    | AstOk => Parsed message script
    | AstSyntaxError =>
        ParseRaise (SyntaxError ("Script contains invalid Python:" +:+ nl +:+ response))
    | AstError msg => ParseRaise (OtherError msg)
    end.

(** ** cerebrus.py: [Printer] and [cerebrus] *)

Record Printer := { printed : string; answered : string }.

(** [" ".join(str(a) for a in args) + "\n"] *)
Definition line_of (args : list string) : string := PyStr.join " " args +:+ nl.

Definition Printer_print (printer : Printer) (args : list string) : Printer :=
  {| printed := printed printer +:+ line_of args; answered := answered printer |}.

Definition Printer_answer (printer : Printer) (args : list string) : Printer :=
  {| printed := printed printer; answered := answered printer +:+ line_of args |}.

(** What a script does when it is run by [exec] with [print], [answer] and
    [graph] for globals: the calls of [print] and of [answer] that it
    makes, in order, and how it ends. *)
Inductive call :=
  | CallPrint (args : list string)
  | CallAnswer (args : list string).

Inductive ending :=
  | Finished
  (* an [Exception], [msg] being its [str] *)
  | RaisedException (msg : string)
  (* [KeyboardInterrupt], or another exception that is not an [Exception] *)
  | RaisedOther.

Definition run_call (printer : Printer) (c : call) : Printer :=
  match c with
  | CallPrint args => Printer_print printer args
  | CallAnswer args => Printer_answer printer args
  end.

(** The language model, [ast.parse] and [exec] are parameters. [llm query
    messages] is the text of the response to the system prompt, the query
    and the messages added since. *)
Record Agent := {
  llm : string → list string → pyres string;
  ast_parse : string → ast_outcome;
  exec_script : string → list call * ending;
}.

Inductive cerebrus_result :=
  | Returned (answer : string)
  (* [get_response] raised *)
  | ResponseRaised (e : exn)
  (* [exec] raised an exception that is not an [Exception] *)
  | ScriptRaised.

(** How the [try] block of one iteration ends (lines 144-157). *)
Inductive attempt :=
  | Break (answer : string)
  | Reraise
  | Go (script : string) (printer : Printer).

Definition try_script (A : Agent) (response : string) (printer : Printer) (answer : string)
    : attempt :=
  match parse_script (ast_parse A) response with
  | Parsed message script =>
      if bool_decide (script = "") then
        Break (if bool_decide (message ≠ "") then message else answer)
      else
        let '(calls, ending) := exec_script A script in
        let printer := foldl run_call printer calls in
        match ending with
        | Finished => Go script printer
        | RaisedException msg => Go script (Printer_print printer ["Error: " +:+ msg])
        | RaisedOther => Reraise
        end
  | ParseRaise (SyntaxError msg) => Go "" (Printer_print printer ["Error: " +:+ msg])
  | ParseRaise (OtherError msg) => Go "" (Printer_print printer ["Error: " +:+ msg])
  end.

(** [80*'-'] *)
Definition dashes : string := PyStr.join "" (replicate 80 "-").

(** Lines 141-166: the iterations that are left of the loop. *)
Fixpoint cerebrus_loop (A : Agent) (query : string) (iterations : nat)
    (messages : list string) (printer : Printer) (answer : string) : cerebrus_result :=
  match iterations with
  | O => Returned answer
  | S iterations =>
      match llm A query messages with
      | Raise e => ResponseRaised e
      | Ret response =>
          match try_script A response printer answer with
          | Break answer => Returned answer
          | Reraise => ScriptRaised
          | Go script printer =>
              if bool_decide (printed printer = "") then
                Returned (if bool_decide (answered printer ≠ "") then answered printer
                          else answer)
              else
                let next_message :=
                  "Script: " +:+ script +:+ nl +:+ dashes +:+ nl
                  +:+ "Output: " +:+ printed printer in
                cerebrus_loop A query iterations (messages ++ [next_message])
                  {| printed := ""; answered := answered printer |} answer
          end
      end
  end.

Definition cerebrus (A : Agent) (query : string) : cerebrus_result :=
  let max_iterations := 10%nat in
  cerebrus_loop A query max_iterations [] {| printed := ""; answered := "" |} "".

(** ** Notions of the properties *)

(** A chunk as the detector must return it: exactly the three keys, and an
    id with exactly one ":" between a path and a chunk path that is not
    empty. *)
Definition well_formed_chunk (chunk : pydict) : Prop :=
  dom chunk = chunk_keys ∧
  ∃ path seg, chunk !! "id" = Some (PStr (path +:+ ":" +:+ seg))
              ∧ PyStr.count ":" path = 0%nat ∧ PyStr.count ":" seg = 0%nat ∧ seg ≠ "".

(** The lines [start_line..end_line] of a detector chunk, and of all of
    them. *)
Definition chunk_range (chunk : pydict) : pyres (Z * Z) :=
  s ← getitem chunk "start_line";
  e ← getitem chunk "end_line";
  start_line ← as_int s;
  end_line ← as_int e;
  Ret (start_line, end_line).

Definition chunk_lines (chunk : pydict) : gset Z :=
  match chunk_range chunk with
  | Ret (start_line, end_line) => range_set start_line (end_line + 1)
  | Raise _ => ∅
  end.

Definition author_lines (chunks : list pydict) : gset Z := ⋃ (chunk_lines <$> chunks).

(** The lines that an entry of [base_chunk_refs] stands for. *)
Definition run_lines (r : run) : gset Z :=
  match r with
  | Single start => {[ start ]}
  | Span start end_ => range_set start (end_ + 1)
  end.

Definition runs_lines (runs : list run) : gset Z := ⋃ (run_lines <$> runs).

(** Both line numbers are ints. *)
Definition int_lines (chunk : pydict) : Prop :=
  ∃ s e, chunk !! "start_line" = Some (PInt s) ∧ chunk !! "end_line" = Some (PInt e).

(** The context after the results [results], numbered from [i], have been merged. *)
Fixpoint merge_results (E : Env) (context : list (string * message)) (i : Z)
    (results : list result_node) : pyres (list (string * message)) :=
  match results with
  | [] => Ret context
  | node :: rest =>
      context ← merge_result E context i node;
      merge_results E context (i + 1) rest
  end.

(** The checksum of a tracked path whose document can be read. *)
Definition path_checksum (E : Env) (p : path) : option string :=
  match get_document E (path_str p) with
  | Ret document => Some (hash_str E document)
  | Raise _ => None
  end.

(** The checksums of all tracked files, each tracked path counted once. *)
Definition tracked_checksums (E : Env) : list string :=
  omap (path_checksum E) (remove_dups (git_paths E)).

(** The [checksums] dict after the loop over the paths, from [checksums]. *)
Definition scan_checksums (E : Env) (checksums : list (path * string)) (paths : list path)
    : list (path * string) :=
  foldl (λ cs p, match path_checksum E p with Some c => dict_set p c cs | None => cs end)
        checksums paths.

(** The file of ref [ref] is one that the stage chunks. *)
Definition extension_selected (chunk_extensions : option (list string)) (ref : string) : Prop :=
  match chunk_extensions with
  | None => True
  | Some exts => path_suffix ref ∈ exts
  end.

(** Every file node has a ["ref"], and those that the stage chunks have
    the empty list of chunks. *)
Definition no_chunks_anywhere (chunk_extensions : option (list string)) (graph : Graph) : Prop :=
  ∀ file data,
    g_nodes graph !! file = Some data → is_file data = true →
    ∃ ref, data !! "ref" = Some (PStr ref)
           ∧ (extension_selected chunk_extensions ref → data !! "chunks" = Some (PList [])).

(** The list of chunks that [add_file_chunks_to_graph] reads from the
    ["chunks"] of the file node (lines 108-110). *)
Definition node_chunks (E : Env) (graph : Graph) (file : string) : pyres (list descr) :=
  data ← match g_nodes graph !! file with Some d => Ret d | None => Raise KeyError end;
  chunks ← getitem data "chunks";
  match chunks with
  | PList l => Ret l
  | PStr s => json_loads E s
  | _ => Raise TypeError
  end.

(** What [edges_to_add] holds in [add_file_chunks_to_graph]: the edge from
    the file to BASE, and edges that leave BASE or a chunk. *)
Definition chunk_edges (file : string) (edges : gset (string * string)) : Prop :=
  (file, file +:+ ":BASE") ∈ edges
  ∧ ∀ u v, (u, v) ∈ edges →
           (u, v) = (file, file +:+ ":BASE") ∨ u = file +:+ ":BASE" ∨ PyStr.count ":" u ≠ 0%nat.

(** A tracked path as [pathlib] holds it: at least one part, and no "/"
    within a part. *)
Definition wf_path (p : path) : Prop :=
  p ≠ [] ∧ Forall (λ part, PyStr.count "/" part = 0%nat) p.

(** The [_parent] of [_link_to_cwd(_path)]. *)
Definition parent_str (p : path) : string :=
  if bool_decide (1 < length p)%nat then path_str (path_parent p) else "ROOT".

(** An edge of the set, as a relation between node ids. *)
Definition linked (edges : gset (string * string)) (u v : string) : Prop :=
  (u, v) ∈ edges.

(** ** The BASE ref as the spec words it (4.3, step 3)

    The uncovered lines are grouped into maximal runs of consecutive
    numbers; a run of one line is written ["n"], a longer one
    ["start-end"]. *)

(** The run [start..end_] put before the runs of the numbers that follow:
    it absorbs the first of them when that one starts at [end_ + 1]. *)
Definition spec_extend (r : Z * Z) (runs : list (Z * Z)) : list (Z * Z) :=
  match runs with
  | (s, e) :: rest => if bool_decide (s = r.2 + 1) then (r.1, e) :: rest else r :: runs
  | [] => [r]
  end.

Fixpoint spec_runs (sorted : list Z) : list (Z * Z) :=
  match sorted with
  | [] => []
  | x :: rest => spec_extend (x, x) (spec_runs rest)
  end.

Definition spec_format_run (r : Z * Z) : string :=
  if bool_decide (r.1 = r.2) then pretty r.1 else pretty r.1 +:+ "-" +:+ pretty r.2.

(** How the spec writes a run, as an entry of [base_chunk_refs]. *)
Definition spec_run (r : Z * Z) : run :=
  if bool_decide (r.1 = r.2) then Single r.1 else Span r.1 r.2.

Definition spec_base_ref (node : string) (n : Z) (chunks : list pydict) : string :=
  let uncovered := range_set 1 (n + 1) ∖ author_lines chunks in
  let runs := spec_runs (merge_sort Z.le (elements uncovered)) in
  if bool_decide (runs = []) then node
  else node +:+ ":" +:+ PyStr.join "," (spec_format_run <$> runs).

(** ** A small repository for the examples

    Two tracked files: [f.py] of three lines, in which the detector finds
    one chunk, and the empty [e.py]. The store already holds a record of each,
    with the ["ref"] that [Chunker] reads. *)

Fixpoint digits_value (acc : Z) (s : string) : option Z :=
  match s with
  | EmptyString => Some acc
  | String c r =>
      let n := Z.of_nat (nat_of_ascii c) in
      if bool_decide (48 ≤ n ≤ 57) then digits_value (10 * acc + (n - 48)) r else None
  end.

Definition ex_int (s : string) : pyres Z :=
  match s with
  | EmptyString => Raise ValueError
  | _ => match digits_value 0 s with Some z => Ret z | None => Raise ValueError end
  end.

Definition ex_fetch {A} (table : list (string * A)) (key : string) : pyres A :=
  match dict_get key table with Some v => Ret v | None => Raise ExternalError end.

Definition ex_env (paths : list path) (documents : list (string * string))
    (files : list (string * list string)) (detector : string → list pydict) : Env :=
  {| hash_str := λ s, "#" +:+ s;
     git_paths := paths;
     get_document := ex_fetch documents;
     read_lines := ex_fetch files;
     chunk_function := λ node _, Ret (detector node);
     json_dumps := λ _, "[...]";
     json_loads := λ _, Raise JSONDecodeError;
     token_counter := λ s, Z.of_nat (String.length s);
     path_norm := λ s, s;
     splitlines := PyStr.split "010";
     py_int := ex_int |}.

Definition ex_chunk (id : string) (start_line end_line : Z) : pydict :=
  {[ "id" := PStr id; "start_line" := PInt start_line; "end_line" := PInt end_line ]}.

Definition ex_f_document : string := "f.py" +:+ nl +:+ "a" +:+ nl +:+ "b" +:+ nl +:+ "c".
Definition ex_e_document : string := "e.py".

Definition ex_documents : list (string * string) :=
  [("f.py", ex_f_document);
   ("e.py", ex_e_document);
   ("f.py:1-2", "f.py:1-2" +:+ nl +:+ "a" +:+ nl +:+ "b");
   ("f.py:3-3", "f.py:3-3" +:+ nl +:+ "c")].

Definition ex_files : list (string * list string) :=
  [("f.py", ["a"; "b"; "c"]); ("e.py", [])].

Definition ex_detector (node : string) : list pydict := [ex_chunk (node +:+ ":foo") 1 2].

Definition ex_repo : Env := ex_env [["f.py"]; ["e.py"]] ex_documents ex_files ex_detector.

Definition ex_file_record (file document : string) : record :=
  Record_ document
    {[ "id" := PStr file; "type" := PStr "file"; "ref" := PStr file;
       "checksum" := PStr ("#" +:+ document); "active" := PBool false ]}.

Definition ex_db : store :=
  {[ "#" +:+ ex_f_document := ex_file_record "f.py" ex_f_document;
     "#" +:+ ex_e_document := ex_file_record "e.py" ex_e_document ]}.

Definition ex_graph0 : Graph := set_attr empty_graph "cwd" (PStr "/repo").

(** [Hierarchy] then [Chunker] on the empty graph, as [refresh] runs them. *)
Definition ex_refresh : pyres (Graph * store) :=
  '(graph, db) ← Hierarchy_annotate ex_repo ex_graph0 false ex_db;
  Chunker_annotate ex_repo (Some default_chunk_extensions) graph false db.

Definition ex_graph : Graph :=
  match ex_refresh with Ret (graph, _) => graph | Raise _ => empty_graph end.
Definition ex_store : store :=
  match ex_refresh with Ret (_, db) => db | Raise _ => ∅ end.

Definition ex_exts : option (list string) := Some default_chunk_extensions.

(** A detector that returns the chunk of the spec's scenario, with an
    empty chunk path. *)
Definition ex_bad_repo : Env :=
  ex_env [["file"]] [] [("file", ["a"; "b"])] (λ node, [ex_chunk "file:" 1 2]).

(** The attributes of the file node [f.py] before it is decomposed, and
    what [get_file_chunk_data] makes of the file. *)
Definition ex_f_data : pydict := r_metadata (ex_file_record "f.py" ex_f_document).

Definition ex_f_chunks : list descr :=
  [Descr "f.py:foo" "f.py:1-2"; Descr "f.py:BASE" "f.py:3-3"].

Definition ex_f_store : store :=
  match get_file_chunk_data ex_repo "f.py" ex_f_data ex_db with
  | Ret (_, db) => db
  | Raise _ => ∅
  end.

(** Three search results, each a whole file of one line, for a budget that
    the third one exceeds. *)
Definition ex_result (file : string) : result_node :=
  {| n_metadata := {[ "id" := PStr file; "path" := PStr file ]};
     n_document := file +:+ nl +:+ "xx" |}.

Definition ex_results : list result_node :=
  [ex_result "a.py"; ex_result "b.py"; ex_result "c.py"].

Definition ex_message : string :=
  "a.py (no-1-search-result)" +:+ nl +:+ "1: xx" +:+ nl +:+ nl +:+
  "b.py (no-2-search-result)" +:+ nl +:+ "1: xx" +:+ nl.

(** The graph that [Hierarchy] builds of the example repository, and a
    graph whose one file has been decomposed into no chunk. *)
Definition ex_hierarchy_graph : Graph :=
  match Hierarchy_annotate ex_repo ex_graph0 false ex_db with
  | Ret (graph, _) => graph
  | Raise _ => empty_graph
  end.

Definition ex_hierarchy_store : store :=
  match Hierarchy_annotate ex_repo ex_graph0 false ex_db with
  | Ret (_, db) => db
  | Raise _ => ∅
  end.

Definition ex_empty_file_graph : Graph :=
  add_node ex_graph0 "e.py"
    {[ "id" := PStr "e.py"; "type" := PStr "file"; "ref" := PStr "e.py";
       "chunks" := PList [] ]}.

(** The graph of the example repository when the chunks of [f.py] have
    been detected and are to be loaded, and after that. *)
Definition ex_chunked_graph : Graph :=
  set_node_attr ex_hierarchy_graph "f.py" "chunks" (PList ex_f_chunks).

Definition ex_loaded_graph : Graph :=
  match add_file_chunks_to_graph ex_repo "f.py" ex_chunked_graph false ex_db with
  | Ret (graph, _) => graph
  | Raise _ => empty_graph
  end.

Definition ex_loaded_batch : list (string * record) :=
  match add_file_chunks_to_graph ex_repo "f.py" ex_chunked_graph false ex_db with
  | Ret (_, add_to_db) => add_to_db
  | Raise _ => []
  end.

(** ** Notions of the further properties *)

(** The first and the last line of an entry of [base_chunk_refs]. *)
Definition run_start (r : run) : Z :=
  match r with Single start => start | Span start _ => start end.
Definition run_end (r : run) : Z :=
  match r with Single start => start | Span _ end_ => end_ end.

(** [r'] starts after a gap of at least one line behind [r]. *)
Definition run_before (r r' : run) : Prop := run_end r + 1 < run_start r'.

(** A run as the loop writes it (lines 71-74): ["n"] for one line, and
    ["start-end"] for more than one. *)
Definition proper_run (r : run) : Prop :=
  match r with Single _ => True | Span start end_ => start < end_ end.

(** The message that the search loop makes of a first result for a path
    (lines 139-146 of daemon.py), with the lines [lines]. *)
Definition result_message (i : Z) (id : pyval) (lines : gset Z) (document : string) : message :=
  {| m_id := id; m_lines := lines;
     m_tags := {[ "no-" +:+ pretty (i + 1) +:+ "-search-result" ]};
     m_document := document |}.

(** A run whose ends [int] reads back. *)
Definition readable_run (E : Env) (r : run) : Prop :=
  0 ≤ run_start r ∧ 0 ≤ run_end r
  ∧ py_int E (pretty (run_start r)) = Ret (run_start r)
  ∧ py_int E (pretty (run_end r)) = Ret (run_end r).

(** The metadata that [get_active_checksums] writes for a tracked path
    (lines 29-35 of hierarchy.py). *)
Definition file_metadata (p : path) (checksum : string) : pydict :=
  {[ "id" := PStr (path_str p); "type" := PStr "file";
     "path" := PStr (path_str p); "checksum" := PStr checksum;
     "active" := PBool false ]}.

(** A store in which every record is one of a file, as [Hierarchy] writes
    them: with no ["ref"], and no ["chunks"] yet. *)
Definition hierarchy_records (db : store) : Prop :=
  ∀ c r, db !! c = Some r →
         r_metadata r !! "type" = Some (PStr "file")
         ∧ r_metadata r !! "ref" = None ∧ r_metadata r !! "chunks" = None.

(** An entry that the loop over the tracked paths appends to [add_to_db]. *)
Definition scanned (E : Env) (refresh : bool) (db : store) (e : string * record) : Prop :=
  ∃ p, p ∈ git_paths E
       ∧ get_document E (path_str p) = Ret (r_document e.2)
       ∧ e.1 = hash_str E (r_document e.2)
       ∧ r_metadata e.2 = file_metadata p e.1
       ∧ (refresh = false → db !! e.1 = None).

(** The attributes of a node that has no ["ref"] and no ["chunks"]. *)
Definition bare_node (data : pydict) : Prop :=
  data !! "ref" = None ∧ data !! "chunks" = None.

Definition bare_nodes (g : Graph) : Prop :=
  ∀ v data, g_nodes g !! v = Some data → bare_node data.

Definition has_file (g : Graph) : Prop :=
  ∃ v data, g_nodes g !! v = Some data ∧ is_file data = true.

(** [line] is an index of the list [file_lines], counted from the start
    or, when negative, from the end. *)
Definition index_in_bounds (file_lines : list string) (line : Z) : Prop :=
  - Z.of_nat (length file_lines) ≤ line < Z.of_nat (length file_lines).

(** Every line of the message is an index of the lines of its document. *)
Definition lines_in_bounds (E : Env) (data : message) : Prop :=
  set_Forall (index_in_bounds (splitlines E (m_document data))) (m_lines data).

(** The lines [texts], numbered from [k], as [render_context_message]
    writes them. *)
Fixpoint numbered_lines (k : Z) (texts : list string) : string :=
  match texts with
  | [] => ""
  | text :: texts => pretty k +:+ ": " +:+ text +:+ nl +:+ numbered_lines (k + 1) texts
  end.

(** [<] is a strict weak order, as it is on floats that are not NaN. *)
Definition strict_weak_order {K} (lt : K → K → bool) : Prop :=
  (∀ a, lt a a = false)
  ∧ (∀ a b c, lt a b = true → lt b c = true → lt a c = true)
  ∧ (∀ a b c, lt a c = true → lt a b = true ∨ lt b c = true).

(** The key of [b] is not below the key of [a]. *)
Definition key_le {A K} (lt : K → K → bool) (key : A → K) (a b : A) : Prop :=
  lt (key b) (key a) = false.

(** [a] is not farther than [b]. *)
Definition not_farther {distance} (C : Chroma distance) (a b : search_result distance) : Prop :=
  key_le (dist_lt C) s_distance a b.

(** Only white space. *)
Fixpoint blank (s : string) : bool :=
  match s with
  | EmptyString => true
  | String a r => is_space a && blank r
  end.

(** What the calls of a script add to [printed] and to [answered]. *)
Fixpoint prints_of (calls : list call) : string :=
  match calls with
  | [] => ""
  | CallPrint args :: calls => line_of args +:+ prints_of calls
  | CallAnswer _ :: calls => prints_of calls
  end.

Fixpoint answers_of (calls : list call) : string :=
  match calls with
  | [] => ""
  | CallPrint _ :: calls => answers_of calls
  | CallAnswer args :: calls => line_of args +:+ answers_of calls
  end.

Definition is_print (c : call) : bool :=
  match c with CallPrint _ => true | CallAnswer _ => false end.

(** The response gives the loop something to send back: a script that
    prints or that raises an [Exception], or text between delimiters that
    [ast.parse] does not accept. *)
Definition prints_something (A : Agent) (response : string) : bool :=
  match parse_script (ast_parse A) response with
  | Parsed _ script =>
      if bool_decide (script = "") then false
      else
        match exec_script A script with
        | (calls, Finished) => existsb is_print calls
        | (_, RaisedException _) => true
        | (_, RaisedOther) => false
        end
  | ParseRaise _ => true
  end.

(** ** Further examples *)

(** A search result for the BASE chunk of a file of 10 lines whose lines 3
    to 6 are a chunk. *)
Definition ex_base_document : string :=
  PyStr.join nl ["f.py:1-2,7-10"; "l1"; "l2"; "l3"; "l4"; "l5"; "l6"; "l7"; "l8"; "l9"; "l10"].

Definition ex_base_result : result_node :=
  {| n_metadata := {[ "id" := PStr "f.py:BASE"; "path" := PStr "f.py:1-2,7-10" ]};
     n_document := ex_base_document |}.

(** The example repository when [f.py] holds a method [A.b]. *)
Definition ex_nested_chunks : list descr :=
  [Descr "f.py:A.b" "f.py:1-2"; Descr "f.py:BASE" "f.py:3-3"].

Definition ex_nested_graph : Graph :=
  set_node_attr ex_hierarchy_graph "f.py" "chunks" (PList ex_nested_chunks).

Definition ex_nested_loaded : Graph :=
  match add_file_chunks_to_graph ex_repo "f.py" ex_nested_graph false ex_db with
  | Ret (graph, _) => graph
  | Raise _ => empty_graph
  end.

Definition ex_nested_batch : list (string * record) :=
  match add_file_chunks_to_graph ex_repo "f.py" ex_nested_graph false ex_db with
  | Ret (_, add_to_db) => add_to_db
  | Raise _ => []
  end.

(** The example repository after the contents of its two files have been
    exchanged. *)
Definition ex_swapped_repo : Env :=
  ex_env [["f.py"]; ["e.py"]] [("f.py", ex_e_document); ("e.py", ex_f_document)]
         ex_files ex_detector.

(** The graph and the store that [Hierarchy] makes of the example
    repository when the store is empty. *)
Definition ex_fresh_graph : Graph :=
  match Hierarchy_annotate ex_repo ex_graph0 false ∅ with
  | Ret (graph, _) => graph
  | Raise _ => empty_graph
  end.

Definition ex_fresh_store : store :=
  match Hierarchy_annotate ex_repo ex_graph0 false ∅ with
  | Ret (_, db) => db
  | Raise _ => ∅
  end.

(** The chunks of [f.py] loaded a second time. *)
Definition ex_reloaded_graph : Graph :=
  match add_file_chunks_to_graph ex_repo "f.py" ex_loaded_graph false ex_db with
  | Ret (graph, _) => graph
  | Raise _ => empty_graph
  end.

Definition ex_reloaded_batch : list (string * record) :=
  match add_file_chunks_to_graph ex_repo "f.py" ex_loaded_graph false ex_db with
  | Ret (_, add_to_db) => add_to_db
  | Raise _ => []
  end.

(** A collection with integer distances: [get] and [update] go through
    the ids one after the other, and [query] answers with the active
    records, the distance of a record being the length of its document. *)
Definition ex_active (r : record) : bool :=
  bool_decide (r_metadata r !! "active" = Some (PBool true)).

Definition ex_chroma : Chroma Z :=
  {| dist_lt := Z.ltb;
     chroma_get := λ db ids,
       Ret (omap (λ id, match id with
                        | PStr c => r_metadata <$> db !! c
                        | _ => None
                        end) ids);
     chroma_update := λ db ids metadatas,
       Ret (foldl (λ d im, match im.1 with
                           | PStr c => db_update d c im.2
                           | _ => d
                           end) db (zip ids metadatas));
     chroma_query := λ db query n,
       let found := take n (filter ex_active (map_to_list db).*2) in
       Ret (r_metadata <$> found, r_document <$> found,
            (λ r, Z.of_nat (String.length (r_document r))) <$> found) |}.

Definition ex_search_results : list (search_result Z) :=
  match query_graph ex_chroma "query" ex_hierarchy_graph (Some 1) ex_db with
  | Ret (results, _) => results
  | Raise _ => []
  end.

(** A response whose block starts with a line of code that starts with
    ["python"]. *)
Definition ex_response : string :=
  "Here it is: ```" +:+ nl +:+ "python_version = 3" +:+ nl
  +:+ "answer(python_version)" +:+ nl +:+ "``` Done.".

(** An agent whose model always gives text that is not valid Python, and
    one whose model gives a script that answers. *)
Definition ex_failing_agent : Agent :=
  {| llm := λ _ _, Ret "```1 +```";
     ast_parse := λ _, AstSyntaxError;
     exec_script := λ _, ([], Finished) |}.

Definition ex_answering_agent : Agent :=
  {| llm := λ _ _, Ret ex_response;
     ast_parse := λ _, AstOk;
     exec_script := λ _, ([CallAnswer ["3"]], Finished) |}.

(** * Properties *)

(** ** Strings *)

Section strings.
Context (c : ascii).

Lemma split_nonempty s : PyStr.split c s ≠ [].
Proof. destruct s as [|a s]; simpl; [done|]. repeat case_match; done. Qed.

Lemma split_length s : length (PyStr.split c s) = S (PyStr.count c s).
Proof.
  induction s as [|a s IH]; simpl; [done|].
  case_decide; simpl; [by rewrite IH|].
  destruct (PyStr.split c s) eqn:Hs; [by apply split_nonempty in Hs|]. done.
Qed.

Lemma split_no_sep s : PyStr.count c s = 0%nat → PyStr.split c s = [s].
Proof.
  induction s as [|a s IH]; simpl; [done|].
  case_decide; [done|]. intros Hc. by rewrite IH.
Qed.

Lemma count_app a b : PyStr.count c (a +:+ b) = (PyStr.count c a + PyStr.count c b)%nat.
Proof. induction a as [|x a IH]; simpl; [done|]. case_decide; simpl; lia. Qed.

Lemma split_app a b :
  PyStr.count c a = 0%nat → PyStr.split c (a +:+ String c b) = a :: PyStr.split c b.
Proof.
  induction a as [|x a IH]; simpl.
  - intros _. by rewrite decide_True.
  - case_decide; [done|]. intros Hc. by rewrite IH.
Qed.

Lemma count_one s :
  PyStr.count c s = 1%nat →
  ∃ a b, s = a +:+ String c b ∧ PyStr.count c a = 0%nat ∧ PyStr.count c b = 0%nat.
Proof.
  induction s as [|x s IH]; simpl; [done|].
  case_decide as Hx.
  - intros [= H]. exists "", s. by subst.
  - intros H. destruct (IH H) as (a & b & -> & Ha & Hb).
    exists (String x a), b. simpl. by rewrite decide_False.
Qed.

Lemma join_split s : PyStr.join (String c "") (PyStr.split c s) = s.
Proof.
  induction s as [|a s IH]; simpl; [done|].
  destruct (PyStr.split c s) as [|h t] eqn:Hs; [by apply split_nonempty in Hs|].
  case_decide as Hd; simpl in *.
  - subst a. by rewrite IH.
  - rewrite <-IH. by destruct t.
Qed.

End strings.

Lemma count_sep_app c a b : PyStr.count c (a +:+ String c b) ≠ 0%nat.
Proof. rewrite count_app. simpl. rewrite decide_True by done. lia. Qed.

(** ** Chunk validation *)

Lemma is_chunk_valid_spec chunk :
  is_chunk_valid chunk = Ret true ↔ well_formed_chunk chunk.
Proof.
  unfold is_chunk_valid, well_formed_chunk. split.
  - case_bool_decide as Hdom; simpl; [|done].
    unfold getitem. destruct (chunk !! "id") as [id|] eqn:Hid; simpl; [|done].
    destruct id as [| | |id|]; simpl; try done.
    case_bool_decide as Hn; simpl; [|done].
    destruct (count_one _ _ Hn) as (a & b & -> & Ha & Hb).
    rewrite split_app, (split_no_sep _ b) by done. simpl.
    case_bool_decide as Hb'; simpl; [|done].
    intros _. split; [done|]. exists a, b. repeat split; try done.
    intros ->. by apply Hb'.
  - intros [Hdom (path & seg & Hid & Hp & Hs & Hne)].
    rewrite bool_decide_eq_true_2 by done. simpl.
    unfold getitem. rewrite Hid. simpl.
    change (":" +:+ seg) with (String ":" seg).
    rewrite count_app. simpl. rewrite Hp, Hs. simpl.
    rewrite split_app, (split_no_sep _ seg) by done. simpl.
    rewrite bool_decide_eq_true_2; [done|].
    unfold PyStr.len. destruct seg; simpl; [done|lia].
Qed.

Lemma all_chunks_valid_spec chunks :
  all_chunks_valid chunks = Ret true ↔ Forall well_formed_chunk chunks.
Proof.
  induction chunks as [|c chunks IH]; simpl; [by split|].
  rewrite Forall_cons, <-IH, <-is_chunk_valid_spec.
  destruct (is_chunk_valid c) as [[]|]; simpl; naive_solver.
Qed.

Lemma bind_raises {A B} (m : pyres A) (f : A → pyres B) : raises m → raises (m ≫= f).
Proof. intros [e ->]. by exists e. Qed.

Lemma detect_chunks_invalid E node lines chunks :
  read_lines E node = Ret lines → lines ≠ [] →
  chunk_function E node lines = Ret chunks →
  Exists (λ c, ¬ well_formed_chunk c) chunks →
  raises (detect_chunks E node).
Proof.
  intros Hr Hne Hc Hex. unfold detect_chunks. rewrite Hr. simpl.
  rewrite bool_decide_eq_false_2 by (by destruct lines).
  rewrite Hc. simpl.
  destruct (all_chunks_valid chunks) as [[]|e] eqn:Hv; simpl.
  - apply all_chunks_valid_spec in Hv. apply Exists_not_Forall in Hex. done.
  - by eexists.
  - by eexists.
Qed.

(** C7. In a file that is not empty, when one of the chunks that the
    detector returns is not well formed (its keys are not exactly ["id"],
    ["start_line"], ["end_line"], or its id does not have exactly one ":",
    or nothing follows the ":"), [get_file_chunk_data] raises: the file
    gets no ["chunks"], the store is not updated, and the task of the
    file, so the whole [annotate], raises too. *)
Theorem invalid_chunk_fails_whole_file E node data db lines chunks :
  read_lines E node = Ret lines → lines ≠ [] →
  chunk_function E node lines = Ret chunks →
  Exists (λ c, ¬ well_formed_chunk c) chunks →
  raises (get_file_chunk_data E node data db)
  ∧ ∀ refresh graph, refresh || chunks_is_None data = true →
      raises (chunk_task E refresh (graph, db) (node, data)).
Proof.
  intros Hr Hne Hc Hex.
  assert (raises (get_file_chunk_data E node data db)) as Hraise.
  { unfold get_file_chunk_data. apply bind_raises. eauto using detect_chunks_invalid. }
  split; [done|]. intros refresh graph Hcond. unfold chunk_task. rewrite Hcond.
  by apply bind_raises.
Qed.

Lemma ex_chunk_well_formed path seg start_line end_line :
  PyStr.count ":" path = 0%nat → PyStr.count ":" seg = 0%nat → seg ≠ "" →
  well_formed_chunk (ex_chunk (path +:+ ":" +:+ seg) start_line end_line).
Proof.
  intros Hp Hs Hne. split.
  - unfold ex_chunk, chunk_keys. rewrite !dom_insert_L, dom_singleton_L. set_solver.
  - exists path, seg. done.
Qed.

Lemma ex_chunk_int_lines id start_line end_line : int_lines (ex_chunk id start_line end_line).
Proof. by exists start_line, end_line. Qed.

Lemma invalid_chunk_fails_whole_file_witness :
  read_lines ex_bad_repo "file" = Ret ["a"; "b"]
  ∧ chunk_function ex_bad_repo "file" ["a"; "b"] = Ret [ex_chunk "file:" 1 2]
  ∧ ¬ well_formed_chunk (ex_chunk "file:" 1 2)
  ∧ raises (get_file_chunk_data ex_bad_repo "file" ∅ ∅).
Proof.
  assert (Hbad : ¬ well_formed_chunk (ex_chunk "file:" 1 2)).
  { intros H%is_chunk_valid_spec. vm_compute in H. discriminate. }
  repeat split; [done|].
  refine (proj1 (invalid_chunk_fails_whole_file ex_bad_repo "file" ∅ ∅
                   ["a"; "b"] [ex_chunk "file:" 1 2] _ _ _ _)).
  - reflexivity.
  - discriminate.
  - reflexivity.
  - apply Exists_cons_hd. exact Hbad.
Defined.

Lemma well_formed_chunk_insert chunk s e :
  well_formed_chunk chunk →
  well_formed_chunk (<["start_line" := s]> (<["end_line" := e]> chunk)).
Proof.
  intros [Hdom (path & seg & Hid & Hrest)]. split.
  - rewrite !dom_insert_L, Hdom. unfold chunk_keys. set_solver.
  - exists path, seg. by rewrite !lookup_insert_ne.
Qed.

Lemma elem_of_range_set a b x : x ∈ range_set a b ↔ a ≤ x < b.
Proof. unfold range_set. rewrite elem_of_list_to_set, elem_of_seqZ. lia. Qed.

#[global] Instance set_unfold_range_set a b x :
  SetUnfoldElemOf x (range_set a b) (a ≤ x < b).
Proof. constructor. apply elem_of_range_set. Qed.

Lemma discard_chunks_lines base chunks r :
  discard_chunks base chunks = Ret r → r = base ∖ author_lines chunks.
Proof.
  revert base. induction chunks as [|c chunks IH]; simpl; intros base.
  - intros [= <-]. unfold author_lines. simpl. set_solver.
  - unfold author_lines, chunk_lines, chunk_range. simpl.
    destruct (getitem c "start_line") as [s|]; simpl; [|done].
    destruct (getitem c "end_line") as [e|]; simpl; [|done].
    destruct (as_int s) as [a|]; simpl; [|done].
    destruct (as_int e) as [b|]; simpl; [|done].
    intros H. apply IH in H. subst r. unfold author_lines. set_solver.
Qed.

Lemma discard_chunks_returns base chunks :
  Forall int_lines chunks → returns (discard_chunks base chunks).
Proof.
  intros H. revert base. induction H as [|c chunks (s & e & Hs & He) _ IH]; simpl; intros base.
  - by eexists.
  - unfold getitem. rewrite Hs, He. simpl. apply IH.
Qed.

Lemma author_chunk_returns node chunk :
  well_formed_chunk chunk → int_lines chunk →
  ∃ id s e, chunk !! "id" = Some (PStr id) ∧ chunk !! "start_line" = Some (PInt s)
            ∧ chunk !! "end_line" = Some (PInt e)
            ∧ author_chunk node chunk
              = Ret (Descr id (node +:+ ":" +:+ pretty s +:+ "-" +:+ pretty e)).
Proof.
  intros [_ (path & seg & Hid & _)] (s & e & Hs & He).
  exists (path +:+ ":" +:+ seg), s, e. repeat split; try done.
  unfold author_chunk, getitem. by rewrite Hid, Hs, He.
Qed.

Lemma mapM_author_returns node chunks :
  Forall well_formed_chunk chunks → Forall int_lines chunks →
  ∃ authors, mapM (author_chunk node) chunks = Ret authors ∧ length authors = length chunks.
Proof.
  induction chunks as [|c chunks IH]; intros Hwf Hint; simpl.
  - by exists [].
  - apply Forall_cons in Hwf as [Hc Hwf]. apply Forall_cons in Hint as [Hi Hint].
    destruct (author_chunk_returns node c Hc Hi) as (id & s & e & _ & _ & _ & ->).
    destruct (IH Hwf Hint) as (authors & -> & Hlen). simpl.
    eexists. split; [done|]. simpl. by rewrite Hlen.
Qed.

(** C10. [is_chunk_valid] looks at the keys and at the id only: a
    well-formed chunk stays valid whatever values its ["start_line"] and
    ["end_line"] are given. So a list of well-formed chunks with int line
    numbers, whether or not they lie within the file or overlap, passes
    the validation and [standardize] turns it into the descriptors of the
    chunks and a BASE chunk, whose ref is computed from the lines that
    those ranges leave, without any check. *)
Theorem chunk_validity_ignores_line_values :
  (∀ chunk start_line end_line,
     well_formed_chunk chunk →
     is_chunk_valid (<["start_line" := start_line]> (<["end_line" := end_line]> chunk))
     = Ret true)
  ∧ (∀ node n chunks,
       chunks ≠ [] → Forall well_formed_chunk chunks → Forall int_lines chunks →
       all_chunks_valid chunks = Ret true
       ∧ ∃ authors,
           length authors = length chunks
           ∧ standardize node n chunks
             = Ret (authors ++
                    [base_chunk node
                       (base_chunk_refs (range_set 1 (n + 1) ∖ author_lines chunks))])).
Proof.
  split.
  - intros chunk s e Hwf. apply is_chunk_valid_spec. by apply well_formed_chunk_insert.
  - intros node n chunks Hne Hwf Hint. split; [by apply all_chunks_valid_spec|].
    unfold standardize. rewrite bool_decide_eq_false_2 by done.
    destruct (discard_chunks_returns (range_set 1 (n + 1)) chunks Hint) as [base Hbase].
    rewrite Hbase. simpl. apply discard_chunks_lines in Hbase as ->.
    destruct (mapM_author_returns node chunks Hwf Hint) as (authors & -> & Hlen).
    simpl. by exists authors.
Qed.

Lemma chunk_validity_ignores_line_values_witness :
  is_chunk_valid (<["start_line" := PInt 20]> (<["end_line" := PInt (-5)]>
                    (ex_chunk "f.py:foo" 1 2))) = Ret true
  ∧ all_chunks_valid [ex_chunk "f.py:foo" 2 50; ex_chunk "f.py:bar" 1 2] = Ret true
  ∧ ∃ authors,
      length authors = 2%nat
      ∧ standardize "f.py" 3 [ex_chunk "f.py:foo" 2 50; ex_chunk "f.py:bar" 1 2]
        = Ret (authors ++
               [base_chunk "f.py"
                  (base_chunk_refs
                     (range_set 1 (3 + 1)
                      ∖ author_lines [ex_chunk "f.py:foo" 2 50; ex_chunk "f.py:bar" 1 2]))]).
Proof.
  assert (Hfoo : ∀ s e, well_formed_chunk (ex_chunk "f.py:foo" s e)).
  { intros s e. by apply (ex_chunk_well_formed "f.py" "foo"). }
  assert (Hbar : ∀ s e, well_formed_chunk (ex_chunk "f.py:bar" s e)).
  { intros s e. by apply (ex_chunk_well_formed "f.py" "bar"). }
  destruct chunk_validity_ignores_line_values as [Hvalid Hflow].
  split; [by apply Hvalid|].
  apply (Hflow "f.py" 3 [ex_chunk "f.py:foo" 2 50; ex_chunk "f.py:bar" 1 2]).
  - discriminate.
  - repeat constructor; [apply Hfoo|apply Hbar].
  - repeat constructor; apply ex_chunk_int_lines.
Defined.

(** ** The BASE chunk and the lines it is left with *)

Lemma runs_lines_app r1 r2 : runs_lines (r1 ++ r2) = runs_lines r1 ∪ runs_lines r2.
Proof. unfold runs_lines. rewrite fmap_app, union_list_app_L. done. Qed.

Lemma group_runs_lines start end_ rest refs :
  start ≤ end_ →
  runs_lines (group_runs start end_ rest refs)
  = runs_lines refs ∪ range_set start (end_ + 1) ∪ list_to_set rest.
Proof.
  revert start end_ refs. induction rest as [|i rest IH]; simpl; intros start end_ refs Hle.
  - rewrite runs_lines_app. unfold runs_lines. simpl. set_solver.
  - case_bool_decide as Hi.
    + rewrite IH by lia. set_unfold. intros x. naive_solver lia.
    + rewrite IH by lia. rewrite runs_lines_app.
      case_bool_decide; unfold runs_lines; simpl; set_unfold; intros x; naive_solver lia.
Qed.

Lemma base_chunk_runs_lines (s : gset Z) : runs_lines (base_chunk_runs s) = s.
Proof.
  unfold base_chunk_runs.
  pose proof (merge_sort_Permutation Z.le (elements s)) as Hp.
  destruct (merge_sort Z.le (elements s)) as [|start rest].
  - apply Permutation_nil_l in Hp. symmetry in Hp. apply elements_empty_inv in Hp.
    apply leibniz_equiv in Hp. subst. done.
  - rewrite group_runs_lines by lia.
    apply set_eq. intros x. rewrite <-(elem_of_elements s), <-Hp.
    unfold runs_lines. simpl. set_unfold. naive_solver lia.
Qed.

(** C1, as stated, fails. In a file of 3 lines, the valid chunk [f.py:foo]
    of lines 2 to 5 leaves line 1 to BASE, and the lines of the two are 1 to
    5, not 1 to 3. And when the detector returns no chunk, which passes the
    validation as well, the file gets no chunk at all, so no line is
    covered. *)
Lemma chunk_ranges_partition_counterexample :
  all_chunks_valid [ex_chunk "f.py:foo" 2 5] = Ret true
  ∧ standardize "f.py" 3 [ex_chunk "f.py:foo" 2 5]
    = Ret [Descr "f.py:foo" "f.py:2-5"; Descr "f.py:BASE" "f.py:1-1"]
  ∧ discard_chunks (range_set 1 (3 + 1)) [ex_chunk "f.py:foo" 2 5] = Ret {[ 1 ]}
  ∧ base_chunk_runs {[ 1 ]} = [Span 1 1]
  ∧ author_lines [ex_chunk "f.py:foo" 2 5] ∪ runs_lines [Span 1 1] ≠ range_set 1 (3 + 1)
  ∧ 5 ∈ author_lines [ex_chunk "f.py:foo" 2 5]
  ∧ all_chunks_valid [] = Ret true
  ∧ standardize "f.py" 3 [] = Ret [].
Proof. compute_done. Qed.

(** C1, amended. In a file of [n] lines, [n > 0], for which the detector
    returns at least one chunk: [get_file_chunk_data] returns when the
    chunks are well formed with int line numbers and the store has the
    record of the file; and whenever it returns, the last descriptor is the
    BASE chunk, and its ref is written from runs whose lines are exactly the
    lines [1..n] that are in no chunk of the detector. So no line is both
    in a chunk of the detector and in BASE, every line of [1..n] is in one
    of them, and they cover exactly [1..n] when every chunk of the detector
    lies within [1..n]. *)
Theorem chunk_ranges_cover_file E node data db lines chunks :
  read_lines E node = Ret lines → lines ≠ [] →
  chunk_function E node lines = Ret chunks → chunks ≠ [] →
  let n := Z.of_nat (length lines) in
  (Forall well_formed_chunk chunks → Forall int_lines chunks →
   (∃ checksum, data !! "checksum" = Some (PStr checksum) ∧ is_Some (db !! checksum)) →
   returns (get_file_chunk_data E node data db))
  ∧ ∀ ds db',
      get_file_chunk_data E node data db = Ret (ds, db') →
      ∃ runs,
        last ds = Some (base_chunk node (format_run <$> runs))
        ∧ runs_lines runs = range_set 1 (n + 1) ∖ author_lines chunks
        ∧ runs_lines runs ## author_lines chunks
        ∧ range_set 1 (n + 1) ⊆ author_lines chunks ∪ runs_lines runs
        ∧ (author_lines chunks ⊆ range_set 1 (n + 1) →
           author_lines chunks ∪ runs_lines runs = range_set 1 (n + 1)).
Proof.
  intros Hr Hne Hc Hcne n. subst n.
  assert (Hdetect : ∀ ok, all_chunks_valid chunks = Ret ok →
            detect_chunks E node = if ok then Ret (lines, chunks) else Raise ValueError).
  { intros ok Hok. unfold detect_chunks. rewrite Hr. simpl.
    rewrite bool_decide_eq_false_2 by (by destruct lines).
    rewrite Hc. simpl. by rewrite Hok. }
  split.
  - intros Hwf Hint (checksum & Hsum & [r Hrec]).
    unfold get_file_chunk_data.
    rewrite (Hdetect true) by (by apply all_chunks_valid_spec). simpl.
    unfold standardize. rewrite bool_decide_eq_false_2 by done.
    destruct (discard_chunks_returns (range_set 1 (Z.of_nat (length lines) + 1)) chunks Hint)
      as [base ->].
    destruct (mapM_author_returns node chunks Hwf Hint) as (authors & -> & _).
    simpl. unfold getitem. rewrite Hsum. simpl.
    unfold db_metadatas. rewrite Hrec. simpl. by eexists.
  - intros ds db' Hget. unfold get_file_chunk_data in Hget.
    destruct (all_chunks_valid chunks) as [ok|] eqn:Hok.
    2:{ unfold detect_chunks in Hget. rewrite Hr in Hget. simpl in Hget.
        rewrite bool_decide_eq_false_2 in Hget by (by destruct lines).
        rewrite Hc in Hget. simpl in Hget. by rewrite Hok in Hget. }
    rewrite (Hdetect ok eq_refl) in Hget. destruct ok; simpl in Hget; [|done].
    unfold standardize in Hget. rewrite bool_decide_eq_false_2 in Hget by done.
    destruct (discard_chunks _ chunks) as [base|] eqn:Hbase; simpl in Hget; [|done].
    apply discard_chunks_lines in Hbase.
    destruct (mapM _ chunks) as [authors|]; simpl in Hget; [|done].
    destruct (getitem data "checksum") as [v|]; simpl in Hget; [|done].
    destruct (as_str v) as [checksum|]; simpl in Hget; [|done].
    destruct (list_getitem _ 0) as [m|]; simpl in Hget; [|done].
    injection Hget as <- _.
    exists (base_chunk_runs base). rewrite last_snoc, base_chunk_runs_lines.
    subst base.
    split; [done|]. split; [done|].
    split; [set_solver|]. split.
    + intros x Hx. destruct (decide (x ∈ author_lines chunks)); set_solver.
    + intros Hsub. apply set_eq. intros x.
      destruct (decide (x ∈ author_lines chunks)); set_solver.
Qed.

Lemma chunk_ranges_cover_file_witness :
  get_file_chunk_data ex_repo "f.py" ex_f_data ex_db = Ret (ex_f_chunks, ex_f_store)
  ∧ ∃ runs,
      last ex_f_chunks = Some (base_chunk "f.py" (format_run <$> runs))
      ∧ runs_lines runs = range_set 1 (3 + 1) ∖ author_lines (ex_detector "f.py")
      ∧ runs_lines runs ## author_lines (ex_detector "f.py")
      ∧ range_set 1 (3 + 1) ⊆ author_lines (ex_detector "f.py") ∪ runs_lines runs
      ∧ (author_lines (ex_detector "f.py") ⊆ range_set 1 (3 + 1) →
         author_lines (ex_detector "f.py") ∪ runs_lines runs = range_set 1 (3 + 1)).
Proof.
  assert (Hget : get_file_chunk_data ex_repo "f.py" ex_f_data ex_db
                 = Ret (ex_f_chunks, ex_f_store)) by compute_done.
  split; [exact Hget|].
  refine (proj2 (chunk_ranges_cover_file ex_repo "f.py" ex_f_data ex_db
                   ["a"; "b"; "c"] (ex_detector "f.py") _ _ _ _) _ _ Hget).
  - reflexivity.
  - discriminate.
  - reflexivity.
  - discriminate.
Defined.

Lemma spec_runs_cons x rest : spec_runs (x :: rest) = spec_extend (x, x) (spec_runs rest).
Proof. done. Qed.

Lemma format_spec_run r : format_run (spec_run r) = spec_format_run r.
Proof. unfold spec_run, spec_format_run. by case_bool_decide. Qed.

Lemma spec_extend_snoc r runs : ∃ init last, spec_extend r runs = init ++ [last].
Proof.
  unfold spec_extend. destruct runs as [|[s e] rest]; [by exists [], r|].
  case_bool_decide.
  - destruct rest as [|x rest _] using rev_ind; [by exists [], (r.1, e)|].
    exists ((r.1, e) :: rest), x. done.
  - destruct rest as [|x rest _] using rev_ind; [by exists [r], (s, e)|].
    exists (r :: (s, e) :: rest), x. done.
Qed.

(** The loop groups the lines into the runs of the spec; each run but the
    last is written as the spec says, the last one always as a range. *)
Lemma group_runs_spec rest :
  ∀ start end_ refs init last,
    spec_extend (start, end_) (spec_runs rest) = init ++ [last] →
    group_runs start end_ rest refs = refs ++ (spec_run <$> init) ++ [Span last.1 last.2].
Proof.
  induction rest as [|i rest IH]; intros start end_ refs init last Hruns.
  - simpl in *. destruct init as [|x [|y init]]; simplify_eq/=. done.
  - rewrite spec_runs_cons in Hruns. simpl. case_bool_decide as Hi.
    + apply IH. rewrite <-Hruns. unfold spec_extend. simpl.
      destruct (spec_runs rest) as [|[s e] runs]; simpl.
      * by rewrite bool_decide_eq_true_2.
      * case_bool_decide; simpl; by rewrite bool_decide_eq_true_2.
    + assert (spec_extend (start, end_) (spec_extend (i, i) (spec_runs rest))
              = (start, end_) :: spec_extend (i, i) (spec_runs rest)) as Hcons.
      { unfold spec_extend. simpl. destruct (spec_runs rest) as [|[s e] runs]; simpl.
        - by rewrite bool_decide_eq_false_2.
        - case_bool_decide; simpl; by rewrite bool_decide_eq_false_2. }
      rewrite Hcons in Hruns.
      destruct (spec_extend_snoc (i, i) (spec_runs rest)) as (init' & last' & Hsnoc).
      rewrite Hsnoc in Hruns.
      assert (init = (start, end_) :: init' ∧ last = last') as [-> ->].
      { change ((start, end_) :: init' ++ [last']) with (((start, end_) :: init') ++ [last'])
          in Hruns. by apply app_inj_tail in Hruns as [<- <-]. }
      rewrite (IH i i _ init' last' Hsnoc). simpl. rewrite <-!(assoc_L (++)). done.
Qed.

Lemma base_chunk_refs_spec (lines : gset Z) init last :
  spec_runs (merge_sort Z.le (elements lines)) = init ++ [last] →
  base_chunk_refs lines
  = (spec_format_run <$> init) ++ [pretty last.1 +:+ "-" +:+ pretty last.2].
Proof.
  unfold base_chunk_refs, base_chunk_runs.
  destruct (merge_sort Z.le (elements lines)) as [|start rest].
  - simpl. intros H. by destruct init.
  - rewrite spec_runs_cons. intros H.
    rewrite (group_runs_spec rest start start [] init last H). simpl.
    rewrite fmap_app, <-list_fmap_compose. simpl. f_equal.
    apply list_fmap_ext. intros ? r _. apply format_spec_run.
Qed.

(** C6 (a defect of the code): in a file of 3 lines with a chunk of lines
    1 to 2, the one uncovered line 3 is a run of length 1, which the spec
    writes ["3"]; the code writes ["3-3"], because the append after the loop
    (line 76) always writes ["start-end"], unlike the one in the loop (lines
    71-74). On the spec's scenario, 10 lines and a chunk of lines 3 to 6,
    both give ["file:1-2,7-10"]. *)
Theorem last_run_of_one_line_is_written_as_range :
  standardize "file" 3 [ex_chunk "file:foo" 1 2]
  = Ret [Descr "file:foo" "file:1-2"; Descr "file:BASE" "file:3-3"]
  ∧ spec_base_ref "file" 3 [ex_chunk "file:foo" 1 2] = "file:3"
  ∧ standardize "file" 10 [ex_chunk "file:foo" 3 6]
    = Ret [Descr "file:foo" "file:3-6"; Descr "file:BASE" "file:1-2,7-10"]
  ∧ spec_base_ref "file" 10 [ex_chunk "file:foo" 3 6] = "file:1-2,7-10".
Proof. compute_done. Qed.

(** ** The context message *)

Lemma search_loop_greedy E inc auto results :
  ∀ context full i msg,
    render_context_message E context = Ret full →
    search_loop E inc auto context full i results = Ret msg →
    ∃ k context_k,
      (k ≤ length results)%nat
      ∧ merge_results E context i (take k results) = Ret context_k
      ∧ render_context_message E context_k = Ret msg
      ∧ ((0 < k)%nat → token_counter E msg - inc ≤ auto)
      ∧ ((k < length results)%nat →
         ∃ context' next,
           merge_results E context i (take (S k) results) = Ret context'
           ∧ render_context_message E context' = Ret next
           ∧ token_counter E next - inc > auto).
Proof.
  induction results as [|node rest IH]; intros context full i msg Hfull Hloop; simpl in *.
  - injection Hloop as <-. exists 0%nat, context. repeat split; try done; simpl; lia.
  - destruct (merge_result E context i node) as [context1|] eqn:Hm; simpl in *; [|done].
    destruct (render_context_message E context1) as [next|] eqn:Hr; simpl in *; [|done].
    case_bool_decide as Hexceeds.
    + injection Hloop as <-. exists 0%nat, context. simpl.
      repeat split; try done; try lia.
      intros _. by exists context1, next.
    + destruct (IH context1 next (i + 1) msg Hr Hloop)
        as (k & context_k & Hk & Hmerge & Hrender & Hfit & Hnext).
      exists (S k), context_k. simpl. rewrite Hm. simpl.
      repeat split; try done; try lia.
      * intros _. destruct k as [|k].
        -- simpl in Hmerge. injection Hmerge as <-. rewrite Hr in Hrender.
           injection Hrender as <-. lia.
        -- apply Hfit. lia.
      * intros Hlt. apply Hnext. lia.
Qed.

(** C2. [assemble] is [get_context_message] from line 223 on, [context]
    being what the loop over [include] has built. When the render of
    [context] already counts [max_tokens] or more, it is returned as it
    is. Else the message returned is the render after the first [k] search
    results, which is within [include_tokens + min(auto_tokens, max_tokens -
    include_tokens)] when [k > 0], for a [k] such that the render after
    [k + 1] results, when there is one, counts more than that; and it
    counts at most [max_tokens]. So does the message that
    [get_context_message] returns, unless the render of the explicit
    references alone counts [max_tokens] or more, which is then returned. *)
Theorem context_message_budget E max_tokens auto_tokens results :
  (∀ context include_message msg,
     render_context_message E context = Ret include_message →
     assemble E context max_tokens auto_tokens results = Ret msg →
     let include_tokens := token_counter E include_message in
     let budget := include_tokens + Z.min auto_tokens (max_tokens - include_tokens) in
     (include_tokens >= max_tokens → msg = include_message)
     ∧ (include_tokens < max_tokens →
        token_counter E msg ≤ max_tokens
        ∧ ∃ k context_k,
            (k ≤ length results)%nat
            ∧ merge_results E context 0 (take k results) = Ret context_k
            ∧ render_context_message E context_k = Ret msg
            ∧ ((0 < k)%nat → token_counter E msg ≤ budget)
            ∧ ((k < length results)%nat →
               ∃ context' next,
                 merge_results E context 0 (take (S k) results) = Ret context'
                 ∧ render_context_message E context' = Ret next
                 ∧ token_counter E next > budget)))
  ∧ (∀ graph db include msg,
       get_context_message E graph db results include max_tokens auto_tokens = Ret msg →
       ∃ context include_message,
         foldlM (include_ref E graph db) [] include = Ret context
         ∧ render_context_message E context = Ret include_message
         ∧ (token_counter E include_message >= max_tokens → msg = include_message)
         ∧ (token_counter E include_message < max_tokens →
            token_counter E msg ≤ max_tokens)).
Proof.
  assert (Hassemble : ∀ context include_message msg,
     render_context_message E context = Ret include_message →
     assemble E context max_tokens auto_tokens results = Ret msg →
     let include_tokens := token_counter E include_message in
     let budget := include_tokens + Z.min auto_tokens (max_tokens - include_tokens) in
     (include_tokens >= max_tokens → msg = include_message)
     ∧ (include_tokens < max_tokens →
        token_counter E msg ≤ max_tokens
        ∧ ∃ k context_k,
            (k ≤ length results)%nat
            ∧ merge_results E context 0 (take k results) = Ret context_k
            ∧ render_context_message E context_k = Ret msg
            ∧ ((0 < k)%nat → token_counter E msg ≤ budget)
            ∧ ((k < length results)%nat →
               ∃ context' next,
                 merge_results E context 0 (take (S k) results) = Ret context'
                 ∧ render_context_message E context' = Ret next
                 ∧ token_counter E next > budget))).
  { intros context include_message msg Hinc Hasm include_tokens budget.
    unfold assemble in Hasm. rewrite Hinc in Hasm. simpl in Hasm.
    fold include_tokens in Hasm. case_bool_decide as Hge.
    - injection Hasm as <-. split; [done|lia].
    - split; [lia|]. intros Hlt.
      destruct (search_loop_greedy _ _ _ _ _ _ _ _ Hinc Hasm)
        as (k & context_k & Hk & Hmerge & Hrender & Hfit & Hnext).
      split.
      + destruct k as [|k].
        * simpl in Hmerge. injection Hmerge as <-. rewrite Hinc in Hrender.
          injection Hrender as <-. fold include_tokens. lia.
        * specialize (Hfit ltac:(lia)). lia.
      + exists k, context_k. repeat split; try done.
        * intros Hk'. specialize (Hfit Hk'). unfold budget. lia.
        * intros Hk'. destruct (Hnext Hk') as (context' & next & Hm' & Hr' & Hex).
          exists context', next. repeat split; try done. unfold budget. lia. }
  split; [exact Hassemble|].
  intros graph db include msg Hget. unfold get_context_message in Hget.
  destruct (foldlM _ [] include) as [context|]; simpl in Hget; [|done].
  destruct (render_context_message E context) as [include_message|] eqn:Hinc.
  2:{ unfold assemble in Hget. by rewrite Hinc in Hget. }
  exists context, include_message. split; [done|]. split; [done|].
  destruct (Hassemble _ _ _ Hinc Hget) as [Hge Hlt]. split; [done|].
  intros H. by apply Hlt.
Qed.

Lemma context_message_budget_witness :
  render_context_message ex_repo [] = Ret ""
  ∧ assemble ex_repo [] 100 70 ex_results = Ret ex_message
  ∧ token_counter ex_repo ex_message ≤ 100
  ∧ ∃ k context_k,
      (k ≤ length ex_results)%nat
      ∧ merge_results ex_repo [] 0 (take k ex_results) = Ret context_k
      ∧ render_context_message ex_repo context_k = Ret ex_message
      ∧ ((0 < k)%nat → token_counter ex_repo ex_message ≤ 0 + Z.min 70 (100 - 0))
      ∧ ((k < length ex_results)%nat →
         ∃ context' next,
           merge_results ex_repo [] 0 (take (S k) ex_results) = Ret context'
           ∧ render_context_message ex_repo context' = Ret next
           ∧ token_counter ex_repo next > 0 + Z.min 70 (100 - 0)).
Proof.
  assert (Hinc : render_context_message ex_repo [] = Ret "") by reflexivity.
  assert (Hasm : assemble ex_repo [] 100 70 ex_results = Ret ex_message) by compute_done.
  split; [exact Hinc|]. split; [exact Hasm|].
  apply (proj1 (context_message_budget ex_repo 100 70 ex_results) [] "" ex_message Hinc Hasm).
  vm_compute. reflexivity.
Defined.

(** An explicit reference whose path is a node of the graph makes the
    include loop raise; the others are passed over. *)
Lemma include_ref_known E graph db context id :
  is_Some (g_nodes graph !! (split_ref id).1) →
  raises (include_ref E graph db context id).
Proof.
  intros [node Hnode]. unfold include_ref.
  destruct (split_ref id) as [path lines_ref]. simpl in Hnode. rewrite Hnode.
  destruct (dict_get path context) as [data|]; simpl.
  - by eexists.
  - destruct (getitem node "checksum") as [v|]; simpl; [|by eexists].
    destruct (as_str v) as [checksum|]; simpl; [|by eexists].
    destruct (list_getitem _ 0); simpl; by eexists.
Qed.

Lemma include_ref_unknown E graph db context id :
  g_nodes graph !! (split_ref id).1 = None →
  include_ref E graph db context id = Ret context.
Proof.
  intros Hnode. unfold include_ref.
  destruct (split_ref id) as [path lines_ref]. simpl in Hnode. by rewrite Hnode.
Qed.

Lemma include_loop_raises E graph db include :
  ∀ context,
  Exists (λ id, is_Some (g_nodes graph !! (split_ref id).1)) include →
  raises (foldlM (include_ref E graph db) context include).
Proof.
  induction include as [|id include IH]; intros context Hex.
  - by apply Exists_nil in Hex.
  - simpl. destruct (g_nodes graph !! (split_ref id).1) as [node|] eqn:Hnode.
    + destruct (include_ref_known E graph db context id) as [e ->]; [by rewrite Hnode|].
      by eexists.
    + rewrite include_ref_unknown by done. simpl. apply IH.
      apply Exists_cons in Hex as [[? ?]|?]; [congruence|done].
Qed.

Lemma include_loop_unknown E graph db include :
  ∀ context,
  Forall (λ id, g_nodes graph !! (split_ref id).1 = None) include →
  foldlM (include_ref E graph db) context include = Ret context.
Proof.
  induction include as [|id include IH]; intros context Hall; simpl; [done|].
  apply Forall_cons in Hall as [Hid Hall].
  rewrite include_ref_unknown by done. simpl. by apply IH.
Qed.

(** C8 (a defect of the code): an explicit reference to a node of the graph
    makes [get_context_message] raise [AttributeError], since line 210 calls
    [append] on the [set] of tags (the search loop calls [add], line 243).
    The references ["f.py:1-3"] and ["f.py:2-5"] of the spec's scenario give
    no message at all; a reference to an unknown path is passed over. *)
Theorem explicit_reference_raises :
  is_Some (g_nodes ex_graph !! "f.py")
  ∧ get_context_message ex_repo ex_graph ex_store [] ["f.py:1-3"; "f.py:2-5"] 8000 2000
    = Raise AttributeError
  ∧ get_context_message ex_repo ex_graph ex_store [] ["f.py"] 8000 2000
    = Raise AttributeError
  ∧ get_context_message ex_repo ex_graph ex_store [] ["unknown.py:1-3"] 8000 2000
    = Ret "".
Proof. compute_done. Qed.

(** ** The staleness fingerprint *)

Section dict.
Context {K V : Type} `{EqDecision K}.
Implicit Types (d : list (K * V)).

Lemma dict_set_keys k v d :
  NoDup d.*1 → NoDup (dict_set k v d).*1
  ∧ ∀ k' v', (k', v') ∈ dict_set k v d ↔ (k' = k ∧ v' = v) ∨ (k' ≠ k ∧ (k', v') ∈ d).
Proof.
  induction d as [|[k0 v0] d IH]; simpl; intros Hnd.
  - split; [apply NoDup_singleton|]. intros k' v'. rewrite list_elem_of_singleton.
    set_solver.
  - apply NoDup_cons in Hnd as [Hk0 Hnd]. destruct (IH Hnd) as [IH1 IH2].
    case_decide as Hk; simpl.
    + subst k0. split; [by apply NoDup_cons|]. intros k' v'.
      rewrite !elem_of_cons. split.
      * intros [[= -> ->]|Hin]; [by left|]. right. split; [|by right].
        intros ->. apply Hk0. apply list_elem_of_fmap. by exists (k, v').
      * intros [[-> ->]|[Hne [[= -> ->]|Hin]]]; [by left|done|by right].
    + split.
      * apply NoDup_cons. split; [|done]. intros Hin.
        apply list_elem_of_fmap in Hin as [[k1 v1] [-> Hin]]. simpl in *.
        apply IH2 in Hin as [[-> _]|[_ Hin]]; [done|].
        apply Hk0. apply list_elem_of_fmap. by exists (k1, v1).
      * intros k' v'. rewrite !elem_of_cons, IH2. split.
        -- intros [[= -> ->]|[[-> ->]|[Hne Hin]]]; [right|left|right]; try done.
           ++ split; [congruence|by left].
           ++ split; [done|by right].
        -- intros [[-> ->]|[Hne [[= -> ->]|Hin]]]; [right; by left|by left|].
           right. right. done.
Qed.

End dict.

Lemma scan_path_fst E refresh db st p :
  (scan_path E refresh db st p).1
  = match path_checksum E p with Some c => dict_set p c st.1 | None => st.1 end.
Proof.
  unfold scan_path, path_checksum. destruct st as [cs add].
  destruct (get_document E (path_str p)); done.
Qed.

Lemma scan_fst E refresh db paths st :
  (foldl (scan_path E refresh db) st paths).1 = scan_checksums E st.1 paths.
Proof.
  revert st. induction paths as [|p paths IH]; intros st; simpl; [done|].
  rewrite IH, scan_path_fst. done.
Qed.

Lemma get_active_checksums_fst E refresh db :
  (get_active_checksums E refresh db).1 = scan_checksums E [] (git_paths E).
Proof.
  unfold get_active_checksums.
  pose proof (scan_fst E refresh db (git_paths E) ([], [])) as H.
  destruct (foldl _ _ _) as [cs add]. done.
Qed.

Lemma scan_checksums_spec E paths cs :
  NoDup cs.*1 →
  (∀ p c, (p, c) ∈ cs → path_checksum E p = Some c) →
  NoDup (scan_checksums E cs paths).*1
  ∧ ∀ p c, (p, c) ∈ scan_checksums E cs paths
           ↔ path_checksum E p = Some c ∧ (p ∈ paths ∨ (p, c) ∈ cs).
Proof.
  revert cs. induction paths as [|q paths IH]; intros cs Hnd Hcs; simpl.
  - split; [done|]. intros p c. rewrite elem_of_nil. split.
    + intros Hin. split; [by apply Hcs|by right].
    + by intros [_ [[]|Hin]].
  - destruct (path_checksum E q) as [cq|] eqn:Hq.
    + destruct (dict_set_keys q cq cs Hnd) as [Hnd' Hin'].
      destruct (IH (dict_set q cq cs) Hnd') as [IH1 IH2].
      { intros p c [[-> ->]|[_ Hin]]%Hin'; [done|by apply Hcs]. }
      split; [done|]. intros p c. rewrite IH2, Hin', elem_of_cons. split.
      * intros [Hp [Hin|[[-> ->]|[Hne Hin]]]]; (split; [done|]).
        -- left. by right.
        -- left. by left.
        -- by right.
      * intros [Hp [[->|Hin]|Hin]]; (split; [done|]).
        -- right. left. split; [done|congruence].
        -- by left.
        -- destruct (decide (p = q)) as [->|Hne].
           ++ right. left. split; [done|congruence].
           ++ right. right. done.
    + destruct (IH cs Hnd Hcs) as [IH1 IH2]. split; [done|].
      intros p c. rewrite IH2, elem_of_cons. split.
      * intros [Hp [Hin|Hin]]; (split; [done|]); [left; by right|by right].
      * intros [Hp [[->|Hin]|Hin]]; [congruence|..]; (split; [done|]); [by left|by right].
Qed.

Lemma checksums_tracked E refresh db :
  (get_active_checksums E refresh db).1.*2 ≡ₚ tracked_checksums E.
Proof.
  rewrite get_active_checksums_fst. unfold tracked_checksums.
  destruct (scan_checksums_spec E (git_paths E) []) as [Hnd Hin];
    [constructor|by intros ?? ?%elem_of_nil|].
  set (cs := scan_checksums E [] (git_paths E)) in *.
  transitivity ((omap (λ p, (p,.) <$> path_checksum E p) (remove_dups (git_paths E))).*2).
  - apply fmap_Permutation. apply NoDup_Permutation.
    + by apply NoDup_fmap_1 in Hnd.
    + apply (NoDup_fmap_1 fst).
      assert (Hfst : ∀ l : list path,
                 (omap (λ p, (p,.) <$> path_checksum E p) l).*1
                 = filter (λ p, is_Some (path_checksum E p)) l).
      { induction l as [|p l IHl]; simpl; [done|].
        rewrite filter_cons. case_decide as Hd.
        - destruct Hd as [c Hc]. rewrite Hc. simpl. f_equal. exact IHl.
        - destruct (path_checksum E p) eqn:Hp; [exfalso; eauto|]. done. }
      rewrite Hfst. apply NoDup_filter, NoDup_remove_dups.
    + intros [p c]. rewrite Hin, list_elem_of_omap. split.
      * intros [Hp [Hpin|[]%elem_of_nil]]. exists p. rewrite elem_of_remove_dups, Hp. done.
      * intros (q & Hq & Hqc). rewrite elem_of_remove_dups in Hq.
        destruct (path_checksum E q) eqn:Hpq; simpl in Hqc; [|done].
        injection Hqc as <- <-. split; [done|by left].
  - induction (remove_dups (git_paths E)) as [|p l IHl]; simpl; [done|].
    destruct (path_checksum E p); simpl; [by constructor|done].
Qed.

Lemma db_upsert_lookup db batch c :
  is_Some (db !! c) ∨ c ∈ batch.*1 → is_Some (db_upsert db batch !! c).
Proof.
  unfold db_upsert. revert db. induction batch as [|[c' r] batch IH]; intros db; simpl.
  - intros [H|H%elem_of_nil]; done.
  - intros H. apply IH. destruct (decide (c = c')) as [->|Hne].
    + left. rewrite lookup_insert_eq. by eexists.
    + rewrite lookup_insert_ne by done.
      destruct H as [H|[H|H]%elem_of_cons]; [by left|done|by right].
Qed.

Lemma scan_path_batch E refresh db st p :
  (scan_path E refresh db st p).2.*1 = st.2.*1
  ∨ ∃ c, path_checksum E p = Some c ∧ (scan_path E refresh db st p).2.*1 = st.2.*1 ++ [c].
Proof.
  unfold scan_path, path_checksum. destruct st as [cs add].
  destruct (get_document E (path_str p)); [|by left].
  destruct (refresh || _); simpl; [|by left].
  right. eexists. split; [done|]. by rewrite fmap_app.
Qed.

Lemma scan_path_known E refresh db st p c :
  path_checksum E p = Some c →
  is_Some (db !! c) ∨ c ∈ (scan_path E refresh db st p).2.*1.
Proof.
  unfold scan_path, path_checksum, db_metadatas. destruct st as [cs add].
  destruct (get_document E (path_str p)); [|done]. intros [= <-].
  destruct (db !! hash_str E a) eqn:Hdb; [left; by eexists|].
  right. rewrite orb_true_r. simpl. rewrite fmap_app. set_solver.
Qed.

Lemma scan_batch_mono E refresh db paths st c :
  c ∈ st.2.*1 → c ∈ (foldl (scan_path E refresh db) st paths).2.*1.
Proof.
  revert st. induction paths as [|p paths IH]; intros st Hin; simpl; [done|].
  apply IH. destruct (scan_path_batch E refresh db st p) as [->|(c' & _ & ->)]; set_solver.
Qed.

Lemma scan_known E refresh db paths st p c :
  p ∈ paths → path_checksum E p = Some c →
  is_Some (db !! c) ∨ c ∈ (foldl (scan_path E refresh db) st paths).2.*1.
Proof.
  revert st. induction paths as [|q paths IH]; intros st Hin Hp; simpl.
  - by apply elem_of_nil in Hin.
  - apply elem_of_cons in Hin as [->|Hin]; [|by apply IH].
    destruct (scan_path_known E refresh db st q c Hp) as [?|Hc]; [by left|].
    right. by apply scan_batch_mono.
Qed.

Lemma scan_no_new E db paths st :
  (∀ p c, p ∈ paths → path_checksum E p = Some c → is_Some (db !! c)) →
  (foldl (scan_path E false db) st paths).2 = st.2.
Proof.
  revert st. induction paths as [|q paths IH]; intros st Hdb; simpl; [done|].
  rewrite IH by (intros p c Hp; apply Hdb; by right).
  unfold scan_path. destruct st as [cs add].
  pose proof (Hdb q) as Hq. unfold path_checksum in Hq.
  destruct (get_document E (path_str q)) as [document|]; [|done].
  destruct (Hq (hash_str E document)) as [r Hr]; [by left|done|].
  unfold db_metadatas. rewrite Hr. simpl. done.
Qed.

(** After [get_active_checksums], the store holds a record of every
    checksum of the dict, and a second call adds nothing. *)
Lemma get_active_checksums_store E refresh db checksums db1 :
  get_active_checksums E refresh db = (checksums, db1) →
  (∀ p c, (p, c) ∈ checksums → is_Some (db1 !! c))
  ∧ get_active_checksums E false db1 = (checksums, db1).
Proof.
  intros Hget.
  pose proof (get_active_checksums_fst E refresh db) as Hcs. rewrite Hget in Hcs.
  simpl in Hcs. unfold get_active_checksums in Hget.
  destruct (foldl (scan_path E refresh db) ([], []) (git_paths E)) as [cs add] eqn:Hscan.
  injection Hget as -> <-.
  destruct (scan_checksums_spec E (git_paths E) []) as [_ Hin];
    [constructor|by intros ?? ?%elem_of_nil|]. rewrite <-Hcs in Hin.
  assert (Hall : ∀ p c, p ∈ git_paths E → path_checksum E p = Some c →
                        is_Some (db_upsert db add !! c)).
  { intros p c Hp Hc. apply db_upsert_lookup.
    pose proof (scan_known E refresh db (git_paths E) ([], []) p c Hp Hc) as H.
    by rewrite Hscan in H. }
  split.
  - intros p c [Hc [Hp|[]%elem_of_nil]]%Hin. by apply (Hall p).
  - pose proof (get_active_checksums_fst E false (db_upsert db add)) as Hcs'.
    pose proof (scan_no_new E (db_upsert db add) (git_paths E) ([], []) Hall) as Hadd.
    unfold get_active_checksums in *.
    destruct (foldl (scan_path E false _) ([], []) (git_paths E)) as [cs' add'].
    simpl in *. subst add'. rewrite Hcs', <-Hcs. done.
Qed.

Lemma add_node_attrs g id record : g_attrs (add_node g id record) = g_attrs g.
Proof. done. Qed.

Lemma foldlM_add_file_node_attrs db checksums :
  ∀ st st', foldlM (add_file_node db) st checksums = Ret st' →
            g_attrs st'.1 = g_attrs st.1.
Proof.
  induction checksums as [|[p c] checksums IH]; intros [g edges] st' H; simpl in *.
  - by injection H as <-.
  - destruct (list_getitem _ 0) as [record|]; simpl in H; [|done].
    by rewrite (IH _ _ H).
Qed.

Lemma add_hierarchy_edge_attrs g e : g_attrs (add_hierarchy_edge g e) = g_attrs g.
Proof.
  destruct e as [source target]. unfold add_hierarchy_edge, add_directory. simpl.
  repeat case_bool_decide; done.
Qed.

Lemma foldl_add_hierarchy_edge_attrs l g :
  g_attrs (foldl add_hierarchy_edge g l) = g_attrs g.
Proof.
  revert g. induction l as [|e l IH]; intros g; simpl; [done|].
  by rewrite IH, add_hierarchy_edge_attrs.
Qed.

(** [Hierarchy.annotate] returns whenever the graph has a ["cwd"]. *)
Lemma Hierarchy_annotate_returns E old_graph refresh db cwd :
  g_attrs old_graph !! "cwd" = Some (PStr cwd) →
  returns (Hierarchy_annotate E old_graph refresh db).
Proof.
  intros Hcwd. unfold Hierarchy_annotate, getitem. rewrite Hcwd. simpl.
  destruct (get_active_checksums E refresh db) as [checksums db1] eqn:Hget.
  apply get_active_checksums_store in Hget as [Hstore _].
  assert (Hloop : ∀ st, returns (foldlM (add_file_node db1) st checksums)).
  { clear -Hstore. induction checksums as [|[p c] checksums IH]; intros [g edges]; simpl.
    - by eexists.
    - destruct (Hstore p c) as [r Hr]; [by left|].
      unfold db_metadatas. rewrite Hr. simpl. apply IH.
      intros p' c' Hin. apply (Hstore p'). by right. }
  destruct (Hloop (set_attr empty_graph "cwd" (PStr (path_norm E cwd)), ∅))
    as [[g edges] ->]. simpl. by eexists.
Qed.

(** C9. There is one fingerprint of the tracked files: the hash of the
    concatenation of the sorted list of their checksums (one for each
    tracked path whose document can be read). On a graph that has a
    ["cwd"], whatever else it holds and whatever the store and [refresh]
    are, [Hierarchy.annotate] returns a graph whose ["files_checksum"] is
    that fingerprint, and [Hierarchy.is_complete] returns whether the
    ["files_checksum"] of the graph is that fingerprint; so it returns
    true only then. *)
Theorem files_checksum_is_fingerprint E :
  ∃ sorted_checksums,
    Sorted String.le sorted_checksums
    ∧ sorted_checksums ≡ₚ tracked_checksums E
    ∧ let fingerprint := hash_str E (PyStr.join "" sorted_checksums) in
      (∀ old_graph refresh db cwd,
         g_attrs old_graph !! "cwd" = Some (PStr cwd) →
         ∃ graph db',
           Hierarchy_annotate E old_graph refresh db = Ret (graph, db')
           ∧ g_attrs graph !! "files_checksum" = Some (PStr fingerprint))
      ∧ (∀ graph db cwd,
           g_attrs graph !! "cwd" = Some (PStr cwd) →
           ∃ db',
             Hierarchy_is_complete E graph db
             = Ret (bool_decide (g_attrs graph !! "files_checksum" = Some (PStr fingerprint)),
                    db'))
      ∧ (∀ graph db b db',
           Hierarchy_is_complete E graph db = Ret (b, db') →
           b = true ↔ g_attrs graph !! "files_checksum" = Some (PStr fingerprint)).
Proof.
  set (cs := scan_checksums E [] (git_paths E)).
  exists (merge_sort String.le cs.*2).
  split; [apply Sorted_merge_sort, _|].
  split.
  { rewrite merge_sort_Permutation. unfold cs.
    rewrite <-(get_active_checksums_fst E false ∅). apply checksums_tracked. }
  assert (Hfc : ∀ refresh db,
             files_checksum_of E (get_active_checksums E refresh db).1
             = hash_str E (PyStr.join "" (merge_sort String.le cs.*2))).
  { intros. unfold files_checksum_of. by rewrite get_active_checksums_fst. }
  simpl. split; [|split].
  - intros old_graph refresh db cwd Hcwd.
    destruct (Hierarchy_annotate_returns E old_graph refresh db cwd Hcwd)
      as [[graph db'] Hann].
    exists graph, db'. split; [done|]. unfold Hierarchy_annotate in Hann.
    destruct (getitem _ "cwd") as [v|]; simpl in Hann; [|done].
    destruct (as_str v) as [cwd'|]; simpl in Hann; [|done].
    specialize (Hfc refresh db).
    destruct (get_active_checksums E refresh db) as [checksums db1]. simpl in Hfc.
    destruct (foldlM _ _ checksums) as [[g edges]|]; simpl in Hann; [|done].
    injection Hann as <- _. simpl. rewrite lookup_insert_eq. by rewrite Hfc.
  - intros graph db cwd Hcwd. unfold Hierarchy_is_complete, getitem. rewrite Hcwd. simpl.
    specialize (Hfc false db).
    destruct (get_active_checksums E false db) as [checksums db1]. simpl in Hfc.
    exists db1. by rewrite Hfc.
  - intros graph db b db' Hc. unfold Hierarchy_is_complete in Hc.
    destruct (getitem _ "cwd") as [v|]; simpl in Hc; [|done].
    destruct (as_str v) as [cwd|]; simpl in Hc; [|done].
    specialize (Hfc false db).
    destruct (get_active_checksums E false db) as [checksums db1]. simpl in Hfc.
    injection Hc as <- _. rewrite Hfc. apply bool_decide_eq_true.
Qed.

Lemma files_checksum_is_fingerprint_witness :
  ∃ sorted_checksums,
    Sorted String.le sorted_checksums
    ∧ sorted_checksums ≡ₚ tracked_checksums ex_repo
    ∧ (∃ graph db',
         Hierarchy_annotate ex_repo ex_graph0 false ex_db = Ret (graph, db')
         ∧ g_attrs graph !! "files_checksum"
           = Some (PStr (hash_str ex_repo (PyStr.join "" sorted_checksums))))
    ∧ ∃ db',
        Hierarchy_is_complete ex_repo ex_graph ex_store
        = Ret (bool_decide
                 (g_attrs ex_graph !! "files_checksum"
                  = Some (PStr (hash_str ex_repo (PyStr.join "" sorted_checksums)))),
               db').
Proof.
  destruct (files_checksum_is_fingerprint ex_repo)
    as (sorted_checksums & Hsorted & Hperm & Hannotate & Hcomplete & _).
  exists sorted_checksums. split; [exact Hsorted|]. split; [exact Hperm|]. split.
  - apply (Hannotate ex_graph0 false ex_db "/repo"). reflexivity.
  - apply (Hcomplete ex_graph ex_store "/repo"). vm_compute. reflexivity.
Defined.

(** ** The stages on a complete graph *)

Lemma Hierarchy_annotate_again E old_graph refresh db graph db1 cwd :
  g_attrs old_graph !! "cwd" = Some (PStr cwd) →
  path_norm E (path_norm E cwd) = path_norm E cwd →
  Hierarchy_annotate E old_graph refresh db = Ret (graph, db1) →
  Hierarchy_is_complete E graph db1 = Ret (true, db1)
  ∧ Hierarchy_annotate E graph false db1 = Ret (graph, db1).
Proof.
  intros Hcwd Hnorm Hann. unfold Hierarchy_annotate, getitem in Hann.
  rewrite Hcwd in Hann. simpl in Hann.
  destruct (get_active_checksums E refresh db) as [checksums db1'] eqn:Hget.
  apply get_active_checksums_store in Hget as [_ Hget].
  destruct (foldlM _ _ checksums) as [[g edges]|] eqn:Hloop; simpl in Hann; [|done].
  injection Hann as <- <-.
  pose proof (foldlM_add_file_node_attrs _ _ _ _ Hloop) as Hattrs. simpl in Hattrs.
  assert (Hcwd' : g_attrs (set_attr (foldl add_hierarchy_edge g (elements edges))
                             "files_checksum" (PStr (files_checksum_of E checksums)))
                  !! "cwd" = Some (PStr (path_norm E cwd))).
  { simpl. rewrite lookup_insert_ne by done.
    rewrite foldl_add_hierarchy_edge_attrs, Hattrs. by rewrite lookup_insert_eq. }
  split.
  - unfold Hierarchy_is_complete, getitem. rewrite Hcwd'. simpl. rewrite Hget.
    simpl. rewrite lookup_insert_eq. by rewrite bool_decide_eq_true_2.
  - unfold Hierarchy_annotate, getitem. rewrite Hcwd'. simpl. rewrite Hget, Hnorm.
    rewrite Hloop. done.
Qed.

Lemma foldlM_fixed {A B} (f : A → B → pyres A) a l :
  Forall (λ x, f a x = Ret a) l → foldlM f a l = Ret a.
Proof. induction 1 as [|x l Hx _ IH]; simpl; [done|]. by rewrite Hx. Qed.

Lemma chunks_is_None_list data l : data !! "chunks" = Some (PList l) → chunks_is_None data = false.
Proof.
  intros H. unfold chunks_is_None. apply bool_decide_eq_false_2.
  rewrite H. by intros [|].
Qed.

Lemma is_complete_nodes_no_chunks exts graph nodes :
  no_chunks_anywhere exts graph →
  Forall (λ nd, g_nodes graph !! nd.1 = Some nd.2) nodes →
  is_complete_nodes exts nodes = Ret true.
Proof.
  intros Hno. induction 1 as [|[file data] nodes Hnd _ IH]; simpl; [done|].
  destruct (is_file data) eqn:Hfile; simpl; [|done].
  destruct (Hno file data Hnd Hfile) as (ref & Href & Hsel).
  destruct (chunks_is_None data) eqn:Hnone; [|done].
  destruct exts as [exts|]; simpl in *.
  - unfold extension_matches, getitem. rewrite Href. simpl.
    case_bool_decide as Hin; [|done].
    by rewrite (chunks_is_None_list _ _ (Hsel Hin)) in Hnone.
  - by rewrite (chunks_is_None_list _ _ (Hsel I)) in Hnone.
Qed.

Lemma filter_extensions_no_chunks exts graph file_nodes :
  no_chunks_anywhere (Some exts) graph →
  Forall (λ nd, g_nodes graph !! nd.1 = Some nd.2 ∧ is_file nd.2 = true) file_nodes →
  ∃ selected,
    filter_extensions exts file_nodes = Ret selected
    ∧ Forall (λ nd, g_nodes graph !! nd.1 = Some nd.2
                    ∧ nd.2 !! "chunks" = Some (PList [])) selected.
Proof.
  intros Hno. induction 1 as [|[file data] nodes [Hnd Hfile] _ (selected & IH & Hsel)]; simpl.
  - by exists [].
  - destruct (Hno file data Hnd Hfile) as (ref & Href & Hchunks).
    unfold extension_matches, getitem. rewrite Href. simpl. rewrite IH. simpl.
    case_bool_decide as Hin; eexists; (split; [done|]); [|done].
    constructor; [|done]. split; [done|]. by apply Hchunks.
Qed.

Lemma Chunker_annotate_no_chunks E exts graph db cwd :
  g_attrs graph !! "cwd" = Some (PStr cwd) →
  no_chunks_anywhere exts graph →
  Chunker_is_complete exts graph = Ret true
  ∧ Chunker_annotate E exts graph false db = Ret (graph, db).
Proof.
  intros Hcwd Hno. split.
  { apply (is_complete_nodes_no_chunks exts graph); [done|].
    apply Forall_forall. intros [file data] Hin. by apply elem_of_map_to_list in Hin. }
  unfold Chunker_annotate, getitem. rewrite Hcwd. simpl.
  set (file_nodes := filter (λ nd, is_file nd.2) (map_to_list (g_nodes graph))).
  assert (Hfiles : Forall (λ nd, g_nodes graph !! nd.1 = Some nd.2 ∧ is_file nd.2 = true)
                     file_nodes).
  { apply Forall_forall. intros [file data] [Hfile Hin]%list_elem_of_filter.
    apply elem_of_map_to_list in Hin. split; [done|]. simpl in Hfile.
    by apply Is_true_true. }
  assert (∃ selected,
            match exts with
            | Some exts => filter_extensions exts file_nodes
            | None => Ret file_nodes
            end = Ret selected
            ∧ Forall (λ nd, g_nodes graph !! nd.1 = Some nd.2
                            ∧ nd.2 !! "chunks" = Some (PList [])) selected)
    as (selected & -> & Hsel).
  { destruct exts as [exts|]; [by apply (filter_extensions_no_chunks exts graph)|].
    exists file_nodes. split; [done|]. eapply Forall_impl; [exact Hfiles|].
    intros [file data] [Hnd Hfile]. split; [done|].
    destruct (Hno file data Hnd Hfile) as (ref & _ & Hchunks). by apply Hchunks. }
  simpl. rewrite (foldlM_fixed (chunk_task E false) (graph, db)); simpl.
  2:{ eapply Forall_impl; [exact Hsel|]. intros [file data] [_ Hchunks]. simpl in *.
      unfold chunk_task. by rewrite (chunks_is_None_list _ _ Hchunks). }
  rewrite (foldlM_fixed (load_file_chunks E db) (graph, [])); simpl; [done|].
  eapply Forall_impl; [exact Hsel|]. intros [file data] [Hnd Hchunks]. simpl in *.
  unfold load_file_chunks, add_file_chunks_to_graph, getitem. simpl.
  rewrite Hcwd. simpl. rewrite Hnd. simpl. rewrite Hchunks. simpl. done.
Qed.

Lemma ex_refresh_returns : ex_refresh = Ret (ex_graph, ex_store).
Proof. compute_done. Qed.

(** C3, as stated, fails for both stages. The graph of the example
    repository after a refresh is complete for [Hierarchy] and for
    [Chunker]. [Hierarchy.annotate] builds the graph of files and directories
    anew, without the chunk nodes; [Chunker.annotate] adds the hierarchy
    edges of the chunks once more. *)
Lemma annotate_on_complete_graph_counterexample :
  Hierarchy_is_complete ex_repo ex_graph ex_store = Ret (true, ex_store)
  ∧ Hierarchy_annotate ex_repo ex_graph false ex_store ≠ Ret (ex_graph, ex_store)
  ∧ is_Some (g_nodes ex_graph !! "f.py:foo")
  ∧ (r ← Hierarchy_annotate ex_repo ex_graph false ex_store;
     Ret (g_nodes r.1 !! "f.py:foo")) = Ret None
  ∧ Chunker_is_complete ex_exts ex_graph = Ret true
  ∧ Chunker_annotate ex_repo ex_exts ex_graph false ex_store ≠ Ret (ex_graph, ex_store)
  ∧ multiplicity ("f.py", "f.py:BASE", "hierarchy") (g_edges ex_graph) = 1%nat
  ∧ (r ← Chunker_annotate ex_repo ex_exts ex_graph false ex_store;
     Ret (multiplicity ("f.py", "f.py:BASE", "hierarchy") (g_edges r.1))) = Ret 2%nat.
Proof. compute_done. Qed.

(** C3, amended. On a graph that has a ["cwd"] (a normalized path),
    [Hierarchy.annotate] returns a graph and a store on which, the tracked
    files being the same, [Hierarchy.is_complete] is true and
    [Hierarchy.annotate] returns the same graph and store once more. On a
    graph in which every file node has a ["ref"] and every file that the
    stage chunks has the empty list of chunks, [Chunker.is_complete] is
    true and [Chunker.annotate] returns the graph and the store as they
    are. *)
Theorem annotate_on_own_result :
  (∀ E old_graph refresh db cwd,
     g_attrs old_graph !! "cwd" = Some (PStr cwd) →
     path_norm E (path_norm E cwd) = path_norm E cwd →
     ∃ graph db1,
       Hierarchy_annotate E old_graph refresh db = Ret (graph, db1)
       ∧ Hierarchy_is_complete E graph db1 = Ret (true, db1)
       ∧ Hierarchy_annotate E graph false db1 = Ret (graph, db1))
  ∧ (∀ E chunk_extensions graph db cwd,
       g_attrs graph !! "cwd" = Some (PStr cwd) →
       no_chunks_anywhere chunk_extensions graph →
       Chunker_is_complete chunk_extensions graph = Ret true
       ∧ Chunker_annotate E chunk_extensions graph false db = Ret (graph, db)).
Proof.
  split.
  - intros E old_graph refresh db cwd Hcwd Hnorm.
    destruct (Hierarchy_annotate_returns E old_graph refresh db cwd Hcwd)
      as [[graph db1] Hann].
    exists graph, db1. split; [done|]. by eapply Hierarchy_annotate_again.
  - intros. by eapply Chunker_annotate_no_chunks.
Qed.

Lemma annotate_on_own_result_witness :
  (∃ graph db1,
     Hierarchy_annotate ex_repo ex_graph0 false ex_db = Ret (graph, db1)
     ∧ Hierarchy_is_complete ex_repo graph db1 = Ret (true, db1)
     ∧ Hierarchy_annotate ex_repo graph false db1 = Ret (graph, db1))
  ∧ (no_chunks_anywhere ex_exts ex_empty_file_graph
     ∧ Chunker_is_complete ex_exts ex_empty_file_graph = Ret true
     ∧ Chunker_annotate ex_repo ex_exts ex_empty_file_graph false ex_db
       = Ret (ex_empty_file_graph, ex_db)).
Proof.
  destruct annotate_on_own_result as [Hhierarchy Hchunker].
  split.
  - apply (Hhierarchy ex_repo ex_graph0 false ex_db "/repo"); reflexivity.
  - assert (Hno : no_chunks_anywhere ex_exts ex_empty_file_graph).
    { intros file data Hnode _. simpl in Hnode.
      apply lookup_insert_Some in Hnode as [[_ <-]|[_ Hnode]]; [|done].
      exists "e.py". split; [reflexivity|]. intros _. reflexivity. }
    split; [exact Hno|].
    apply (Hchunker ex_repo ex_exts ex_empty_file_graph ex_db "/repo"); [reflexivity|exact Hno].
Defined.

(** ** The hierarchy edges of the chunks *)

Lemma link_to_base_chunk_edges base_id _id edges edges' :
  link_to_base_chunk base_id _id edges = Ret edges' →
  edges ⊆ edges'
  ∧ ∀ u v, (u, v) ∈ edges' → (u, v) ∈ edges ∨ u = base_id ∨ PyStr.count ":" u ≠ 0%nat.
Proof.
  funelim (link_to_base_chunk base_id _id edges); try done.
  - match goal with
    | |- context [bool_decide (?p ≠ base_id)] => set (_parent := p) in *
    end.
    assert (Hparent : PyStr.count ":" _parent ≠ 0%nat) by apply count_sep_app.
    case_bool_decide.
    + intros Hrec.
      match goal with
      | IH : ∀ e, _ = Ret e → _ |- _ => destruct (IH _ Hrec) as [Hsub Hsrc]
      end.
      split; [set_solver|].
      intros u v Huv. destruct (Hsrc u v Huv) as [Hin|Hu]; [|by right].
      apply elem_of_union in Hin as [Hin|Hin%elem_of_singleton]; [by left|].
      injection Hin as -> ->. right. by right.
    + intros [= <-]. split; [set_solver|].
      intros u v [Hin|Hin%elem_of_singleton]%elem_of_union; [by left|].
      injection Hin as -> ->. right. by right.
  - intros [= <-]. split; [set_solver|].
    intros u v [Hin|Hin%elem_of_singleton]%elem_of_union; [by left|].
    injection Hin as -> ->. right. by left.
Qed.

Lemma add_chunk_spec E refresh db file st chunk st' :
  add_chunk E refresh db (file +:+ ":BASE") st chunk = Ret st' →
  chunk_edges file st.1.2 →
  chunk_edges file st'.1.2
  ∧ g_edges st'.1.1 = g_edges st.1.1
  ∧ g_attrs st'.1.1 = g_attrs st.1.1
  ∧ dom (g_nodes st.1.1) ⊆ dom (g_nodes st'.1.1).
Proof.
  destruct st as [[g edges] add]. unfold add_chunk. simpl.
  destruct (chunk_record E refresh db chunk) as [[record new]|].
  2:{ intros [= <-]. done. }
  destruct (getitem record "id") as [rid_v|]; simpl; [|done].
  destruct (as_str rid_v) as [rid|]; simpl; [|done].
  destruct (link_to_base_chunk _ _ edges) as [edges'|] eqn:Hlink; simpl; [|done].
  intros [= <-] [Hbase Hsrc]. simpl.
  apply link_to_base_chunk_edges in Hlink as [Hsub Hnew].
  split; [|split; [done|split; [done|]]].
  - split; [set_solver|]. intros u v Huv.
    destruct (Hnew u v Huv) as [Hin|[->|Hu]]; [by apply Hsrc|right; by left|right; by right].
  - rewrite dom_insert. set_solver.
Qed.

Lemma foldlM_add_chunk_spec E refresh db file chunks :
  ∀ st st',
    foldlM (add_chunk E refresh db (file +:+ ":BASE")) st chunks = Ret st' →
    chunk_edges file st.1.2 →
    chunk_edges file st'.1.2
    ∧ g_edges st'.1.1 = g_edges st.1.1
    ∧ g_attrs st'.1.1 = g_attrs st.1.1
    ∧ dom (g_nodes st.1.1) ⊆ dom (g_nodes st'.1.1).
Proof.
  induction chunks as [|chunk chunks IH]; intros st st' Hfold Hinv; simpl in Hfold.
  - by injection Hfold as <-.
  - destruct (add_chunk _ _ _ _ st chunk) as [st1|] eqn:Hstep; simpl in Hfold; [|done].
    destruct (add_chunk_spec _ _ _ _ _ _ _ Hstep Hinv) as (Hinv1 & He1 & Ha1 & Hd1).
    destruct (IH _ _ Hfold Hinv1) as (Hinv' & He' & Ha' & Hd').
    split; [done|]. split; [congruence|]. split; [congruence|]. set_solver.
Qed.

Lemma foldl_add_chunk_edge_edges l g :
  g_edges (foldl add_chunk_edge g l)
  = g_edges g ⊎ list_to_set_disj ((λ e, (e.1, e.2, "hierarchy")) <$> l).
Proof.
  revert g. induction l as [|e l IH]; intros g.
  - rewrite fmap_nil, list_to_set_disj_nil. simpl. multiset_solver.
  - rewrite fmap_cons, list_to_set_disj_cons. simpl. rewrite IH. simpl.
    multiset_solver.
Qed.

Lemma foldl_add_chunk_edge_attrs l g :
  g_attrs (foldl add_chunk_edge g l) = g_attrs g.
Proof. revert g. induction l as [|e l IH]; intros g; simpl; [done|]. by rewrite IH. Qed.

Lemma foldl_add_chunk_edge_nodes l g :
  dom (g_nodes g) ⊆ dom (g_nodes (foldl add_chunk_edge g l))
  ∧ ∀ e, e ∈ l → e.2 ∈ dom (g_nodes (foldl add_chunk_edge g l)).
Proof.
  revert g. induction l as [|e l IH]; intros g; simpl.
  - split; [done|]. by intros e ?%elem_of_nil.
  - destruct (IH (add_chunk_edge g e)) as [Hsub Hin].
    assert (Hstep : dom (g_nodes g) ∪ {[ e.2 ]} ⊆ dom (g_nodes (add_chunk_edge g e))).
    { unfold add_chunk_edge, add_edge. simpl. rewrite !dom_insert. set_solver. }
    split; [set_solver|]. intros e' [->|He']%elem_of_cons; [set_solver|by apply Hin].
Qed.

Lemma multiplicity_list_to_set_disj_NoDup `{Countable A} (l : list A) x :
  NoDup l → multiplicity x (list_to_set_disj l) = if decide (x ∈ l) then 1%nat else 0%nat.
Proof.
  induction 1 as [|y l Hy Hnd IH].
  - rewrite list_to_set_disj_nil, multiplicity_empty. by rewrite decide_False by apply not_elem_of_nil.
  - rewrite list_to_set_disj_cons, multiplicity_disj_union, IH.
    destruct (decide (x = y)) as [->|Hne].
    + rewrite multiplicity_singleton, (decide_False (P := y ∈ l)) by done.
      rewrite decide_True by done. by rewrite decide_True by set_solver.
    + rewrite multiplicity_singleton_ne by done.
      destruct (decide (x ∈ l)).
      * by rewrite decide_True by set_solver.
      * rewrite decide_False; [done|]. by intros [?|?]%elem_of_cons.
Qed.

Lemma chunk_edge_multiplicity (edges : gset (string * string)) u v :
  multiplicity (u, v, "hierarchy")
    (list_to_set_disj ((λ e, (e.1, e.2, "hierarchy")) <$> elements edges) : gmultiset edge)
  = if decide ((u, v) ∈ edges) then 1%nat else 0%nat.
Proof.
  rewrite multiplicity_list_to_set_disj_NoDup.
  2:{ apply NoDup_fmap_2; [|apply NoDup_elements]. by intros [??] [??] [= -> ->]. }
  destruct (decide ((u, v) ∈ edges)) as [Hin|Hnin].
  - rewrite decide_True; [done|]. apply list_elem_of_fmap. exists (u, v).
    split; [done|]. by apply elem_of_elements.
  - rewrite decide_False; [done|]. intros ([u' v'] & [= -> ->] & Hin)%list_elem_of_fmap.
    by apply elem_of_elements in Hin.
Qed.

Lemma add_file_chunks_to_graph_spec E file graph db graph' add_to_db :
  add_file_chunks_to_graph E file graph false db = Ret (graph', add_to_db) →
  ∃ chunks,
    node_chunks E graph file = Ret chunks
    ∧ g_attrs graph' = g_attrs graph
    ∧ (chunks = [] → g_edges graph' = g_edges graph
                     ∧ dom (g_nodes graph') = dom (g_nodes graph))
    ∧ (chunks ≠ [] →
       ∃ edges,
         chunk_edges file edges
         ∧ g_edges graph'
           = g_edges graph
             ⊎ list_to_set_disj ((λ e, (e.1, e.2, "hierarchy")) <$> elements edges)
         ∧ ∀ e, e ∈ edges → e.2 ∈ dom (g_nodes graph')).
Proof.
  unfold add_file_chunks_to_graph, node_chunks.
  destruct (getitem (g_attrs graph) "cwd") as [cwd|]; simpl; [|done].
  destruct (as_str cwd); simpl; [|done].
  destruct (g_nodes graph !! file) as [data|] eqn:Hnode; simpl; [|done].
  destruct (getitem data "chunks") as [chunks_v|]; simpl; [|done].
  assert (∀ graph1 chunks,
            g_edges graph1 = g_edges graph → g_attrs graph1 = g_attrs graph →
            dom (g_nodes graph1) = dom (g_nodes graph) →
            (if negb false && bool_decide (chunks = []) then Ret (graph1, [])
             else
               foldlM (add_chunk E false db (file +:+ ":BASE"))
                      (graph1, {[ (file, file +:+ ":BASE") ]}, []) chunks
               ≫= λ '(graph, edges_to_add, add_to_db),
                    Ret (foldl add_chunk_edge graph (elements edges_to_add), add_to_db))
            = Ret (graph', add_to_db) →
            g_attrs graph' = g_attrs graph
            ∧ (chunks = [] → g_edges graph' = g_edges graph
                             ∧ dom (g_nodes graph') = dom (g_nodes graph))
            ∧ (chunks ≠ [] →
               ∃ edges,
                 chunk_edges file edges
                 ∧ g_edges graph'
                   = g_edges graph
                     ⊎ list_to_set_disj ((λ e, (e.1, e.2, "hierarchy")) <$> elements edges)
                 ∧ ∀ e, e ∈ edges → e.2 ∈ dom (g_nodes graph'))) as Hmain.
  { intros graph1 chunks He Ha Hd. simpl. case_bool_decide as Hnil.
    - intros [= <- _]. by subst.
    - destruct (foldlM _ _ chunks) as [[[g2 edges] add]|] eqn:Hfold; simpl; [|done].
      intros [= <- _].
      apply foldlM_add_chunk_spec in Hfold as (Hinv & He2 & Ha2 & _); simpl in *.
      2:{ split; [set_solver|]. intros u v ->%elem_of_singleton. by left. }
      split.
      { by rewrite foldl_add_chunk_edge_attrs, Ha2, Ha. }
      split; [done|]. intros _. exists edges. split; [done|]. split.
      + by rewrite foldl_add_chunk_edge_edges, He2, He.
      + intros e Hin. apply foldl_add_chunk_edge_nodes. by apply elem_of_elements. }
  destruct chunks_v as [| | |s|l]; simpl; try done.
  - destruct (json_loads E s) as [l|]; simpl; [|done]. intros Hrun.
    exists l. split; [done|]. apply (Hmain _ l) in Hrun; [done|done|done|].
    simpl. apply dom_alter_L.
  - intros Hrun. exists l. split; [done|]. by apply (Hmain graph l) in Hrun.
Qed.

Lemma get_file_chunk_data_base E node data db ds db' :
  get_file_chunk_data E node data db = Ret (ds, db') →
  ds = [] ∨ ∃ authors ref, ds = authors ++ [Descr (node +:+ ":BASE") ref].
Proof.
  unfold get_file_chunk_data.
  destruct (detect_chunks E node) as [[file_lines chunks]|]; simpl; [|done].
  unfold standardize. case_bool_decide; simpl.
  - destruct (getitem data "checksum") as [v|]; simpl; [|done].
    destruct (as_str v); simpl; [|done].
    destruct (list_getitem _ 0); simpl; [|done]. intros [= <- _]. by left.
  - destruct (discard_chunks _ chunks) as [base|]; simpl; [|done].
    destruct (mapM _ chunks) as [authors|]; simpl; [|done].
    destruct (getitem data "checksum") as [v|]; simpl; [|done].
    destruct (as_str v); simpl; [|done].
    destruct (list_getitem _ 0); simpl; [|done]. intros [= <- _].
    right. by eexists _, _.
Qed.

(** C5, as stated, fails: the empty file [e.py] has been decomposed, its
    ["chunks"] is the empty list and not null, but there is no node
    [e.py:BASE] and the file node has no child. *)
Lemma empty_file_has_no_base_chunk :
  ex_refresh = Ret (ex_graph, ex_store)
  ∧ g_nodes ex_graph !! "e.py" ≫= (.!! "chunks") = Some (PList [])
  ∧ g_nodes ex_graph !! "e.py:BASE" = None
  ∧ out_edges ex_graph "e.py" = [].
Proof. compute_done. Qed.

(** C5, amended. The list that [get_file_chunk_data] gives to a file is
    empty or ends with the chunk of id ["<path>:BASE"]. When
    [add_file_chunks_to_graph] returns for a file whose list of chunks is
    not empty, the graph has a node ["<path>:BASE"] and a hierarchy edge
    from the file to it; when moreover the path has no ":" and the file
    node had no child before, that node is the only child of the file, by
    one edge. When the list is empty, no node and no edge is added. *)
Theorem decomposed_file_has_base_child :
  (∀ E node data db ds db',
     get_file_chunk_data E node data db = Ret (ds, db') →
     ds = [] ∨ ∃ authors ref, ds = authors ++ [Descr (node +:+ ":BASE") ref])
  ∧ (∀ E file graph db graph' add_to_db,
       add_file_chunks_to_graph E file graph false db = Ret (graph', add_to_db) →
       ∃ chunks,
         node_chunks E graph file = Ret chunks
         ∧ (chunks = [] →
            g_edges graph' = g_edges graph ∧ dom (g_nodes graph') = dom (g_nodes graph))
         ∧ (chunks ≠ [] →
            hierarchy_edge graph' file (file +:+ ":BASE")
            ∧ is_Some (g_nodes graph' !! (file +:+ ":BASE"))
            ∧ (PyStr.count ":" file = 0%nat → (∀ v, ¬ hierarchy_edge graph file v) →
               (∀ v, hierarchy_edge graph' file v ↔ v = file +:+ ":BASE")
               ∧ multiplicity (file, file +:+ ":BASE", "hierarchy") (g_edges graph')
                 = 1%nat))).
Proof.
  split; [apply get_file_chunk_data_base|].
  intros E file graph db graph' add_to_db Hrun.
  apply add_file_chunks_to_graph_spec in Hrun as (chunks & Hchunks & _ & Hnil & Hcons).
  exists chunks. split; [done|]. split; [done|]. intros Hne.
  destruct (Hcons Hne) as (edges & [Hbase Hsrc] & Hedges & Hnodes).
  assert (Hmult : ∀ u v, multiplicity (u, v, "hierarchy") (g_edges graph')
                         = (multiplicity (u, v, "hierarchy") (g_edges graph)
                            + if decide ((u, v) ∈ edges) then 1 else 0)%nat).
  { intros u v. by rewrite Hedges, multiplicity_disj_union, chunk_edge_multiplicity. }
  split; [|split].
  - unfold hierarchy_edge. apply elem_of_multiplicity. rewrite Hmult.
    rewrite decide_True by done. lia.
  - apply elem_of_dom. by apply (Hnodes (file, file +:+ ":BASE")).
  - intros Hfile Hnone.
    assert (Hnone' : ∀ v, multiplicity (file, v, "hierarchy") (g_edges graph) = 0%nat).
    { intros v. apply not_elem_of_multiplicity. apply Hnone. }
    split.
    + intros v. unfold hierarchy_edge. rewrite elem_of_multiplicity, Hmult, Hnone'.
      split.
      * case_decide as Hin; [|lia]. intros _.
        destruct (Hsrc _ _ Hin) as [[= ->]|[Hf|Hf]]; [done|..].
        -- exfalso. pose proof (count_sep_app ":" file "BASE") as Hc.
           rewrite <-Hf in Hc. done.
        -- done.
      * intros ->. rewrite decide_True by done. lia.
    + rewrite Hmult, Hnone'. by rewrite decide_True.
Qed.

Lemma decomposed_file_has_base_child_witness :
  get_file_chunk_data ex_repo "f.py" ex_f_data ex_db = Ret (ex_f_chunks, ex_f_store)
  ∧ (ex_f_chunks = [] ∨ ∃ authors ref, ex_f_chunks = authors ++ [Descr "f.py:BASE" ref])
  ∧ add_file_chunks_to_graph ex_repo "f.py" ex_chunked_graph false ex_db
    = Ret (ex_loaded_graph, ex_loaded_batch)
  ∧ node_chunks ex_repo ex_chunked_graph "f.py" = Ret ex_f_chunks
  ∧ hierarchy_edge ex_loaded_graph "f.py" "f.py:BASE"
  ∧ is_Some (g_nodes ex_loaded_graph !! "f.py:BASE")
  ∧ (∀ v, hierarchy_edge ex_loaded_graph "f.py" v ↔ v = "f.py:BASE")
  ∧ multiplicity ("f.py", "f.py:BASE", "hierarchy") (g_edges ex_loaded_graph) = 1%nat.
Proof.
  destruct decomposed_file_has_base_child as [Hbase Hchild].
  assert (Hget : get_file_chunk_data ex_repo "f.py" ex_f_data ex_db
                 = Ret (ex_f_chunks, ex_f_store)) by compute_done.
  assert (Hrun : add_file_chunks_to_graph ex_repo "f.py" ex_chunked_graph false ex_db
                 = Ret (ex_loaded_graph, ex_loaded_batch)) by compute_done.
  assert (Hchunks : node_chunks ex_repo ex_chunked_graph "f.py" = Ret ex_f_chunks)
    by compute_done.
  split; [exact Hget|]. split; [exact (Hbase _ _ _ _ _ _ Hget)|].
  split; [exact Hrun|]. split; [exact Hchunks|].
  destruct (Hchild _ _ _ _ _ _ Hrun) as (chunks & Hchunks' & _ & Hcons).
  rewrite Hchunks in Hchunks'. injection Hchunks' as <-.
  destruct (Hcons ltac:(discriminate)) as (Hedge & Hnode & Hunique).
  split; [exact Hedge|]. split; [exact Hnode|].
  apply Hunique; [reflexivity|].
  intros v Hv. unfold hierarchy_edge in Hv.
  apply gmultiset_elem_of_elements in Hv. vm_compute in Hv.
  repeat (apply elem_of_cons in Hv as [[=]|Hv]). by apply elem_of_nil in Hv.
Defined.

(** ** The graph that [Hierarchy] builds is a forest below ROOT *)

Lemma split_join c (l : list string) :
  l ≠ [] → Forall (λ part, PyStr.count c part = 0%nat) l →
  PyStr.split c (PyStr.join (String c "") l) = l.
Proof.
  induction l as [|x [|y l] IH]; intros Hne Hall; [done|..].
  - simpl. apply split_no_sep. by apply Forall_cons in Hall as [? _].
  - apply Forall_cons in Hall as [Hx Hall].
    change (PyStr.join (String c "") (x :: y :: l))
      with (x +:+ String c (PyStr.join (String c "") (y :: l))).
    rewrite split_app by done. by rewrite IH.
Qed.

Lemma path_str_inj p q : wf_path p → wf_path q → path_str p = path_str q → p = q.
Proof.
  intros [Hp Hpc] [Hq Hqc] Heq.
  assert (Hstr : ∀ l : path, l ≠ [] → path_str l = PyStr.join "/" l) by (by intros []).
  rewrite !Hstr in Heq by done.
  rewrite <-(split_join "/" p), <-(split_join "/" q) by done. by rewrite Heq.
Qed.

Lemma wf_path_prefix p q : wf_path p → q `prefix_of` p → q ≠ [] → wf_path q.
Proof.
  intros [_ Hall] [k ->] Hq. split; [done|]. by apply Forall_app in Hall as [? _].
Qed.

Lemma path_parent_prefix p : path_parent p `prefix_of` p.
Proof.
  unfold path_parent. destruct p as [|part p _] using rev_ind; [done|].
  rewrite removelast_last. by exists [part].
Qed.

Lemma path_parent_nonempty p : (1 < length p)%nat → path_parent p ≠ [].
Proof.
  unfold path_parent. destruct p as [|part p _] using rev_ind; simpl; [lia|].
  rewrite removelast_last, length_app. simpl. intros Hlen ->. simpl in Hlen. lia.
Qed.

(** The edges that [_link_to_cwd] adds lead from ROOT down to the path. *)
Lemma link_to_cwd_spec p :
  ∀ edges,
    p ≠ [] →
    edges ⊆ link_to_cwd p edges
    ∧ (∀ R, link_to_cwd p edges ⊆ R → rtc (linked R) "ROOT" (path_str p))
    ∧ ∀ u v, (u, v) ∈ link_to_cwd p edges →
             (u, v) ∈ edges
             ∨ ((∀ R, link_to_cwd p edges ⊆ R → rtc (linked R) "ROOT" u)
                ∧ ∃ q, q `prefix_of` p ∧ q ≠ [] ∧ u = parent_str q ∧ v = path_str q).
Proof.
  induction p as [|part p IH] using rev_ind; intros edges Hne; [done|].
  simp link_to_cwd. unfold parent_str.
  destruct (decide (1 < length (p ++ [part]))%nat) as [Hlen|Hlen].
  - cbv zeta. unfold path_parent in *. rewrite removelast_last in *.
    assert (Hp : p ≠ []). { intros ->. simpl in Hlen. lia. }
    set (edges1 := edges ∪ {[ (path_str p, path_str (p ++ [part])) ]}).
    assert (Hself : ∀ q, q = p ++ [part] →
              (if bool_decide (1 < length q)%nat then path_str (removelast q) else "ROOT")
              = path_str p).
    { intros q ->. rewrite bool_decide_eq_true_2 by done. by rewrite removelast_last. }
    case_bool_decide as Hroot.
    + destruct (IH edges1 Hp) as (Hsub & Hreach & Hnew).
      split; [set_solver|]. split.
      * intros R HR. eapply rtc_r; [by apply Hreach|]. unfold linked. set_solver.
      * intros u v Huv. destruct (Hnew u v Huv) as [Hin|[Hu (q & Hq & Hqne & -> & ->)]].
        -- apply elem_of_union in Hin as [Hin|Hin%elem_of_singleton]; [by left|].
           injection Hin as -> ->. right. split; [done|].
           exists (p ++ [part]). split; [done|]. split; [done|]. by rewrite Hself.
        -- right. split; [done|]. exists q. split; [|done].
           etrans; [done|]. by exists [part].
    + split; [set_solver|]. split.
      * intros R HR. apply rtc_once. unfold linked. rewrite <-Hroot. set_solver.
      * intros u v [Hin|Hin%elem_of_singleton]%elem_of_union; [by left|].
        injection Hin as -> ->. right. split; [intros; by rewrite Hroot|].
        exists (p ++ [part]). split; [done|]. split; [done|]. by rewrite Hself.
  - split; [set_solver|]. split.
    + intros R HR. apply rtc_once. unfold linked. set_solver.
    + intros u v [Hin|Hin%elem_of_singleton]%elem_of_union; [by left|].
      injection Hin as -> ->. right. split; [done|].
      exists (p ++ [part]). split; [done|]. split; [done|].
      by rewrite bool_decide_eq_false_2.
Qed.

Lemma foldlM_add_file_node_spec db checksums :
  ∀ st st',
    Forall (λ pc : path * string, pc.1 ≠ []) checksums →
    foldlM (add_file_node db) st checksums = Ret st' →
    g_edges st'.1 = g_edges st.1
    ∧ st.2 ⊆ st'.2
    ∧ (∀ v, v ∈ dom (g_nodes st'.1) →
            v ∈ dom (g_nodes st.1) ∨ ∃ p, p ∈ checksums.*1 ∧ v = path_str p)
    ∧ (∀ R, st'.2 ⊆ R → ∀ p, p ∈ checksums.*1 → rtc (linked R) "ROOT" (path_str p))
    ∧ ∀ u v, (u, v) ∈ st'.2 →
             (u, v) ∈ st.2
             ∨ ((∀ R, st'.2 ⊆ R → rtc (linked R) "ROOT" u)
                ∧ ∃ p q, p ∈ checksums.*1 ∧ q `prefix_of` p ∧ q ≠ []
                         ∧ u = parent_str q ∧ v = path_str q).
Proof.
  induction checksums as [|[p c] checksums IH]; intros [g edges] st' Hne Hfold; simpl in *.
  - injection Hfold as <-. simpl. split; [done|]. split; [done|].
    split; [by left|]. split; [by intros ??? ?%elem_of_nil|]. by left.
  - apply Forall_cons in Hne as [Hp Hne]. simpl in Hp.
    destruct (list_getitem _ 0) as [record|]; simpl in Hfold; [|done].
    destruct (IH _ _ Hne Hfold) as (He & Hsub & Hdom & Hreach & Hnew). simpl in *.
    destruct (link_to_cwd_spec p edges Hp) as (Hsub1 & Hreach1 & Hnew1).
    split; [done|]. split; [set_solver|]. split; [|split].
    + intros v Hv. destruct (Hdom v Hv) as [Hin|(q & Hq & ->)].
      * rewrite dom_insert in Hin. apply elem_of_union in Hin as [->%elem_of_singleton|Hin].
        -- right. exists p. split; [by left|done].
        -- by left.
      * right. exists q. split; [by right|done].
    + intros R HR q [->|Hq]%elem_of_cons; [|by apply Hreach].
      apply Hreach1. set_solver.
    + intros u v Huv. destruct (Hnew u v Huv) as [Hin|[Hu (q & q' & Hq & Hrest)]].
      * destruct (Hnew1 u v Hin) as [?|[Hu (q & Hq & Hrest)]]; [by left|].
        right. split; [intros R HR; apply Hu; set_solver|].
        exists p, q. split; [by left|done].
      * right. split; [done|]. exists q, q'. split; [by right|done].
Qed.

Lemma foldl_add_hierarchy_edge_spec l g :
  g_edges (foldl add_hierarchy_edge g l)
  = g_edges g ⊎ list_to_set_disj ((λ e, (e.1, e.2, "hierarchy")) <$> l)
  ∧ ∀ v, v ∈ dom (g_nodes (foldl add_hierarchy_edge g l)) →
         v ∈ dom (g_nodes g) ∨ ∃ e, e ∈ l ∧ (v = e.1 ∨ v = e.2).
Proof.
  revert g. induction l as [|[s t] l IH]; intros g.
  - rewrite fmap_nil, list_to_set_disj_nil. simpl. split; [multiset_solver|by left].
  - rewrite fmap_cons, list_to_set_disj_cons.
    change (foldl add_hierarchy_edge g ((s, t) :: l))
      with (foldl add_hierarchy_edge (add_hierarchy_edge g (s, t)) l).
    destruct (IH (add_hierarchy_edge g (s, t))) as [-> Hdom]. split.
    + unfold add_hierarchy_edge, add_directory. simpl.
      repeat case_bool_decide; simpl; multiset_solver.
    + intros v Hv. destruct (Hdom v Hv) as [Hin|(e & He & Hve)].
      * assert (v ∈ dom (g_nodes g) ∨ v = s ∨ v = t) as [?|Hst]; [|by left|].
        { revert Hin. unfold add_hierarchy_edge, add_directory, add_edge. simpl.
          repeat case_bool_decide; simpl; rewrite ?dom_insert; set_solver. }
        right. exists (s, t). split; [by left|done].
      * right. exists e. split; [by right|done].
Qed.

Lemma elements_list_to_set_disj `{Countable A} (l : list A) :
  elements (list_to_set_disj l : gmultiset A) ≡ₚ l.
Proof.
  induction l as [|x l IH].
  - by rewrite list_to_set_disj_nil, gmultiset_elements_empty.
  - rewrite list_to_set_disj_cons, gmultiset_elements_disj_union.
    by rewrite gmultiset_elements_singleton, IH.
Qed.

Lemma length_filter_unique {A} (P : A → Prop) `{∀ x, Decision (P x)} (l : list A) :
  NoDup l → (∀ x y, x ∈ l → y ∈ l → P x → P y → x = y) →
  (length (filter P l) ≤ 1)%nat.
Proof.
  intros Hnd Huniq.
  destruct (filter P l) as [|x [|y k]] eqn:Hf; simpl; [lia..|].
  assert (Hnd' : NoDup (filter P l)) by by apply NoDup_filter.
  assert (Hx : x ∈ filter P l) by (rewrite Hf; set_solver).
  assert (Hy : y ∈ filter P l) by (rewrite Hf; set_solver).
  apply list_elem_of_filter in Hx as [Hpx Hx]. apply list_elem_of_filter in Hy as [Hpy Hy].
  rewrite Hf in Hnd'. apply NoDup_cons in Hnd' as [Hxy _].
  exfalso. apply Hxy. rewrite (Huniq x y Hx Hy Hpx Hpy). by left.
Qed.

(** After [Hierarchy.annotate] alone, the tracked paths being well formed,
    every node has at most one incoming hierarchy edge and ROOT leads to
    every node, all of which are files and directories. *)
Lemma hierarchy_is_forest E old_graph refresh db graph db' :
  Forall wf_path (git_paths E) →
  Hierarchy_annotate E old_graph refresh db = Ret (graph, db') →
  (∀ v, in_degree graph v ≤ 1)%nat
  ∧ ∀ v, v ∈ dom (g_nodes graph) → rtc (hierarchy_edge graph) "ROOT" v.
Proof.
  intros Hwf Hann. unfold Hierarchy_annotate in Hann.
  destruct (getitem _ "cwd") as [cwd_v|]; simpl in Hann; [|done].
  destruct (as_str cwd_v) as [cwd|]; simpl in Hann; [|done].
  pose proof (get_active_checksums_fst E refresh db) as Hcs.
  destruct (get_active_checksums E refresh db) as [checksums db1]. simpl in Hcs.
  destruct (foldlM _ _ checksums) as [[g edges]|] eqn:Hloop; simpl in Hann; [|done].
  injection Hann as <- _.
  assert (Hpaths : ∀ p, p ∈ checksums.*1 → wf_path p).
  { intros p ([p' c] & -> & Hin)%list_elem_of_fmap. simpl.
    destruct (scan_checksums_spec E (git_paths E) []) as [_ Hspec];
      [constructor|by intros ?? ?%elem_of_nil|].
    rewrite <-Hcs in Hspec. apply Hspec in Hin as [_ [Hin|[]%elem_of_nil]].
    by apply (proj1 (Forall_forall _ _) Hwf). }
  apply foldlM_add_file_node_spec in Hloop as (He & _ & Hdom & Hreach & Hnew).
  2:{ apply Forall_forall. intros [p c] Hin. apply Hpaths.
      apply list_elem_of_fmap. by exists (p, c). }
  simpl in *.
  destruct (foldl_add_hierarchy_edge_spec (elements edges) g) as [Hedges Hnodes].
  rewrite He in Hedges.
  assert (Hedge : ∀ u v, hierarchy_edge
                    (set_attr (foldl add_hierarchy_edge g (elements edges))
                       "files_checksum" (PStr (files_checksum_of E checksums))) u v
                  ↔ linked edges u v).
  { intros u v. unfold hierarchy_edge, linked. simpl. rewrite Hedges.
    rewrite gmultiset_elem_of_disj_union, elem_of_list_to_set_disj, list_elem_of_fmap.
    split.
    - intros [Hin|([u' v'] & [= -> ->] & Hin)]; [multiset_solver|].
      by apply elem_of_elements in Hin.
    - intros Hin. right. exists (u, v). split; [done|]. by apply elem_of_elements. }
  split.
  - intros v. unfold in_degree, in_edges. simpl. rewrite Hedges.
    assert (Hempty : (∅ ⊎ list_to_set_disj ((λ e, (e.1, e.2, "hierarchy")) <$> elements edges)
                      : gmultiset edge)
                     = list_to_set_disj ((λ e, (e.1, e.2, "hierarchy")) <$> elements edges))
      by multiset_solver.
    rewrite Hempty, elements_list_to_set_disj.
    apply length_filter_unique.
    + apply NoDup_fmap_2; [|apply NoDup_elements]. by intros [??] [??] [= -> ->].
    + intros x y ([u1 v1] & -> & H1%elem_of_elements)%list_elem_of_fmap
                 ([u2 v2] & -> & H2%elem_of_elements)%list_elem_of_fmap.
      simpl. intros [-> _] [-> _].
      destruct (Hnew _ _ H1) as [[]%elem_of_empty|[_ (p1 & q1 & Hp1 & Hq1 & Hne1 & -> & Hv1)]].
      destruct (Hnew _ _ H2) as [[]%elem_of_empty|[_ (p2 & q2 & Hp2 & Hq2 & Hne2 & -> & Hv2)]].
      assert (q1 = q2) as ->; [|done].
      apply path_str_inj; [by apply (wf_path_prefix p1); auto
                          |by apply (wf_path_prefix p2); auto|congruence].
  - intros v Hv. simpl in Hv.
    eapply rtc_subrel; [intros u w Huw; by apply Hedge|].
    destruct (Hnodes v Hv) as [Hin|([s t] & Hin%elem_of_elements & Hst)].
    + destruct (Hdom v Hin) as [Hin'|(p & Hp & ->)]; [|by apply Hreach].
      by rewrite dom_empty in Hin'.
    + destruct (Hnew _ _ Hin) as [[]%elem_of_empty|[Hs _]]. simpl in Hst.
      destruct Hst as [->| ->]; [by apply Hs|]. eapply rtc_r; [by apply Hs|done].
Qed.

(** C4 (a defect of the code): after [Hierarchy] and then [Chunker] on the
    example repository, the node [f.py:BASE] has two incoming hierarchy
    edges, one from the file and one from itself: the loop of
    [add_file_chunks_to_graph] links every chunk of the file to its parent,
    the BASE chunk too, whose parent by [_link_to_base_chunk] is BASE. *)
Theorem base_chunk_has_two_incoming_edges :
  ex_refresh = Ret (ex_graph, ex_store)
  ∧ hierarchy_edge ex_graph "f.py" "f.py:BASE"
  ∧ hierarchy_edge ex_graph "f.py:BASE" "f.py:BASE"
  ∧ in_degree ex_graph "f.py:BASE" = 2%nat.
Proof. compute_done. Qed.

(** * Further properties *)

(** ** The runs of the lines of the BASE chunk *)

Lemma Sorted_le_lt (l : list Z) : Sorted Z.le l → NoDup l → Sorted Z.lt l.
Proof.
  intros Hs%Sorted_StronglySorted Hnd; [|apply _].
  induction Hs as [|x l Hl IH Hx]; [constructor|].
  apply NoDup_cons in Hnd as [Hnx Hnd].
  constructor; [by apply IH|].
  destruct l as [|y l]; constructor.
  apply Forall_cons in Hx as [Hxy _].
  assert (x ≠ y) by (intros ->; apply Hnx; left). lia.
Qed.

Lemma sorted_lines_lt (lines : gset Z) : Sorted Z.lt (merge_sort Z.le (elements lines)).
Proof.
  apply Sorted_le_lt; [apply Sorted_merge_sort, _|].
  rewrite merge_sort_Permutation. apply NoDup_elements.
Qed.

Lemma group_runs_shape rest :
  ∀ start end_ refs,
    start ≤ end_ → Sorted Z.lt (end_ :: rest) →
    Sorted run_before refs → Forall proper_run refs →
    (∀ r, last refs = Some r → run_end r + 1 < start) →
    ∃ init s e,
      group_runs start end_ rest refs = init ++ [Span s e]
      ∧ s ≤ e ∧ Forall proper_run init ∧ Sorted run_before (init ++ [Span s e]).
Proof.
  induction rest as [|i rest IH]; intros start end_ refs Hle Hs Hrefs Hproper Hlast; simpl.
  - exists refs, start, end_. repeat split; try done.
    apply Sorted_snoc; [done|].
    destruct refs as [|r refs _] using rev_ind; constructor.
    apply Hlast. by rewrite last_snoc.
  - apply Sorted_inv in Hs as [Hs Hhd]. apply HdRel_inv in Hhd.
    case_bool_decide as Hi.
    + apply IH; try done; lia.
    + apply IH.
      * lia.
      * done.
      * apply Sorted_snoc; [done|].
        destruct refs as [|r refs _] using rev_ind; constructor.
        unfold run_before. specialize (Hlast r). rewrite last_snoc in Hlast.
        case_bool_decide; simpl; by apply Hlast.
      * apply Forall_app. split; [done|]. constructor; [|done].
        case_bool_decide; simpl; [done|lia].
      * intros r. rewrite last_snoc. intros [= <-]. case_bool_decide; simpl; lia.
Qed.

Lemma base_chunk_runs_shape (lines : gset Z) :
  runs_lines (base_chunk_runs lines) = lines
  ∧ Sorted run_before (base_chunk_runs lines)
  ∧ (lines = ∅ → base_chunk_runs lines = [])
  ∧ (lines ≠ ∅ →
     ∃ init start end_,
       base_chunk_runs lines = init ++ [Span start end_]
       ∧ start ≤ end_ ∧ Forall proper_run init).
Proof.
  split; [apply base_chunk_runs_lines|].
  unfold base_chunk_runs.
  pose proof (sorted_lines_lt lines) as Hs.
  pose proof (merge_sort_Permutation Z.le (elements lines)) as Hp.
  destruct (merge_sort Z.le (elements lines)) as [|start rest].
  - split; [constructor|]. split; [done|]. intros Hne. exfalso. apply Hne.
    apply Permutation_nil_l in Hp. symmetry in Hp. apply elements_empty_inv in Hp.
    by apply leibniz_equiv in Hp.
  - destruct (group_runs_shape rest start start []) as (init & s & e & -> & Hle & Hpr & Hsorted);
      try done; try (by constructor).
    split; [done|]. split.
    + intros ->. rewrite elements_empty in Hp. by apply Permutation_nil_r in Hp.
    + intros _. by exists init, s, e.
Qed.

(** X1. The entries of [base_chunk_refs] are the maximal runs of the lines
    left to BASE, in increasing order: they cover exactly these lines, a gap
    of at least one line lies between two entries that follow each other,
    every entry but the last is ["n"] for one line and ["start-end"] for
    more, and the last one is always written ["start-end"]. No line left
    gives no entry. *)
Theorem base_chunk_runs_maximal (lines : gset Z) :
  runs_lines (base_chunk_runs lines) = lines
  ∧ Sorted run_before (base_chunk_runs lines)
  ∧ (lines = ∅ → base_chunk_runs lines = [])
  ∧ (lines ≠ ∅ →
     ∃ init start end_,
       base_chunk_runs lines = init ++ [Span start end_]
       ∧ start ≤ end_ ∧ Forall proper_run init).
Proof. apply base_chunk_runs_shape. Qed.

(** ** The refs of the chunks, read by the context assembler *)

Lemma count_pretty_N_go c x s :
  (∀ d, pretty_N_char d ≠ c) → PyStr.count c (pretty_N_go x s) = PyStr.count c s.
Proof.
  intros Hc. revert s. induction (N.lt_wf_0 x) as [x _ IH]; intros s.
  assert (x = 0 ∨ 0 < x)%N as [->|Hx] by lia; [by rewrite pretty_N_go_0|].
  rewrite pretty_N_go_step by done. rewrite IH by (by apply N.div_lt).
  simpl. by rewrite decide_False.
Qed.

Lemma count_pretty c (z : Z) :
  (∀ d, pretty_N_char d ≠ c) → 0 ≤ z → PyStr.count c (pretty z) = 0%nat.
Proof.
  intros Hc Hz. destruct z as [|p|p]; [| |lia].
  - simpl. rewrite decide_False; [done|]. apply (Hc 0%N).
  - change (pretty (Z.pos p)) with (pretty (N.pos p)). unfold pretty, pretty_N.
    rewrite decide_False by done. by rewrite count_pretty_N_go.
Qed.

Lemma pretty_N_go_nonempty x s : s ≠ "" → pretty_N_go x s ≠ "".
Proof.
  revert s. induction (N.lt_wf_0 x) as [x _ IH]; intros s Hs.
  assert (x = 0 ∨ 0 < x)%N as [->|Hx] by lia; [by rewrite pretty_N_go_0|].
  rewrite pretty_N_go_step by done. apply IH; [by apply N.div_lt|done].
Qed.

Lemma pretty_nonempty (z : Z) : 0 ≤ z → pretty z ≠ "".
Proof.
  intros Hz. destruct z as [|p|p]; [done| |lia].
  change (pretty (Z.pos p)) with (pretty (N.pos p)). unfold pretty, pretty_N.
  rewrite decide_False by done.
  rewrite pretty_N_go_step by lia. by apply pretty_N_go_nonempty.
Qed.

Lemma digit_not_dash d : pretty_N_char d ≠ "-"%char.
Proof. unfold pretty_N_char. by repeat case_match. Qed.
Lemma digit_not_comma d : pretty_N_char d ≠ ","%char.
Proof. unfold pretty_N_char. by repeat case_match. Qed.

Lemma append_nil_r (s : string) : s +:+ "" = s.
Proof.
  induction s as [|a s IH]; [done|].
  change (String a s +:+ "") with (String a (s +:+ "")). by rewrite IH.
Qed.

Lemma append_nonempty (a b : string) : a ≠ "" → a +:+ b ≠ "".
Proof. by destruct a. Qed.

Lemma split1_app c a b :
  PyStr.count c a = 0%nat → PyStr.split1 c (a +:+ String c b) = [a; b].
Proof.
  induction a as [|x a IH]; simpl.
  - intros _. by rewrite decide_True.
  - case_decide; [done|]. intros Hc. by rewrite IH.
Qed.

Lemma split_ref_lines node lines_ref :
  PyStr.count ":" node = 0%nat →
  split_ref (node +:+ ":" +:+ lines_ref) = (node, Some lines_ref).
Proof.
  intros Hc. unfold split_ref, PyStr.contains.
  change (":" +:+ lines_ref) with (String ":" lines_ref).
  rewrite bool_decide_eq_true_2 by apply count_sep_app.
  by rewrite split1_app.
Qed.

Lemma split_ref_bare node : PyStr.count ":" node = 0%nat → split_ref node = (node, None).
Proof.
  intros Hc. unfold split_ref, PyStr.contains. rewrite Hc.
  by rewrite bool_decide_eq_false_2 by (intros H; by apply H).
Qed.

Lemma format_run_no_comma r :
  0 ≤ run_start r → 0 ≤ run_end r → PyStr.count "," (format_run r) = 0%nat.
Proof.
  destruct r as [s|s e]; simpl; intros Hs He.
  - by apply count_pretty; [apply digit_not_comma|].
  - change ("-" +:+ pretty e) with (String "-" (pretty e)).
    rewrite count_app. simpl.
    by rewrite !count_pretty by (apply digit_not_comma || done).
Qed.

Lemma format_run_nonempty r : 0 ≤ run_start r → format_run r ≠ "".
Proof.
  destruct r as [s|s e]; simpl; intros Hs.
  - by apply pretty_nonempty.
  - by apply append_nonempty, pretty_nonempty.
Qed.

Lemma add_range_run E lines r :
  readable_run E r → add_range E lines (format_run r) = Ret (lines ∪ run_lines r).
Proof.
  intros (Hs & He & Hints & Hinte). unfold add_range, PyStr.contains.
  destruct r as [s|s e]; simpl in *.
  - rewrite count_pretty by (apply digit_not_dash || done).
    rewrite bool_decide_eq_false_2 by (intros H; by apply H).
    by rewrite Hints.
  - change ("-" +:+ pretty e) with (String "-" (pretty e)).
    rewrite bool_decide_eq_true_2 by apply count_sep_app.
    rewrite split_app by (by apply count_pretty; [apply digit_not_dash|]).
    rewrite split_no_sep by (by apply count_pretty; [apply digit_not_dash|]).
    by rewrite Hints, Hinte.
Qed.

Lemma foldlM_add_range E runs :
  ∀ lines, Forall (readable_run E) runs →
  foldlM (add_range E) lines (format_run <$> runs) = Ret (lines ∪ runs_lines runs).
Proof.
  induction runs as [|r runs IH]; intros lines Hr; simpl.
  - unfold runs_lines. simpl. f_equal. set_solver.
  - apply Forall_cons in Hr as [Hr Hrs].
    rewrite add_range_run by done. simpl. rewrite IH by done.
    unfold runs_lines. simpl. f_equal. set_solver.
Qed.

Lemma join_nonempty sep (l : list string) x :
  l !! 0%nat = Some x → x ≠ "" → PyStr.join sep l ≠ "".
Proof.
  destruct l as [|y [|z l]]; simpl; intros [= ->] Hx; [done|].
  by apply append_nonempty.
Qed.

Lemma add_lines_runs E data runs :
  runs ≠ [] → Forall (readable_run E) runs →
  add_lines E data (Some (PyStr.join "," (format_run <$> runs)))
  = Ret {| m_id := m_id data; m_lines := m_lines data ∪ runs_lines runs;
           m_tags := m_tags data; m_document := m_document data |}.
Proof.
  intros Hne Hr. unfold add_lines.
  rewrite bool_decide_eq_true_2.
  2:{ destruct runs as [|r runs]; [done|].
      apply Forall_cons in Hr as [(Hs & _) _].
      eapply join_nonempty; [done|]. by apply format_run_nonempty. }
  rewrite (split_join ","%char).
  - by rewrite foldlM_add_range.
  - by destruct runs.
  - apply Forall_fmap. eapply Forall_impl; [exact Hr|].
    intros r (Hs & He & _). by apply format_run_no_comma.
Qed.

Lemma base_chunk_runs_bounds (lines : gset Z) r :
  r ∈ base_chunk_runs lines → run_start r ∈ lines ∧ run_end r ∈ lines.
Proof.
  intros Hr.
  destruct (base_chunk_runs_shape lines) as (Hcover & _ & Hempty & Hshape).
  destruct (decide (lines = ∅)) as [->|Hne];
    [rewrite Hempty in Hr by done; by apply elem_of_nil in Hr|].
  destruct (Hshape Hne) as (init & s & e & Heq & Hle & Hproper).
  assert (Hok : run_start r ≤ run_end r).
  { rewrite Heq in Hr. apply elem_of_app in Hr as [Hr|Hr%list_elem_of_singleton].
    - rewrite Forall_forall in Hproper. specialize (Hproper r Hr).
      destruct r; simpl in *; lia.
    - subst r. done. }
  assert (Hsub : run_lines r ⊆ lines).
  { intros x Hx. rewrite <-Hcover. unfold runs_lines. apply elem_of_union_list.
    exists (run_lines r). split; [|done]. apply list_elem_of_fmap. eauto. }
  split; apply Hsub; destruct r; simpl in *; set_unfold; lia.
Qed.


(** ** The chunks below BASE *)

Lemma add_file_chunks_to_graph_unfold E file graph db graph' add_to_db :
  add_file_chunks_to_graph E file graph false db = Ret (graph', add_to_db) →
  ∃ chunks graph1,
    node_chunks E graph file = Ret chunks
    ∧ (graph1 = graph ∨ graph1 = set_node_attr graph file "chunks" (PList chunks))
    ∧ (chunks = [] → graph' = graph1 ∧ add_to_db = [])
    ∧ (chunks ≠ [] →
       ∃ g2 edges,
         foldlM (add_chunk E false db (file +:+ ":BASE"))
                (graph1, {[ (file, file +:+ ":BASE") ]}, []) chunks
         = Ret (g2, edges, add_to_db)
         ∧ graph' = foldl add_chunk_edge g2 (elements edges)).
Proof.
  unfold add_file_chunks_to_graph, node_chunks.
  destruct (getitem (g_attrs graph) "cwd") as [cwd|]; simpl; [|done].
  destruct (as_str cwd); simpl; [|done].
  destruct (g_nodes graph !! file) as [data|] eqn:Hnode; simpl; [|done].
  destruct (getitem data "chunks") as [chunks_v|]; simpl; [|done].
  assert (∀ graph1 chunks,
            (if negb false && bool_decide (chunks = []) then Ret (graph1, [])
             else
               foldlM (add_chunk E false db (file +:+ ":BASE"))
                      (graph1, {[ (file, file +:+ ":BASE") ]}, []) chunks
               ≫= λ '(graph, edges_to_add, add_to_db),
                    Ret (foldl add_chunk_edge graph (elements edges_to_add), add_to_db))
            = Ret (graph', add_to_db) →
            (chunks = [] → graph' = graph1 ∧ add_to_db = [])
            ∧ (chunks ≠ [] →
               ∃ g2 edges,
                 foldlM (add_chunk E false db (file +:+ ":BASE"))
                        (graph1, {[ (file, file +:+ ":BASE") ]}, []) chunks
                 = Ret (g2, edges, add_to_db)
                 ∧ graph' = foldl add_chunk_edge g2 (elements edges))) as Hmain.
  { intros graph1 chunks. simpl. case_bool_decide as Hnil.
    - intros [= <- <-]. done.
    - destruct (foldlM _ _ chunks) as [[[g2 edges] add]|] eqn:Hfold; simpl; [|done].
      intros [= <- <-]. split; [done|]. intros _. by exists g2, edges. }
  destruct chunks_v as [| | |s|l]; simpl; try done.
  - destruct (json_loads E s) as [l|]; simpl; [|done]. intros Hrun.
    exists l, (set_node_attr graph file "chunks" (PList l)).
    split; [done|]. split; [by right|]. by apply Hmain.
  - intros Hrun. exists l, graph. split; [done|]. split; [by left|]. by apply Hmain.
Qed.

Lemma rtc_linked_mono (edges edges' : gset (string * string)) u v :
  edges ⊆ edges' → rtc (linked edges) u v → rtc (linked edges') u v.
Proof.
  intros Hsub. apply rtc_subrel. intros x y Hxy. unfold linked in *. set_solver.
Qed.

Lemma link_to_base_chunk_reaches base_id _id edges edges' :
  link_to_base_chunk base_id _id edges = Ret edges' → rtc (linked edges') base_id _id.
Proof.
  funelim (link_to_base_chunk base_id _id edges); try done.
  - match goal with
    | |- context [bool_decide (?p ≠ base_id)] => set (_parent := p) in *
    end.
    case_bool_decide as Hp.
    + intros Hrec.
      match goal with
      | IH : ∀ e, _ = Ret e → _ |- _ => pose proof (IH _ Hrec) as Hreach
      end.
      apply link_to_base_chunk_edges in Hrec as [Hsub _].
      eapply rtc_r; [exact Hreach|]. unfold linked. set_solver.
    + intros [= <-]. rewrite <-Hp.
      apply rtc_once. unfold linked. set_solver.
  - intros [= <-]. apply rtc_once. unfold linked. set_solver.
Qed.

Lemma chunk_record_None E refresh db chunk :
  chunk_record E refresh db chunk = None → ¬ returns (get_document E (d_ref chunk)).
Proof.
  unfold chunk_record. intros Hrec [document Hdoc]. rewrite Hdoc in Hrec.
  destruct (db_metadatas db (hash_str E document)); [done|]. by destruct refresh.
Qed.

Lemma foldlM_add_chunk_reaches E db base_id chunks :
  ∀ st st',
    foldlM (add_chunk E false db base_id) st chunks = Ret st' →
    st.1.2 ⊆ st'.1.2
    ∧ ∀ chunk, chunk ∈ chunks → returns (get_document E (d_ref chunk)) →
               rtc (linked st'.1.2) base_id (d_id chunk).
Proof.
  induction chunks as [|chunk chunks IH]; intros st st' Hfold; simpl in Hfold.
  - injection Hfold as <-. split; [done|]. by intros c ?%elem_of_nil.
  - destruct (add_chunk _ _ _ _ st chunk) as [st1|] eqn:Hstep; simpl in Hfold; [|done].
    destruct (IH _ _ Hfold) as [Hsub Hreach].
    assert (Hstep' : st.1.2 ⊆ st1.1.2
                     ∧ (returns (get_document E (d_ref chunk)) →
                        rtc (linked st1.1.2) base_id (d_id chunk))).
    { destruct st as [[g edges] add]. unfold add_chunk in Hstep.
      destruct (chunk_record E false db chunk) as [[record new]|] eqn:Hrec.
      2:{ injection Hstep as <-. split; [done|]. intros Hdoc.
          by apply chunk_record_None in Hrec. }
      destruct (getitem record "id") as [rid_v|]; simpl in Hstep; [|done].
      destruct (as_str rid_v) as [rid|]; simpl in Hstep; [|done].
      destruct (link_to_base_chunk _ _ edges) as [edges'|] eqn:Hlink; simpl in Hstep; [|done].
      injection Hstep as <-. simpl. split.
      - by apply link_to_base_chunk_edges in Hlink as [? _].
      - intros _. by eapply link_to_base_chunk_reaches. }
    destruct Hstep' as [Hsub1 Hreach1].
    split; [set_solver|].
    intros c [->|Hc]%elem_of_cons Hdoc.
    + eapply rtc_linked_mono; [exact Hsub|]. by apply Hreach1.
    + by apply Hreach.
Qed.

Lemma hierarchy_edge_foldl_add_chunk_edge (g : Graph) (edges : gset (string * string)) u v :
  (u, v) ∈ edges → hierarchy_edge (foldl add_chunk_edge g (elements edges)) u v.
Proof.
  intros Hin. unfold hierarchy_edge. rewrite foldl_add_chunk_edge_edges.
  apply gmultiset_elem_of_disj_union. right.
  apply elem_of_list_to_set_disj, list_elem_of_fmap.
  exists (u, v). split; [done|]. by apply elem_of_elements.
Qed.

(** X3. When [add_file_chunks_to_graph] returns for a file with chunks, the
    file node is an ancestor of every chunk whose document could be read:
    there is the hierarchy edge from the file to [<file>:BASE], and
    hierarchy edges lead from [<file>:BASE] to the chunk, through the ids
    that its dotted chunk path has for prefixes. *)
Theorem file_is_ancestor_of_its_chunks E file graph db graph' add_to_db chunks :
  add_file_chunks_to_graph E file graph false db = Ret (graph', add_to_db) →
  node_chunks E graph file = Ret chunks →
  chunks ≠ [] →
  hierarchy_edge graph' file (file +:+ ":BASE")
  ∧ ∀ chunk, chunk ∈ chunks → returns (get_document E (d_ref chunk)) →
             rtc (hierarchy_edge graph') (file +:+ ":BASE") (d_id chunk).
Proof.
  intros Hrun Hchunks Hne.
  apply add_file_chunks_to_graph_unfold in Hrun
    as (chunks' & graph1 & Hchunks' & _ & _ & Hrun).
  rewrite Hchunks in Hchunks'. injection Hchunks' as <-.
  destruct (Hrun Hne) as (g2 & edges & Hfold & ->).
  apply foldlM_add_chunk_reaches in Hfold as [Hsub Hreach]. simpl in *.
  split.
  - apply hierarchy_edge_foldl_add_chunk_edge. set_solver.
  - intros chunk Hin Hdoc.
    eapply rtc_subrel; [|by apply Hreach].
    intros x y Hxy. by apply hierarchy_edge_foldl_add_chunk_edge.
Qed.

(** ** The graph of [Hierarchy] *)

(** X4. On a graph with a ["cwd"], when every tracked path is a relative
    path of at least one part, [Hierarchy.annotate] returns a graph whose
    hierarchy edges are a tree below [ROOT]: no node has more than one
    incoming edge, parallel edges counted, and [ROOT] is an ancestor of
    every node. *)
Theorem hierarchy_annotate_builds_tree E old_graph refresh db cwd :
  g_attrs old_graph !! "cwd" = Some (PStr cwd) →
  Forall wf_path (git_paths E) →
  ∃ graph db',
    Hierarchy_annotate E old_graph refresh db = Ret (graph, db')
    ∧ (∀ v, in_degree graph v ≤ 1)%nat
    ∧ ∀ v, v ∈ dom (g_nodes graph) → rtc (hierarchy_edge graph) "ROOT" v.
Proof.
  intros Hcwd Hwf.
  destruct (Hierarchy_annotate_returns E old_graph refresh db cwd Hcwd) as [[graph db'] Hann].
  exists graph, db'. split; [done|]. by eapply hierarchy_is_forest.
Qed.

(** ** The fingerprint and the paths *)

Lemma files_checksum_of_perm E E' cs cs' :
  (∀ s, hash_str E s = hash_str E' s) → cs.*2 ≡ₚ cs'.*2 →
  files_checksum_of E cs = files_checksum_of E' cs'.
Proof.
  intros Hhash Hperm. unfold files_checksum_of. rewrite Hhash. do 2 f_equal.
  apply (Sorted_unique String.le); try apply Sorted_merge_sort; try apply _.
  by rewrite !merge_sort_Permutation.
Qed.

(** X5. [Hierarchy.is_complete] sees the contents of the tracked files and
    nothing else: two states of the repository with the same checksums,
    counted with their multiplicity (a file renamed or moved, the contents
    of two files exchanged), get the same answer on every graph. *)
Theorem is_complete_ignores_paths E E' graph db db' cwd :
  g_attrs graph !! "cwd" = Some (PStr cwd) →
  (∀ s, hash_str E s = hash_str E' s) →
  tracked_checksums E ≡ₚ tracked_checksums E' →
  ∃ complete db1 db1',
    Hierarchy_is_complete E graph db = Ret (complete, db1)
    ∧ Hierarchy_is_complete E' graph db' = Ret (complete, db1').
Proof.
  intros Hcwd Hhash Hperm. unfold Hierarchy_is_complete, getitem. rewrite Hcwd. simpl.
  pose proof (checksums_tracked E false db) as Hcs.
  pose proof (checksums_tracked E' false db') as Hcs'.
  destruct (get_active_checksums E false db) as [cs db1].
  destruct (get_active_checksums E' false db') as [cs' db1']. simpl in *.
  eexists _, db1, db1'. split; [done|].
  rewrite (files_checksum_of_perm E E' cs cs'); [done|done|].
  by rewrite Hcs, Hcs', Hperm.
Qed.

(** ** The records of the tracked files in the store *)

Lemma db_upsert_snoc db batch c r :
  db_upsert db (batch ++ [(c, r)]) = <[c := r]> (db_upsert db batch).
Proof. unfold db_upsert. by rewrite foldl_app. Qed.

Lemma db_upsert_notin db batch c :
  c ∉ batch.*1 → db_upsert db batch !! c = db !! c.
Proof.
  induction batch as [|[c' r'] batch IH] using rev_ind; [done|].
  rewrite fmap_app, not_elem_of_app. simpl. intros [Hb He].
  rewrite db_upsert_snoc, lookup_insert_ne; [by apply IH|].
  intros <-. apply He. by left.
Qed.

Lemma db_upsert_in db batch c r :
  db_upsert db batch !! c = Some r →
  (c, r) ∈ batch ∨ ((c ∉ batch.*1) ∧ db !! c = Some r).
Proof.
  induction batch as [|[c' r'] batch IH] using rev_ind.
  - intros Hc. right. split; [by intros ?%elem_of_nil|done].
  - rewrite db_upsert_snoc. simpl. intros Hc.
    apply lookup_insert_Some in Hc as [[-> ->]|[Hne Hc]].
    + left. apply elem_of_app. right. by left.
    + destruct (IH Hc) as [Hin|[Hnin Hdb]].
      * left. apply elem_of_app. by left.
      * right. split; [|done]. rewrite fmap_app, not_elem_of_app. simpl.
        split; [done|]. intros [->|[]%elem_of_nil]%elem_of_cons. done.
Qed.

Lemma db_metadatas_nil db c : db_metadatas db c = [] ↔ db !! c = None.
Proof. unfold db_metadatas. by destruct (db !! c). Qed.

Lemma scan_path_scanned E refresh db st p :
  p ∈ git_paths E → Forall (scanned E refresh db) st.2 →
  Forall (scanned E refresh db) (scan_path E refresh db st p).2.
Proof.
  intros Hp Hst. destruct st as [cs add]. unfold scan_path.
  destruct (get_document E (path_str p)) as [document|] eqn:Hdoc; [|done].
  simpl in *. destruct refresh; simpl.
  - apply Forall_app. split; [done|]. constructor; [|done].
    exists p. by repeat split.
  - case_bool_decide as Hex; simpl; [done|].
    apply Forall_app. split; [done|]. constructor; [|done].
    exists p. repeat split; try done. simpl. intros _.
    by apply db_metadatas_nil.
Qed.

Lemma scan_scanned E refresh db paths :
  ∀ st, paths ⊆ git_paths E → Forall (scanned E refresh db) st.2 →
        Forall (scanned E refresh db) (foldl (scan_path E refresh db) st paths).2.
Proof.
  induction paths as [|p paths IH]; intros st Hsub Hst; simpl; [done|].
  apply IH; [set_solver|]. apply scan_path_scanned; [set_solver|done].
Qed.

Lemma scan_refresh_all E db paths :
  ∀ st p c, p ∈ paths → path_checksum E p = Some c →
            c ∈ (foldl (scan_path E true db) st paths).2.*1.
Proof.
  induction paths as [|q paths IH]; intros st p c Hp Hc; [by apply elem_of_nil in Hp|].
  simpl. apply elem_of_cons in Hp as [->|Hp]; [|by eapply IH].
  apply scan_batch_mono.
  destruct st as [cs add]. unfold scan_path, path_checksum in *.
  destruct (get_document E (path_str q)) as [document|]; [|done].
  injection Hc as <-. simpl. rewrite fmap_app. apply elem_of_app. right. by left.
Qed.

Lemma elem_of_tracked_checksums E c :
  c ∈ tracked_checksums E ↔ ∃ p, p ∈ git_paths E ∧ path_checksum E p = Some c.
Proof.
  unfold tracked_checksums. rewrite list_elem_of_omap.
  by setoid_rewrite elem_of_remove_dups.
Qed.

(** X6. What [get_active_checksums] does to the store. Without [refresh]
    no record that is in the store is written again, so what the chunker
    has saved in the record of a file stays; a record is added for the
    checksum of each tracked file that had none, with the document that
    hashes to it and the metadata of one of the paths that hold it. With
    [refresh] the record of every tracked file is written anew, without
    ["chunks"], and the other records are left alone. *)
Theorem get_active_checksums_store_effect E db :
  (let db' := (get_active_checksums E false db).2 in
   (∀ c r, db !! c = Some r → db' !! c = Some r)
   ∧ (∀ c, c ∈ tracked_checksums E → is_Some (db' !! c))
   ∧ (∀ c r, db !! c = None → db' !! c = Some r →
        ∃ p, p ∈ git_paths E ∧ get_document E (path_str p) = Ret (r_document r)
             ∧ c = hash_str E (r_document r) ∧ r_metadata r = file_metadata p c))
  ∧ (let db' := (get_active_checksums E true db).2 in
     (∀ c, c ∉ tracked_checksums E → db' !! c = db !! c)
     ∧ (∀ c, c ∈ tracked_checksums E →
          ∃ r p, db' !! c = Some r
                 ∧ p ∈ git_paths E ∧ get_document E (path_str p) = Ret (r_document r)
                 ∧ c = hash_str E (r_document r) ∧ r_metadata r = file_metadata p c
                 ∧ r_metadata r !! "chunks" = None)).
Proof.
  assert (Hscan : ∀ refresh,
            Forall (scanned E refresh db)
                   (foldl (scan_path E refresh db) ([], []) (git_paths E)).2).
  { intros refresh. by apply scan_scanned. }
  split.
  - pose proof (Hscan false) as Hbatch.
    pose proof (λ p c, scan_known E false db (git_paths E) ([], []) p c) as Hknown.
    unfold get_active_checksums.
    destruct (foldl (scan_path E false db) ([], []) (git_paths E)) as [cs add].
    simpl in *. rewrite Forall_forall in Hbatch.
    split; [|split].
    + intros c r Hc. rewrite db_upsert_notin; [done|].
      intros ([c' r'] & -> & Hin)%list_elem_of_fmap.
      destruct (Hbatch _ Hin) as (p & _ & _ & _ & _ & Hnew). simpl in *.
      rewrite Hnew in Hc; done.
    + intros c (p & Hp & Hc)%elem_of_tracked_checksums.
      apply db_upsert_lookup. by eapply Hknown.
    + intros c r Hnone [Hin|[_ Hc]]%db_upsert_in; [|congruence].
      destruct (Hbatch _ Hin) as (p & Hp & Hdoc & Hkey & Hmeta & _). simpl in *.
      exists p. by rewrite <-Hkey.
  - pose proof (Hscan true) as Hbatch.
    pose proof (scan_refresh_all E db (git_paths E) ([], [])) as Hall.
    unfold get_active_checksums.
    destruct (foldl (scan_path E true db) ([], []) (git_paths E)) as [cs add].
    simpl in *. rewrite Forall_forall in Hbatch.
    split.
    + intros c Hc. apply db_upsert_notin.
      intros ([c' r'] & -> & Hin)%list_elem_of_fmap. apply Hc.
      destruct (Hbatch _ Hin) as (p & Hp & Hdoc & Hkey & _). simpl in *.
      apply elem_of_tracked_checksums. exists p. split; [done|].
      unfold path_checksum. rewrite Hdoc. by rewrite Hkey.
    + intros c (p & Hp & Hc)%elem_of_tracked_checksums.
      specialize (Hall p c Hp Hc).
      destruct (db_upsert_lookup db add c) as [r Hr]; [by right|].
      pose proof Hr as [Hin|[Hnin _]]%db_upsert_in; [|done].
      destruct (Hbatch _ Hin) as (q & Hq & Hdoc & Hkey & Hmeta & _). simpl in *.
      exists r, q. repeat split; try done. by rewrite Hmeta.
Qed.

(** ** [Chunker] on the graph of [Hierarchy] *)

Lemma get_active_checksums_hierarchy_records E refresh db :
  hierarchy_records db → hierarchy_records (get_active_checksums E refresh db).2.
Proof.
  intros Hdb.
  pose proof (scan_scanned E refresh db (git_paths E) ([], [])) as Hbatch.
  unfold get_active_checksums.
  destruct (foldl (scan_path E refresh db) ([], []) (git_paths E)) as [cs add]. simpl in *.
  specialize (Hbatch ltac:(done) ltac:(done)). rewrite Forall_forall in Hbatch.
  intros c r [Hin|[_ Hc]]%db_upsert_in; [|by eapply Hdb].
  destruct (Hbatch _ Hin) as (p & _ & _ & _ & Hmeta & _). simpl in Hmeta.
  rewrite Hmeta. done.
Qed.

Lemma add_node_bare g id record :
  bare_nodes g → bare_node record → bare_nodes (add_node g id record).
Proof.
  intros Hg [Hr Hc] v data. simpl. intros [[<- <-]|[_ Hv]]%lookup_insert_Some.
  - destruct (g_nodes g !! id) as [old|] eqn:Hold; simpl.
    + destruct (Hg _ _ Hold) as [Hr' Hc']. split; by apply lookup_union_None.
    + split; by apply lookup_union_None.
  - by eapply Hg.
Qed.

Lemma add_node_has_file g id record :
  has_file g → record !! "type" = None ∨ record !! "type" = Some (PStr "file") →
  has_file (add_node g id record).
Proof.
  intros (v & data & Hv & Hfile) Htype.
  destruct (decide (v = id)) as [->|Hne].
  - exists id, (record ∪ data). simpl. rewrite lookup_insert_eq, Hv. simpl. split; [done|].
    unfold is_file in *. apply bool_decide_eq_true. apply bool_decide_eq_true in Hfile.
    destruct Htype as [Hnone|Hsome].
    + rewrite lookup_union_r; done.
    + by apply lookup_union_Some_l.
  - exists v, data. simpl. by rewrite lookup_insert_ne.
Qed.

Lemma add_directory_bare g id : bare_nodes g → bare_nodes (add_directory g id).
Proof.
  intros Hg. unfold add_directory. case_bool_decide; [done|].
  by apply add_node_bare.
Qed.

Lemma add_directory_has_file g id : has_file g → has_file (add_directory g id).
Proof.
  intros (v & data & Hv & Hfile). unfold add_directory. case_bool_decide as Hin; [by exists v, data|].
  exists v, data. simpl. rewrite lookup_insert_ne; [done|].
  intros <-. apply Hin. by eexists.
Qed.

Lemma add_hierarchy_edge_bare g e : bare_nodes g → bare_nodes (add_hierarchy_edge g e).
Proof.
  intros Hg. destruct e as [s t]. unfold add_hierarchy_edge, add_edge.
  intros v data. simpl.
  apply (add_node_bare (add_node (add_directory (add_directory g s) t) s ∅) t ∅); [|done].
  apply add_node_bare; [|done]. by do 2 apply add_directory_bare.
Qed.

Lemma add_hierarchy_edge_has_file g e : has_file g → has_file (add_hierarchy_edge g e).
Proof.
  intros Hg. destruct e as [s t]. unfold add_hierarchy_edge, add_edge.
  destruct (add_node_has_file (add_node (add_directory (add_directory g s) t) s ∅) t ∅)
    as (v & data & Hv & Hfile); [|by left|by exists v, data].
  apply add_node_has_file; [|by left]. by do 2 apply add_directory_has_file.
Qed.

Lemma foldl_add_hierarchy_edge_bare l :
  ∀ g, bare_nodes g → bare_nodes (foldl add_hierarchy_edge g l).
Proof. induction l as [|e l IH]; intros g Hg; simpl; [done|]. by apply IH, add_hierarchy_edge_bare. Qed.

Lemma foldl_add_hierarchy_edge_has_file l :
  ∀ g, has_file g → has_file (foldl add_hierarchy_edge g l).
Proof. induction l as [|e l IH]; intros g Hg; simpl; [done|]. by apply IH, add_hierarchy_edge_has_file. Qed.

Lemma foldlM_add_file_node_bare db checksums :
  hierarchy_records db →
  ∀ st st', foldlM (add_file_node db) st checksums = Ret st' →
            bare_nodes st.1 → (has_file st.1 ∨ checksums ≠ []) →
            bare_nodes st'.1 ∧ has_file st'.1.
Proof.
  intros Hdb. induction checksums as [|[p c] checksums IH]; intros [g edges] st' Hfold Hbare Hfile.
  - simpl in Hfold. injection Hfold as <-. split; [done|]. by destruct Hfile.
  - simpl in Hfold. unfold db_metadatas in Hfold.
    destruct (db !! c) as [r|] eqn:Hr; simpl in Hfold; [|done].
    destruct (Hdb _ _ Hr) as (Htype & Href & Hchunks).
    apply IH in Hfold; [done| |left]; simpl.
    + by apply add_node_bare.
    + destruct (g_nodes g !! path_str p) as [old|] eqn:Hold.
      * exists (path_str p), (r_metadata r ∪ old). simpl.
        rewrite lookup_insert_eq, Hold. split; [done|].
        apply bool_decide_eq_true. by apply lookup_union_Some_l.
      * exists (path_str p), (r_metadata r ∪ ∅). simpl.
        rewrite lookup_insert_eq, Hold. split; [done|].
        apply bool_decide_eq_true. by apply lookup_union_Some_l.
Qed.

Lemma is_complete_nodes_KeyError exts nodes :
  Forall (λ nd : string * pydict, bare_node nd.2) nodes →
  Exists (λ nd : string * pydict, is_file nd.2 = true) nodes →
  is_complete_nodes (Some exts) nodes = Raise KeyError.
Proof.
  intros Hbare Hfile. induction Hfile as [[v data] nodes Hfile|[v data] nodes Hfile IH];
    apply Forall_cons in Hbare as [[Href Hchunks] Hbare]; simpl in *.
  - rewrite Hfile. unfold chunks_is_None. rewrite bool_decide_eq_true_2 by (by left). simpl.
    unfold extension_matches, getitem. by rewrite Href.
  - unfold chunks_is_None. rewrite bool_decide_eq_true_2 by (by left).
    destruct (is_file data); simpl; [|by apply IH].
    unfold extension_matches, getitem. by rewrite Href.
Qed.

Lemma filter_extensions_KeyError exts file_nodes :
  Forall (λ nd : string * pydict, bare_node nd.2) file_nodes → file_nodes ≠ [] →
  filter_extensions exts file_nodes = Raise KeyError.
Proof.
  destruct file_nodes as [|[v data] rest]; [done|].
  intros [[Href _] _]%Forall_cons _. simpl in *.
  unfold extension_matches, getitem. by rewrite Href.
Qed.

(** X7. The records that [Hierarchy] writes have a ["path"] and no
    ["ref"], and [Chunker] reads the ["ref"] of every file node that it
    looks at. So on a store that only [Hierarchy] has written to (an empty
    one, at first), once a tracked file can be read, the graph that
    [Hierarchy.annotate] returns makes [Chunker.is_complete] and
    [Chunker.annotate] raise [KeyError], whatever the list of extensions. *)
Theorem chunker_cannot_read_hierarchy_records
    E old_graph refresh db graph db1 exts refresh' db2 :
  hierarchy_records db → tracked_checksums E ≠ [] →
  Hierarchy_annotate E old_graph refresh db = Ret (graph, db1) →
  Chunker_is_complete (Some exts) graph = Raise KeyError
  ∧ Chunker_annotate E (Some exts) graph refresh' db2 = Raise KeyError.
Proof.
  intros Hdb Htracked Hann. unfold Hierarchy_annotate in Hann.
  destruct (getitem _ "cwd") as [cwd_v|]; simpl in Hann; [|done].
  destruct (as_str cwd_v) as [cwd|]; simpl in Hann; [|done].
  pose proof (get_active_checksums_hierarchy_records E refresh db Hdb) as Hdb1.
  pose proof (checksums_tracked E refresh db) as Hcs.
  destruct (get_active_checksums E refresh db) as [checksums db1']. simpl in *.
  destruct (foldlM _ _ checksums) as [[g edges]|] eqn:Hloop; simpl in Hann; [|done].
  injection Hann as <- <-.
  pose proof (foldlM_add_file_node_attrs _ _ _ _ Hloop) as Hattrs. simpl in Hattrs.
  apply foldlM_add_file_node_bare in Hloop as [Hbare Hfile]; simpl; try done.
  2:{ right. intros ->. simpl in Hcs. apply Htracked. by apply Permutation_nil_l in Hcs. }
  simpl in *.
  apply (foldl_add_hierarchy_edge_bare (elements edges)) in Hbare.
  apply (foldl_add_hierarchy_edge_has_file (elements edges)) in Hfile.
  set (g' := foldl add_hierarchy_edge g (elements edges)) in *.
  assert (Hall : Forall (λ nd : string * pydict, bare_node nd.2) (map_to_list (g_nodes g'))).
  { apply Forall_forall. intros [v data] Hin%elem_of_map_to_list. by eapply Hbare. }
  destruct Hfile as (v & data & Hv & Hfile).
  split.
  - unfold Chunker_is_complete. simpl. apply is_complete_nodes_KeyError; [done|].
    apply Exists_exists. exists (v, data). split; [|done]. by apply elem_of_map_to_list.
  - unfold Chunker_annotate, getitem. simpl.
    rewrite lookup_insert_ne by done.
    unfold g'. rewrite foldl_add_hierarchy_edge_attrs, Hattrs. simpl.
    rewrite lookup_insert_eq. simpl.
    rewrite filter_extensions_KeyError; [done| |].
    + fold g'. apply Forall_forall. intros nd [_ Hin]%list_elem_of_filter.
      by apply (proj1 (Forall_forall _ _) Hall).
    + fold g'. intros Hnil.
      assert (Hin : (v, data) ∈ filter (λ nd : string * pydict, is_file nd.2)
                                       (map_to_list (g_nodes g'))).
      { apply list_elem_of_filter. split; [by apply Is_true_true|].
        by apply elem_of_map_to_list. }
      rewrite Hnil in Hin. by apply elem_of_nil in Hin.
Qed.

(** ** The rendering of the context *)

Lemma py_index_returns {A} (l : list A) i :
  (- Z.of_nat (length l) ≤ i < Z.of_nat (length l) → returns (py_index l i))
  ∧ (¬ (- Z.of_nat (length l) ≤ i < Z.of_nat (length l)) → py_index l i = Raise IndexError).
Proof.
  unfold py_index, list_getitem. split.
  - intros Hi. case_bool_decide.
    + destruct (lookup_lt_is_Some_2 l (Z.to_nat i)) as [x ->]; [lia|]. by eexists.
    + rewrite bool_decide_eq_true_2 by lia.
      destruct (lookup_lt_is_Some_2 l (Z.to_nat (Z.of_nat (length l) + i))) as [x ->]; [lia|].
      by eexists.
  - intros Hi. case_bool_decide.
    + rewrite lookup_ge_None_2; [done|lia].
    + case_bool_decide; [lia|done].
Qed.

Lemma render_lines_bounds file_lines lines :
  ∀ last_rendered output,
    (Forall (index_in_bounds file_lines) lines →
     returns (render_lines file_lines last_rendered lines output))
    ∧ (¬ Forall (index_in_bounds file_lines) lines →
       render_lines file_lines last_rendered lines output = Raise IndexError).
Proof.
  induction lines as [|line lines IH]; intros last_rendered output; simpl.
  - split; [by eexists|]. intros H. destruct H. constructor.
  - destruct (py_index_returns file_lines line) as [Hin Hout].
    destruct (decide (index_in_bounds file_lines line)) as [Hline|Hline].
    + destruct (Hin Hline) as [text ->]. simpl.
      split.
      * intros [_ Hrest]%Forall_cons. by apply IH.
      * intros Hnot. apply IH. intros Hrest. apply Hnot. by constructor.
    + rewrite (Hout Hline). simpl. split; [|done].
      by intros [? _]%Forall_cons.
Qed.

Lemma Forall_sorted_lines (P : Z → Prop) (lines : gset Z) :
  Forall P (merge_sort Z.le (elements lines)) ↔ set_Forall P lines.
Proof.
  rewrite merge_sort_Permutation, Forall_forall. unfold set_Forall.
  by setoid_rewrite elem_of_elements.
Qed.

Lemma render_message_bounds E output item :
  (lines_in_bounds E item.2 → returns (render_message E output item))
  ∧ (¬ lines_in_bounds E item.2 → render_message E output item = Raise IndexError).
Proof.
  unfold render_message, lines_in_bounds. rewrite <-Forall_sorted_lines.
  apply render_lines_bounds.
Qed.

#[global] Instance lines_in_bounds_dec E data : Decision (lines_in_bounds E data).
Proof. unfold lines_in_bounds, index_in_bounds. apply _. Defined.

(** X8. [render_context_message] returns exactly when every line of every
    message of the context is an index of the lines of the document of the
    message (a negative one counts from the end); otherwise [file_lines[line]]
    raises [IndexError]. *)
Theorem render_context_message_bounds E context :
  (Forall (λ item, lines_in_bounds E item.2) context →
   returns (render_context_message E context))
  ∧ (¬ Forall (λ item, lines_in_bounds E item.2) context →
     render_context_message E context = Raise IndexError).
Proof.
  unfold render_context_message. generalize "" as output.
  induction context as [|item context IH]; intros output; simpl.
  - split; [by eexists|]. intros H. destruct H. constructor.
  - destruct (render_message_bounds E output item) as [Hin Hout].
    destruct (decide (lines_in_bounds E item.2)) as [Hitem|Hitem].
    + destruct (Hin Hitem) as [out ->]. simpl. split.
      * intros [_ Hrest]%Forall_cons. by apply IH.
      * intros Hnot. apply IH. intros Hrest. apply Hnot. by constructor.
    + rewrite (Hout Hitem). simpl. split; [|done].
      by intros [? _]%Forall_cons.
Qed.

Lemma append_assoc (a b c : string) : (a +:+ b) +:+ c = a +:+ (b +:+ c).
Proof.
  induction a as [|x a IH]; [done|].
  change (String x ((a +:+ b) +:+ c) = String x (a +:+ (b +:+ c))). by rewrite IH.
Qed.

Lemma Sorted_seqZ m n : Sorted Z.le (seqZ m n).
Proof.
  destruct (decide (0 ≤ n)) as [Hn|Hn]; [|rewrite seqZ_nil by lia; constructor].
  rewrite <-(Z2Nat.id n) by done. generalize (Z.to_nat n) as k. clear. intros k.
  revert m. induction k as [|k IH]; intros m.
  - rewrite seqZ_nil by lia. constructor.
  - rewrite seqZ_cons by lia. replace (Z.pred (Z.of_nat (S k))) with (Z.of_nat k) by lia.
    constructor; [apply IH|].
    destruct k as [|k]; [rewrite seqZ_nil by lia; constructor|].
    rewrite seqZ_cons by lia. constructor. lia.
Qed.

Lemma sorted_range_set a b : merge_sort Z.le (elements (range_set a b)) = seqZ a (b - a).
Proof.
  apply (Sorted_unique Z.le); [apply Sorted_merge_sort, _|apply Sorted_seqZ|].
  rewrite merge_sort_Permutation. unfold range_set.
  apply elements_list_to_set, NoDup_seqZ.
Qed.

Lemma render_numbered_lines texts :
  ∀ pre output,
    render_lines (pre ++ texts) (Z.of_nat (length pre) - 1)
                 (seqZ (Z.of_nat (length pre)) (Z.of_nat (length texts))) output
    = Ret (output +:+ numbered_lines (Z.of_nat (length pre)) texts).
Proof.
  induction texts as [|text texts IH]; intros pre output.
  - rewrite seqZ_nil by done. simpl. by rewrite append_nil_r.
  - rewrite seqZ_cons by (simpl; lia). simpl render_lines.
    rewrite bool_decide_eq_false_2 by lia.
    unfold py_index. rewrite bool_decide_eq_true_2 by lia.
    unfold list_getitem. rewrite Nat2Z.id, list_lookup_middle by done. simpl.
    specialize (IH (pre ++ [text])). rewrite <-app_assoc in IH. simpl in IH.
    rewrite length_app in IH. simpl in IH.
    replace (Z.succ (Z.of_nat (length pre))) with (Z.of_nat (length pre + 1)) by lia.
    replace (Z.pred (Z.of_nat (S (length texts)))) with (Z.of_nat (length texts)) by lia.
    replace (Z.of_nat (length pre)) with (Z.of_nat (length pre + 1) - 1) at 1 by lia.
    rewrite IH. f_equal. simpl numbered_lines.
    replace (Z.of_nat (length pre) + 1) with (Z.of_nat (length pre + 1)) by lia.
    by rewrite !append_assoc.
Qed.

(** X9. A first search result for a whole file (its ["path"] has no ":")
    is rendered with the id and the tag of the result, followed by every
    line of the document but the first, numbered from 1, with no ["..."]
    in between: the first line of a document is never shown, and no index
    is out of bounds. *)
Theorem whole_file_result_renders E i result path id :
  n_metadata result !! "path" = Some (PStr path) →
  PyStr.count ":" path = 0%nat →
  n_metadata result !! "id" = Some id →
  ∃ context,
    merge_result E [] i result = Ret context
    ∧ render_context_message E context
      = Ret (py_format id +:+ " (no-" +:+ pretty (i + 1) +:+ "-search-result)" +:+ nl
             +:+ numbered_lines 1 (tail (splitlines E (n_document result)))).
Proof.
  intros Hpath Hcount Hid. eexists. split.
  - unfold merge_result, getitem. rewrite Hpath. simpl.
    rewrite split_ref_bare by done. simpl. rewrite Hid. simpl. done.
  - unfold render_context_message, render_message. simpl.
    rewrite !(left_id_L ∅ (∪)), elements_singleton, sorted_range_set.
    destruct (splitlines E (n_document result)) as [|first texts] eqn:Hlines.
    + rewrite seqZ_nil by (simpl; lia). simpl. by rewrite !append_assoc.
    + pose proof (render_numbered_lines texts [first]) as Hrender. simpl in Hrender.
      simpl length. replace (Z.of_nat (S (length texts)) - 1) with (Z.of_nat (length texts)) by lia.
      rewrite Hrender. simpl. f_equal. by rewrite !append_assoc.
Qed.

(** X10. An explicit reference is never resolved: as soon as one reference
    of [include] names a node of the graph, [get_context_message] raises
    (line 113 of daemon.py calls [append] on a [set]), with [AttributeError]
    when the node has a checksum whose record is in the store; and when no
    reference names a node, all are passed over and the message is the one
    of the search results alone. *)
Theorem explicit_references_are_never_resolved E graph db results include max_tokens auto_tokens :
  (Exists (λ id, is_Some (g_nodes graph !! (split_ref id).1)) include →
   raises (get_context_message E graph db results include max_tokens auto_tokens))
  ∧ (Forall (λ id, ∀ node, g_nodes graph !! (split_ref id).1 = Some node →
                          ∃ checksum, node !! "checksum" = Some (PStr checksum)
                                      ∧ is_Some (db !! checksum)) include →
     Exists (λ id, is_Some (g_nodes graph !! (split_ref id).1)) include →
     get_context_message E graph db results include max_tokens auto_tokens
     = Raise AttributeError)
  ∧ (Forall (λ id, g_nodes graph !! (split_ref id).1 = None) include →
     get_context_message E graph db results include max_tokens auto_tokens
     = get_context_message E graph db results [] max_tokens auto_tokens).
Proof.
  unfold get_context_message. split; [|split].
  - intros Hex. by apply bind_raises, include_loop_raises.
  - intros Hall Hex.
    assert (Hloop : foldlM (include_ref E graph db) [] include = Raise AttributeError);
      [|by rewrite Hloop].
    generalize (@nil (string * message)) as context.
    induction include as [|id include IH]; intros context; [by apply Exists_nil in Hex|].
    apply Forall_cons in Hall as [Hid Hall]. simpl.
    destruct (g_nodes graph !! (split_ref id).1) as [node|] eqn:Hnode.
    + destruct (Hid node eq_refl) as (checksum & Hsum & [r Hr]).
      unfold include_ref. destruct (split_ref id) as [path lines_ref]. simpl in Hnode.
      rewrite Hnode. destruct (dict_get path context) as [data|]; simpl; [done|].
      unfold getitem, db_documents. rewrite Hsum. simpl. rewrite Hr. done.
    + rewrite include_ref_unknown by done. simpl. apply IH; [done|].
      apply Exists_cons in Hex as [[? ?]|?]; [congruence|done].
  - intros Hall. by rewrite include_loop_unknown.
Qed.

(** ** The search results *)

Section sorted.
Context {A K : Type} (lt : K → K → bool) (key : A → K).
Hypothesis Hlt : strict_weak_order lt.

Lemma sorted_insert_Permutation x l : sorted_insert lt key x l ≡ₚ x :: l.
Proof.
  induction l as [|y l IH]; simpl; [done|].
  destruct (lt (key y) (key x)); [|done]. rewrite IH. apply Permutation_swap.
Qed.

Lemma py_sorted_Permutation l : py_sorted lt key l ≡ₚ l.
Proof.
  induction l as [|x l IH]; simpl; [done|].
  by rewrite sorted_insert_Permutation, IH.
Qed.

Lemma key_le_trans a b c : key_le lt key a b → key_le lt key b c → key_le lt key a c.
Proof.
  unfold key_le. intros Hab Hbc. destruct Hlt as (_ & _ & Hneg).
  destruct (lt (key c) (key a)) eqn:Hca; [|done].
  destruct (Hneg _ (key b) _ Hca); congruence.
Qed.

Lemma key_lt_le a b : lt (key a) (key b) = true → key_le lt key a b.
Proof.
  unfold key_le. intros Hab. destruct Hlt as (Hirr & Htrans & _).
  destruct (lt (key b) (key a)) eqn:Hba; [|done].
  pose proof (Htrans _ _ _ Hab Hba) as Haa. by rewrite Hirr in Haa.
Qed.

Lemma sorted_insert_StronglySorted x l :
  StronglySorted (key_le lt key) l → StronglySorted (key_le lt key) (sorted_insert lt key x l).
Proof.
  induction 1 as [|y l Hl IH Hy]; simpl; [by repeat constructor|].
  destruct (lt (key y) (key x)) eqn:Hyx.
  - constructor; [done|]. rewrite sorted_insert_Permutation.
    constructor; [by apply key_lt_le|done].
  - constructor; [by constructor|]. constructor; [done|].
    eapply Forall_impl; [exact Hy|]. intros z Hz. by eapply key_le_trans.
Qed.

Lemma py_sorted_StronglySorted l : StronglySorted (key_le lt key) (py_sorted lt key l).
Proof.
  induction l as [|x l IH]; simpl; [constructor|]. by apply sorted_insert_StronglySorted.
Qed.

End sorted.

Lemma checksums_of_set_active b metadatas :
  checksums_of (set_active b metadatas) = checksums_of metadatas.
Proof.
  unfold checksums_of, set_active. induction metadatas as [|m ms IH]; [done|].
  simpl. unfold fmap in IH. rewrite IH. unfold getitem. by rewrite lookup_insert_ne.
Qed.

Lemma set_active_twice b b' metadatas :
  set_active b (set_active b' metadatas) = set_active b metadatas.
Proof.
  unfold set_active. rewrite <-list_fmap_compose. apply list_fmap_ext.
  intros _ m _. simpl. by rewrite insert_insert_eq.
Qed.

Lemma length_set_active b metadatas : length (set_active b metadatas) = length metadatas.
Proof. unfold set_active. by rewrite length_fmap. Qed.

Lemma slice_to_take {A} (l : list A) n : ∃ k, slice_to l n = take k l.
Proof. unfold slice_to. case_bool_decide; by eexists. Qed.


(** ** The script of a response *)

Lemma after_prefix_spec (p s rest : string) :
  PySub.after_prefix p s = Some rest ↔ s = p +:+ rest.
Proof.
  revert s. induction p as [|a p IH]; intros s; simpl.
  - split; [by intros [= ->]|by intros ->].
  - destruct s as [|b s]; [by split|].
    change (String a p +:+ rest) with (String a (p +:+ rest)).
    case_decide as Hab.
    + subst b. rewrite IH. split; [by intros ->|by intros [= ->]].
    + split; [done|]. intros [= -> _]. done.
Qed.

Lemma split_match sep a r rest :
  sep ≠ "" → PySub.after_prefix sep (String a r) = Some rest →
  PySub.split sep (String a r) = "" :: PySub.split sep rest.
Proof.
  intros Hsep Hrest. simp split.
  destruct (inspect (PySub.after_prefix sep (String a r))) as [o Ho].
  assert (o = Some rest) as -> by congruence.
  simpl. destruct (decide (sep = "")); [done|]. done.
Qed.

Lemma split_no_match sep a r :
  PySub.after_prefix sep (String a r) = None →
  PySub.split sep (String a r)
  = match PySub.split sep r with h :: t => String a h :: t | [] => [String a ""] end.
Proof.
  intros Hnone. simp split.
  destruct (inspect (PySub.after_prefix sep (String a r))) as [o Ho].
  assert (o = None) as -> by congruence. done.
Qed.

Lemma sub_split_nonempty sep s : PySub.split sep s ≠ [].
Proof.
  funelim (PySub.split sep s); try done.
  by destruct (PySub.split sep r).
Qed.

Lemma join_cons sep x (l : list string) :
  l ≠ [] → PyStr.join sep (x :: l) = x +:+ sep +:+ PyStr.join sep l.
Proof. by destruct l. Qed.

Lemma join_snoc sep (l : list string) x :
  l ≠ [] → PyStr.join sep (l ++ [x]) = PyStr.join sep l +:+ sep +:+ x.
Proof.
  induction l as [|y l IH]; [done|]. intros _.
  destruct l as [|z l]; [done|].
  change ((y :: z :: l) ++ [x]) with (y :: ((z :: l) ++ [x])).
  rewrite !join_cons by done. rewrite IH by done. by rewrite !append_assoc.
Qed.

Lemma sub_join_split sep s : sep ≠ "" → PyStr.join sep (PySub.split sep s) = s.
Proof.
  intros Hsep. funelim (PySub.split sep s); try done.
  - match goal with IH : _ → PyStr.join _ _ = _ |- _ => pose proof (IH Hsep) as Hjoin end.
    destruct (PySub.split sep r) as [|h t] eqn:Hs; [by apply sub_split_nonempty in Hs|].
    destruct t as [|h' t].
    + simpl in *. by subst.
    + rewrite join_cons by done. rewrite join_cons in Hjoin by done.
      change (String a h +:+ sep +:+ PyStr.join sep (h' :: t))
        with (String a (h +:+ sep +:+ PyStr.join sep (h' :: t))).
      by rewrite Hjoin.
  - match goal with IH : _ → PyStr.join _ _ = _ |- _ => pose proof (IH Hsep) as Hjoin end.
    rewrite join_cons by apply sub_split_nonempty.
    rewrite Hjoin.
    match goal with
    | Hp : PySub.after_prefix _ _ = Some _ |- _ =>
        pose proof (proj1 (after_prefix_spec _ _ _) Hp) as Hs
    end.
    by rewrite Hs.
Qed.

Lemma sub_split_free c sep a :
  PyStr.count c a = 0%nat → PySub.split (String c sep) a = [a].
Proof.
  induction a as [|x a IH]; [done|]. simpl. case_decide as Hx; [done|]. intros Hc.
  rewrite split_no_match.
  - by rewrite IH.
  - simpl. rewrite decide_False; [done|]. congruence.
Qed.

Lemma sub_split_app c sep a b :
  PyStr.count c a = 0%nat →
  PySub.split (String c sep) (a +:+ String c sep +:+ b) = a :: PySub.split (String c sep) b.
Proof.
  induction a as [|x a IH].
  - intros _. change ("" +:+ String c sep +:+ b) with (String c (sep +:+ b)).
    apply split_match; [done|]. apply after_prefix_spec. done.
  - simpl. case_decide as Hx; [done|]. intros Hc.
    change (String x a +:+ String c sep +:+ b) with (String x (a +:+ String c sep +:+ b)).
    rewrite split_no_match.
    + by rewrite IH.
    + simpl. rewrite decide_False; [done|]. congruence.
Qed.

Lemma lstrip_blank ws s : blank ws = true → lstrip (ws +:+ s) = lstrip s.
Proof.
  induction ws as [|a ws IH]; [done|]. simpl. intros [Ha Hws]%andb_true_iff.
  change (String a ws +:+ s) with (String a (ws +:+ s)). simpl. rewrite Ha. by apply IH.
Qed.

Lemma rstrip_cons a r : is_space a = false → rstrip (String a r) = String a (rstrip r).
Proof. intros Ha. simpl. rewrite Ha. by destruct (rstrip r). Qed.

Lemma rstrip_app a b :
  rstrip (a +:+ b) = if decide (rstrip b = "") then rstrip a else a +:+ rstrip b.
Proof.
  induction a as [|x a IH].
  - change ("" +:+ b) with b. change ("" +:+ rstrip b) with (rstrip b).
    by case_decide.
  - change (String x a +:+ b) with (String x (a +:+ b)).
    change (String x a +:+ rstrip b) with (String x (a +:+ rstrip b)).
    simpl. rewrite IH. case_decide as Hb; [done|].
    destruct (a +:+ rstrip b) eqn:Hab; [|done].
    exfalso. apply Hb. destruct a; [done|discriminate].
Qed.

Lemma blank_no_backtick ws : blank ws = true → PyStr.count "`" ws = 0%nat.
Proof.
  induction ws as [|a ws IH]; [done|]. simpl. intros [Ha Hws]%andb_true_iff.
  case_decide as Heq; [by subst a|]. by apply IH.
Qed.

Lemma count_rstrip c s : PyStr.count c s = 0%nat → PyStr.count c (rstrip s) = 0%nat.
Proof.
  induction s as [|a s IH]; [done|]. simpl. case_decide as Ha; [done|]. intros Hc.
  specialize (IH Hc). destruct (rstrip s) eqn:Hr.
  - destruct (is_space a); simpl; [done|]. by rewrite decide_False.
  - simpl in *. by rewrite decide_False.
Qed.

Lemma startswith_app p s : PySub.startswith p (p +:+ s) = true.
Proof.
  unfold PySub.startswith. apply bool_decide_eq_true. exists s. by apply after_prefix_spec.
Qed.

Lemma segments_of_fenced response :
  (2 ≤ PySub.count fence response)%nat →
  ∃ first middle last,
    PySub.split fence response = first :: middle ++ [last] ∧ middle ≠ [].
Proof.
  unfold PySub.count. intros Hn.
  destruct (PySub.split fence response) as [|first rest]; [simpl in Hn; lia|].
  destruct rest as [|x rest _] using rev_ind; [simpl in Hn; lia|].
  exists first, rest, x. split; [done|]. intros ->. simpl in Hn. lia.
Qed.

(** X12. [parse_script] loses nothing but the delimiters. A response with
    fewer than two delimiters is the message, with no script, whatever
    [ast.parse] would say. Else the response is [first], the first
    delimiter, [inner], the last delimiter and [last], where [inner] keeps
    its own delimiters: the message is [first], a newline and [last], and
    the script is [inner] stripped, without its first line when that
    starts with ["python"]. The script that is returned is one that
    [ast.parse] accepts, and [SyntaxError] is raised exactly when it
    rejects that script. *)
Theorem parse_script_partition ast_parse response :
  ((PySub.count fence response < 2)%nat →
   parse_script ast_parse response = Parsed response "")
  ∧ ((2 ≤ PySub.count fence response)%nat →
     ∃ first inner last,
       response = first +:+ fence +:+ inner +:+ fence +:+ last
       ∧ let script := drop_python_line (strip inner) in
         parse_script ast_parse response
         = match ast_parse script with
           | AstOk => Parsed (first +:+ nl +:+ last) script
           | AstSyntaxError =>
               ParseRaise (SyntaxError ("Script contains invalid Python:" +:+ nl +:+ response))
           | AstError msg => ParseRaise (OtherError msg)
           end).
Proof.
  split.
  - intros Hn. unfold parse_script. by rewrite bool_decide_eq_true_2.
  - intros Hn. destruct (segments_of_fenced response Hn) as (first & middle & last & Hseg & Hne).
    exists first, (PyStr.join fence middle), last. split.
    + rewrite <-(sub_join_split fence response) at 1 by done. rewrite Hseg.
      rewrite join_cons by (by destruct middle). by rewrite join_snoc.
    + unfold parse_script. rewrite bool_decide_eq_false_2 by lia. rewrite Hseg.
      change (tail (first :: middle ++ [last])) with (middle ++ [last]).
      change (first :: middle ++ [last]) with ((first :: middle) ++ [last]).
      rewrite last_last, removelast_last. done.
Qed.

Lemma rstrip_newline code :
  rstrip (nl +:+ code) = if decide (rstrip code = "") then "" else nl +:+ rstrip code.
Proof.
  change (nl +:+ code) with (String "010" code). simpl.
  destruct (rstrip code); by case_decide.
Qed.

Lemma drop_python_line_tagged tag body :
  PyStr.count "010" tag = 0%nat →
  drop_python_line ("python" +:+ tag +:+ nl +:+ body) = body.
Proof.
  intros Htag. unfold drop_python_line.
  assert (Hsplit : PyStr.split "010" ("python" +:+ tag +:+ nl +:+ body)
                   = ("python" +:+ tag) :: PyStr.split "010" body).
  { rewrite <-append_assoc. change (nl +:+ body) with (String "010" body).
    apply split_app. by rewrite count_app. }
  rewrite Hsplit. simpl head. simpl tail. simpl default.
  rewrite startswith_app. apply join_split.
Qed.

Lemma drop_python_line_only tag :
  PyStr.count "010" tag = 0%nat → drop_python_line ("python" +:+ tag) = "".
Proof.
  intros Htag. unfold drop_python_line.
  rewrite split_no_sep by (by rewrite count_app).
  simpl head. simpl tail. simpl default. by rewrite startswith_app.
Qed.

Lemma parse_script_python_block ast_parse pre ws tag code post :
  PyStr.count "`" pre = 0%nat → PyStr.count "`" tag = 0%nat →
  PyStr.count "`" code = 0%nat → PyStr.count "`" post = 0%nat →
  blank ws = true → PyStr.count "010" tag = 0%nat →
  ast_parse (rstrip code) = AstOk →
  parse_script ast_parse
    (pre +:+ fence +:+ ws +:+ "python" +:+ tag +:+ nl +:+ code +:+ fence +:+ post)
  = Parsed (pre +:+ nl +:+ post) (rstrip code).
Proof.
  intros Hpre Htag Hcode Hpost Hws Hline Hast.
  set (inner := ws +:+ "python" +:+ tag +:+ nl +:+ code).
  assert (Hinner : PyStr.count "`" inner = 0%nat).
  { unfold inner. rewrite !count_app, (blank_no_backtick ws), Htag, Hcode by done. done. }
  assert (Hseg : PySub.split fence
                   (pre +:+ fence +:+ ws +:+ "python" +:+ tag +:+ nl +:+ code +:+ fence +:+ post)
                 = [pre; inner; post]).
  { replace (pre +:+ fence +:+ ws +:+ "python" +:+ tag +:+ nl +:+ code +:+ fence +:+ post)
      with (pre +:+ fence +:+ (inner +:+ fence +:+ post))
      by (unfold inner; by rewrite !append_assoc).
    unfold fence. rewrite sub_split_app by done. rewrite sub_split_app by done.
    by rewrite sub_split_free. }
  assert (Hstrip : drop_python_line (strip inner) = rstrip code).
  { unfold strip, inner. rewrite lstrip_blank by done.
    change (lstrip ("python" +:+ tag +:+ nl +:+ code)) with ("python" +:+ tag +:+ nl +:+ code).
    replace ("python" +:+ tag +:+ nl +:+ code) with (("python" +:+ tag) +:+ (nl +:+ code))
      by (by rewrite !append_assoc).
    rewrite rstrip_app, rstrip_newline.
    destruct (decide (rstrip code = "")) as [Hempty|Hfull].
    - rewrite decide_True by done. rewrite Hempty.
      change ("python" +:+ tag)
        with (String "p" (String "y" (String "t" (String "h" (String "o" (String "n" tag)))))).
      rewrite !rstrip_cons by done.
      change (String "p" (String "y" (String "t" (String "h" (String "o" (String "n" (rstrip tag)))))))
        with ("python" +:+ rstrip tag).
      apply drop_python_line_only. by apply count_rstrip.
    - rewrite decide_False.
      + rewrite append_assoc. by apply drop_python_line_tagged.
      + intros Hnil. change (nl +:+ rstrip code) with (String "010" (rstrip code)) in Hnil. done. }
  unfold parse_script, PySub.count. rewrite Hseg. simpl length.
  rewrite bool_decide_eq_false_2 by (simpl; lia).
  change (default "" (head [pre; inner; post])) with pre.
  change (List.last [pre; inner; post] "") with post.
  change (PyStr.join fence (removelast (tail [pre; inner; post]))) with inner.
  by rewrite Hstrip, Hast.
Qed.

(** X13. The first line of a script is left out as soon as it starts with
    ["python"], whatever follows on the line: the tag of a fenced block,
    but a line of code too. For a response with one fenced block and no
    other backtick, whose block starts, after white space, with a line
    that starts with ["python"], the message is what is around the block
    and the script is the rest of the block, stripped on the right. *)
Theorem python_line_is_dropped ast_parse pre ws tag code post :
  PyStr.count "`" pre = 0%nat → PyStr.count "`" tag = 0%nat →
  PyStr.count "`" code = 0%nat → PyStr.count "`" post = 0%nat →
  blank ws = true → PyStr.count "010" tag = 0%nat →
  ast_parse (rstrip code) = AstOk →
  parse_script ast_parse
    (pre +:+ fence +:+ ws +:+ "python" +:+ tag +:+ nl +:+ code +:+ fence +:+ post)
  = Parsed (pre +:+ nl +:+ post) (rstrip code).
Proof. apply parse_script_python_block. Qed.

(** ** The conversation of [cerebrus] *)

Lemma append_nonempty_r (a b : string) : b ≠ "" → a +:+ b ≠ "".
Proof. intros Hb. destruct a; [done|]. discriminate. Qed.

Lemma line_of_nonempty args : line_of args ≠ "".
Proof. unfold line_of. by apply append_nonempty_r. Qed.

Lemma run_calls calls :
  ∀ printer,
    foldl run_call printer calls
    = {| printed := printed printer +:+ prints_of calls;
         answered := answered printer +:+ answers_of calls |}.
Proof.
  induction calls as [|c calls IH]; intros [p a]; simpl.
  - by rewrite !append_nil_r.
  - rewrite IH. destruct c; simpl; by rewrite append_assoc.
Qed.

Lemma prints_of_nonempty calls : existsb is_print calls = true → prints_of calls ≠ "".
Proof.
  induction calls as [|[args|args] calls IH]; simpl; [done| |done].
  intros _. by apply append_nonempty, line_of_nonempty.
Qed.

Lemma prints_of_silent calls : existsb is_print calls = false → prints_of calls = "".
Proof. induction calls as [|[args|args] calls IH]; simpl; done. Qed.

Lemma try_script_noisy A response printer answer :
  prints_something A response = true →
  ∃ script printer',
    try_script A response printer answer = Go script printer' ∧ printed printer' ≠ "".
Proof.
  unfold prints_something, try_script.
  destruct (parse_script (ast_parse A) response) as [message script|[msg|msg]].
  - case_bool_decide; [done|].
    destruct (exec_script A script) as [calls [|msg|]]; [| |done].
    + intros Hp. eexists _, _. split; [done|]. rewrite run_calls. simpl.
      by apply append_nonempty_r, prints_of_nonempty.
    + intros _. eexists _, _. split; [done|]. simpl.
      by apply append_nonempty_r, line_of_nonempty.
  - intros _. eexists _, _. split; [done|]. simpl. by apply append_nonempty_r, line_of_nonempty.
  - intros _. eexists _, _. split; [done|]. simpl. by apply append_nonempty_r, line_of_nonempty.
Qed.

Lemma cerebrus_loop_noisy A query iterations :
  (∀ messages, ∃ response,
     llm A query messages = Ret response ∧ prints_something A response = true) →
  ∀ messages printer answer,
    cerebrus_loop A query iterations messages printer answer = Returned answer.
Proof.
  intros Hnoisy. induction iterations as [|n IH]; intros messages printer answer; simpl; [done|].
  destruct (Hnoisy messages) as (response & -> & Hp).
  destruct (try_script_noisy A response printer answer Hp) as (script & printer' & -> & Hprinted).
  rewrite bool_decide_eq_false_2 by done. apply IH.
Qed.

(** X14. A conversation in which every response gives the loop something
    to send back (a script that prints, or that raises an [Exception], or
    text that is not valid Python) ends after the ten iterations with the
    empty answer, whatever the scripts have passed to [answer]. *)
Theorem cerebrus_gives_up_with_no_answer A query :
  (∀ messages, ∃ response,
     llm A query messages = Ret response ∧ prints_something A response = true) →
  cerebrus A query = Returned "".
Proof. intros Hnoisy. by apply cerebrus_loop_noisy. Qed.


(** ** The outcomes of [is_chunk_valid] *)


(** ** Loading the chunks of a file twice *)

(** X17. [add_file_chunks_to_graph] does not look at the edges that the
    graph has: each call that returns for a file with chunks adds one more
    edge from the file to [<file>:BASE], and no edge of the graph is taken
    away, so a second call leaves parallel hierarchy edges. *)
Theorem loading_chunks_adds_edges_again E file graph db graph' add_to_db chunks :
  add_file_chunks_to_graph E file graph false db = Ret (graph', add_to_db) →
  node_chunks E graph file = Ret chunks → chunks ≠ [] →
  multiplicity (file, file +:+ ":BASE", "hierarchy") (g_edges graph')
  = S (multiplicity (file, file +:+ ":BASE", "hierarchy") (g_edges graph))
  ∧ ∀ e, (multiplicity e (g_edges graph) ≤ multiplicity e (g_edges graph'))%nat.
Proof.
  intros Hrun Hchunks Hne.
  apply add_file_chunks_to_graph_spec in Hrun as (chunks' & Hchunks' & _ & _ & Hrun).
  rewrite Hchunks in Hchunks'. injection Hchunks' as <-.
  destruct (Hrun Hne) as (edges & [Hbase _] & -> & _). split.
  - rewrite multiplicity_disj_union, chunk_edge_multiplicity.
    rewrite decide_True by done. lia.
  - intros e. rewrite multiplicity_disj_union. lia.
Qed.

(** ** The nodes of the graph of [Hierarchy] *)

Lemma foldlM_add_file_node_nodes db checksums :
  ∀ st st',
    foldlM (add_file_node db) st checksums = Ret st' →
    dom (g_nodes st.1) ⊆ dom (g_nodes st'.1)
    ∧ ∀ p, p ∈ checksums.*1 → path_str p ∈ dom (g_nodes st'.1).
Proof.
  induction checksums as [|[p c] checksums IH]; intros [g edges] st' Hfold; simpl in *.
  - injection Hfold as <-. split; [done|]. by intros ? ?%elem_of_nil.
  - destruct (list_getitem _ 0) as [record|]; simpl in Hfold; [|done].
    destruct (IH _ _ Hfold) as [Hsub Hin]. simpl in Hsub. rewrite dom_insert in Hsub.
    split; [set_solver|].
    intros q [->|Hq]%elem_of_cons; [set_solver|by apply Hin].
Qed.

Lemma foldl_add_hierarchy_edge_nodes l :
  ∀ g, dom (g_nodes g) ⊆ dom (g_nodes (foldl add_hierarchy_edge g l)).
Proof.
  induction l as [|[s t] l IH]; intros g; simpl; [done|].
  etrans; [|apply IH].
  unfold add_hierarchy_edge, add_directory, add_edge. simpl.
  repeat case_bool_decide; simpl; rewrite ?dom_insert; set_solver.
Qed.


(** ** The properties on the examples *)


Lemma file_is_ancestor_of_its_chunks_witness :
  add_file_chunks_to_graph ex_repo "f.py" ex_nested_graph false ex_db
  = Ret (ex_nested_loaded, ex_nested_batch)
  ∧ node_chunks ex_repo ex_nested_graph "f.py" = Ret ex_nested_chunks
  ∧ hierarchy_edge ex_nested_loaded "f.py" "f.py:BASE"
  ∧ rtc (hierarchy_edge ex_nested_loaded) "f.py:BASE" "f.py:A.b"
  ∧ hierarchy_edge ex_nested_loaded "f.py:A" "f.py:A.b".
Proof.
  assert (Hrun : add_file_chunks_to_graph ex_repo "f.py" ex_nested_graph false ex_db
                 = Ret (ex_nested_loaded, ex_nested_batch)) by compute_done.
  assert (Hchunks : node_chunks ex_repo ex_nested_graph "f.py" = Ret ex_nested_chunks)
    by compute_done.
  split; [exact Hrun|]. split; [exact Hchunks|].
  destruct (file_is_ancestor_of_its_chunks ex_repo "f.py" ex_nested_graph ex_db
              ex_nested_loaded ex_nested_batch ex_nested_chunks Hrun Hchunks)
    as [Hbase Hreach]; [discriminate|].
  split; [exact Hbase|]. split; [|compute_done].
  apply (Hreach (Descr "f.py:A.b" "f.py:1-2")); [by left|by eexists].
Defined.

Lemma hierarchy_annotate_builds_tree_witness :
  ∃ graph db',
    Hierarchy_annotate ex_repo ex_graph0 false ex_db = Ret (graph, db')
    ∧ (∀ v, in_degree graph v ≤ 1)%nat
    ∧ ∀ v, v ∈ dom (g_nodes graph) → rtc (hierarchy_edge graph) "ROOT" v.
Proof.
  apply (hierarchy_annotate_builds_tree ex_repo ex_graph0 false ex_db "/repo").
  - reflexivity.
  - repeat constructor; discriminate.
Defined.

Lemma is_complete_ignores_paths_witness :
  get_document ex_repo "f.py" = get_document ex_swapped_repo "e.py"
  ∧ get_document ex_repo "e.py" = get_document ex_swapped_repo "f.py"
  ∧ ∃ complete db1 db1',
      Hierarchy_is_complete ex_repo ex_graph ex_store = Ret (complete, db1)
      ∧ Hierarchy_is_complete ex_swapped_repo ex_graph ex_store = Ret (complete, db1').
Proof.
  split; [reflexivity|]. split; [reflexivity|].
  apply (is_complete_ignores_paths ex_repo ex_swapped_repo ex_graph ex_store ex_store "/repo").
  - compute_done.
  - intros s. reflexivity.
  - vm_compute. apply perm_swap.
Defined.

Lemma chunker_cannot_read_hierarchy_records_witness :
  Hierarchy_annotate ex_repo ex_graph0 false ∅ = Ret (ex_fresh_graph, ex_fresh_store)
  ∧ Chunker_is_complete (Some default_chunk_extensions) ex_fresh_graph = Raise KeyError
  ∧ Chunker_annotate ex_repo (Some default_chunk_extensions) ex_fresh_graph false ex_fresh_store
    = Raise KeyError.
Proof.
  assert (Hann : Hierarchy_annotate ex_repo ex_graph0 false ∅
                 = Ret (ex_fresh_graph, ex_fresh_store)) by compute_done.
  split; [exact Hann|].
  apply (chunker_cannot_read_hierarchy_records ex_repo ex_graph0 false ∅ ex_fresh_graph
           ex_fresh_store default_chunk_extensions false ex_fresh_store).
  - intros c r Hc. rewrite lookup_empty in Hc. discriminate.
  - discriminate.
  - exact Hann.
Defined.

Lemma whole_file_result_renders_witness :
  ∃ context,
    merge_result ex_repo [] 0 (ex_result "a.py") = Ret context
    ∧ render_context_message ex_repo context
      = Ret ("a.py (no-1-search-result)" +:+ nl +:+ "1: xx" +:+ nl).
Proof.
  apply (whole_file_result_renders ex_repo 0 (ex_result "a.py") "a.py" (PStr "a.py"));
    reflexivity.
Defined.


Lemma python_line_is_dropped_witness :
  parse_script (λ _, AstOk) ex_response
  = Parsed ("Here it is: " +:+ nl +:+ " Done.") "answer(python_version)".
Proof.
  apply (python_line_is_dropped (λ _, AstOk) "Here it is: " nl "_version = 3"
           ("answer(python_version)" +:+ nl) " Done."); reflexivity.
Defined.

Lemma cerebrus_gives_up_with_no_answer_witness :
  prints_something ex_failing_agent "```1 +```" = true
  ∧ cerebrus ex_failing_agent "query" = Returned "".
Proof.
  split; [reflexivity|].
  apply (cerebrus_gives_up_with_no_answer ex_failing_agent "query").
  intros messages. exists "```1 +```". split; reflexivity.
Defined.


Lemma loading_chunks_adds_edges_again_witness :
  add_file_chunks_to_graph ex_repo "f.py" ex_loaded_graph false ex_db
  = Ret (ex_reloaded_graph, ex_reloaded_batch)
  ∧ multiplicity ("f.py", "f.py:BASE", "hierarchy") (g_edges ex_loaded_graph) = 1%nat
  ∧ multiplicity ("f.py", "f.py:BASE", "hierarchy") (g_edges ex_reloaded_graph)
    = S (multiplicity ("f.py", "f.py:BASE", "hierarchy") (g_edges ex_loaded_graph)).
Proof.
  assert (Hrun : add_file_chunks_to_graph ex_repo "f.py" ex_loaded_graph false ex_db
                 = Ret (ex_reloaded_graph, ex_reloaded_batch)) by compute_done.
  assert (Hchunks : node_chunks ex_repo ex_loaded_graph "f.py" = Ret ex_f_chunks)
    by compute_done.
  split; [exact Hrun|]. split; [compute_done|].
  refine (proj1 (loading_chunks_adds_edges_again ex_repo "f.py" ex_loaded_graph ex_db
                   ex_reloaded_graph ex_reloaded_batch ex_f_chunks Hrun Hchunks _)).
  discriminate.
Defined.

